(** * Outback Stockbook: the persistence layer and its view logic

    A shallow embedding of [stockbook/models/entities.py],
    [stockbook/models/database.py] and of the data paths of the dialogs
    and views that read and write the store: [ui/dialogs/quick_actions.py],
    [ui/dialogs/animal_dialog.py], and [animals.py], [mobs.py],
    [paddocks.py], [treatments.py], [weights.py], [dashboard.py] and
    [settings.py] of [ui/views], with the sale draft of
    [services/pdf_reports.py].

    Modelling conventions.
    - A [date] is its proleptic Gregorian ordinal ([date.toordinal()]), so
      that [d + timedelta(days=n)] is [d + n] when the result is a valid
      date and [OverflowError] otherwise.  SQLite stores dates as ISO text
      of fixed width, whose text order is the order of the ordinals.
    - A [datetime] is a number of clock ticks; [datetime.now()] and
      [date.today()] are inputs of the operations that read them.
    - A [float] (weights, areas, scores) is an exact rational.
    - A [str] is the list of its characters, each an [ascii]: text is
      Latin-1.  LIKE's [_] stands for one character, and the BINARY
      collation, which compares UTF-8 bytes, orders text by code point.
    - An [int] (ids, references, day counts, limits) is a [Z].  SQLite
      holds signed 64-bit INTEGERs.  Each method is first defined on ints
      that SQLite holds, as every id read back from a row is; module [Api]
      then adds what [cursor.execute] does with an int that does not fit.
    - A table is the list of its rows in rowid order together with the
      AUTOINCREMENT counter of [sqlite_sequence].  The counter only grows
      by the INSERTs of the application and is taken to stay below its
      limit of [2 ^ 63 - 1]; a table whose counter has reached it, where
      SQLite refuses every INSERT, is outside the model.
    - Every statement is atomic: it either takes effect or raises
      [IntegrityError] and leaves the store as it was.  Foreign keys are
      checked at the end of the statement ([PRAGMA foreign_keys = ON]), on
      the rows that the statement writes or whose parent it deletes.  A
      store that already violates its foreign keys, which SQLite does not
      let arise, is outside the model.
    - A widget is read where the code reads it; its content is an input of
      the view method.  A Python truth test on an optional id is the test
      for [None] or [0]. *)

From Stdlib Require Import ZArith QArith List String Ascii Bool Lia.
From Stdlib Require Import Permutation Sorted.
Import ListNotations.
Local Open Scope Z_scope.

Set Implicit Arguments.

(** ** Values *)

Definition date := Z.
Definition datetime := Z.

Inductive Exception :=
| IntegrityError
| OverflowError
| AttributeError
| ZeroDivisionError.

Inductive result (A : Type) :=
| Ok (a : A)
| Raise (e : Exception).
Arguments Ok {A} a.
Arguments Raise {A} e.

(** [date.min.toordinal()] and [date.max.toordinal()]. *)
Definition date_min : Z := 1.
Definition date_max : Z := 3652059.

(** [d + timedelta(days=n)]. *)
Definition date_add (d : date) (n : Z) : result date :=
  if (date_min <=? d + n) && (d + n <=? date_max)
  then Ok (d + n) else Raise OverflowError.

(** Python's true division of a float by an int. *)
Definition truediv (x : Q) (n : Z) : result Q :=
  if n =? 0 then Raise ZeroDivisionError else Ok (x / inject_Z n)%Q.

(** ** entities.py *)

Inductive AnimalStatus := ALIVE | SOLD | DEAD | MISSING.
Inductive AnimalSex := MALE | FEMALE | STEER | WETHER.
Inductive Species := CATTLE | SHEEP.
Inductive EventType :=
| MOVEMENT | TREATMENT | WEIGH | DEATH | SALE | BIRTH
| PREGNANCY_TEST | JOINING | NOTE.
Inductive TreatmentRoute :=
| ORAL | INJECTION_SC | INJECTION_IM | POUR_ON | SPRAY | EAR_TAG
| INTRARUMINAL | OTHER.

Definition AnimalStatus_eqb (a b : AnimalStatus) : bool :=
  match a, b with
  | ALIVE, ALIVE | SOLD, SOLD | DEAD, DEAD | MISSING, MISSING => true
  | _, _ => false
  end.

Definition EventType_eqb (a b : EventType) : bool :=
  match a, b with
  | MOVEMENT, MOVEMENT | TREATMENT, TREATMENT | WEIGH, WEIGH
  | DEATH, DEATH | SALE, SALE | BIRTH, BIRTH
  | PREGNANCY_TEST, PREGNANCY_TEST | JOINING, JOINING | NOTE, NOTE => true
  | _, _ => false
  end.

Module Paddock.
Record t := mk {
id : option Z;
name : string;
area_hectares : option Q;
notes : string;
pic : string;
created_at : option datetime;
updated_at : option datetime }.
End Paddock.

Module Mob.
Record t := mk {
id : option Z;
name : string;
species : Species;
description : string;
current_paddock_id : option Z;
created_at : option datetime;
updated_at : option datetime }.
End Mob.

Module Animal.
Record t := mk {
id : option Z;
eid : string;
visual_tag : string;
species : Species;
breed : string;
sex : AnimalSex;
date_of_birth : option date;
status : AnimalStatus;
mob_id : option Z;
dam_id : option Z;
sire_id : option Z;
notes : string;
created_at : option datetime;
updated_at : option datetime }.
End Animal.

Module Product.
Record t := mk {
id : option Z;
name : string;
active_ingredient : string;
category : string;
meat_whp_days : Z;
milk_whp_days : Z;
esi_days : Z;
default_dose : string;
default_route : TreatmentRoute;
notes : string;
created_at : option datetime;
updated_at : option datetime }.
End Product.

Module Event.
Record t := mk {
id : option Z;
event_type : EventType;
event_date : date;
animal_id : option Z;
mob_id : option Z;
notes : string;
recorded_by : string;
created_at : option datetime }.
End Event.

Module MovementEvent.
Record t := mk {
id : option Z;
event_id : option Z;
from_paddock_id : option Z;
to_paddock_id : option Z;
reason : string;
head_count : Z }.
End MovementEvent.

Module TreatmentEvent.
Record t := mk {
id : option Z;
event_id : option Z;
product_id : option Z;
batch_number : string;
dose : string;
route : TreatmentRoute;
administered_by : string;
meat_whp_end : option date;
milk_whp_end : option date;
esi_end : option date }.
End TreatmentEvent.

Module WeighEvent.
Record t := mk {
id : option Z;
event_id : option Z;
weight_kg : Q;
condition_score : option Q }.
End WeighEvent.

Module Task.
Record t := mk {
id : option Z;
title : string;
description : string;
due_date : option date;
source_event_id : option Z;
animal_id : option Z;
mob_id : option Z;
completed : bool;
completed_at : option datetime;
created_at : option datetime }.
End Task.

Module PropertySettings.
Record t := mk {
id : option Z;
property_name : string;
pic : string;
owner_name : string;
address : string;
phone : string;
email : string;
created_at : option datetime;
updated_at : option datetime }.
End PropertySettings.

(** ** The store *)

(** A table: its rows in rowid order and the largest rowid ever handed out
    (the [sqlite_sequence] entry that AUTOINCREMENT maintains). *)
Record Table (A : Type) := mkTable { rows : list A; seq : Z }.

Section TableOps.
Variable A : Type.
Variable getid : A -> option Z.

Definition has_id (k : Z) (r : A) : bool :=
match getid r with Some j => j =? k | None => false end.

Definition ids (l : list A) : list Z :=
flat_map (fun r => match getid r with Some j => [j] | None => [] end) l.

Definition max_rowid (l : list A) : Z :=
fold_right (fun r m => match getid r with Some j => Z.max j m | None => m end) 0 l.

(** [cursor.lastrowid] of the next INSERT: one more than every rowid
the table has ever held. *)
Definition next_rowid (t : Table A) : Z :=
Z.max (seq t) (max_rowid (rows t)) + 1.

(** [INSERT INTO ...]: the row is built from the rowid it receives. *)
Definition insert_row (mkrow : Z -> A) (t : Table A) : Table A :=
mkTable (rows t ++ [mkrow (next_rowid t)]) (next_rowid t).

(** [UPDATE ... SET ... WHERE id = k]. *)
Definition update_row (k : Z) (f : A -> A) (t : Table A) : Table A :=
mkTable (map (fun r => if has_id k r then f r else r) (rows t)) (seq t).

(** [DELETE FROM ... WHERE id = k]. *)
Definition delete_row (k : Z) (t : Table A) : Table A :=
mkTable (filter (fun r => negb (has_id k r)) (rows t)) (seq t).

(** [SELECT * FROM ... WHERE id = k] followed by [fetchone()]. *)
Definition select_id (k : Z) (t : Table A) : option A :=
find (has_id k) (rows t).
End TableOps.

Definition empty_table {A : Type} : Table A := mkTable [] 0.

Record Database := mkDatabase {
  paddocks : Table Paddock.t;
  mobs : Table Mob.t;
  animals : Table Animal.t;
  products : Table Product.t;
  events : Table Event.t;
  movement_events : Table MovementEvent.t;
  treatment_events : Table TreatmentEvent.t;
  weigh_events : Table WeighEvent.t;
  tasks : Table Task.t;
  property_settings : Table PropertySettings.t }.

(** The store right after [_init_schema] on a fresh file. *)
Definition empty_db : Database :=
  mkDatabase empty_table empty_table empty_table empty_table empty_table
             empty_table empty_table empty_table empty_table empty_table.

Definition set_paddocks (f : Table Paddock.t -> Table Paddock.t) (db : Database) :=
  mkDatabase (f (paddocks db)) (mobs db) (animals db) (products db) (events db)
    (movement_events db) (treatment_events db) (weigh_events db) (tasks db)
    (property_settings db).
Definition set_mobs (f : Table Mob.t -> Table Mob.t) (db : Database) :=
  mkDatabase (paddocks db) (f (mobs db)) (animals db) (products db) (events db)
    (movement_events db) (treatment_events db) (weigh_events db) (tasks db)
    (property_settings db).
Definition set_animals (f : Table Animal.t -> Table Animal.t) (db : Database) :=
  mkDatabase (paddocks db) (mobs db) (f (animals db)) (products db) (events db)
    (movement_events db) (treatment_events db) (weigh_events db) (tasks db)
    (property_settings db).
Definition set_products (f : Table Product.t -> Table Product.t) (db : Database) :=
  mkDatabase (paddocks db) (mobs db) (animals db) (f (products db)) (events db)
    (movement_events db) (treatment_events db) (weigh_events db) (tasks db)
    (property_settings db).
Definition set_events (f : Table Event.t -> Table Event.t) (db : Database) :=
  mkDatabase (paddocks db) (mobs db) (animals db) (products db) (f (events db))
    (movement_events db) (treatment_events db) (weigh_events db) (tasks db)
    (property_settings db).
Definition set_movement_events
    (f : Table MovementEvent.t -> Table MovementEvent.t) (db : Database) :=
  mkDatabase (paddocks db) (mobs db) (animals db) (products db) (events db)
    (f (movement_events db)) (treatment_events db) (weigh_events db) (tasks db)
    (property_settings db).
Definition set_treatment_events
    (f : Table TreatmentEvent.t -> Table TreatmentEvent.t) (db : Database) :=
  mkDatabase (paddocks db) (mobs db) (animals db) (products db) (events db)
    (movement_events db) (f (treatment_events db)) (weigh_events db) (tasks db)
    (property_settings db).
Definition set_weigh_events
    (f : Table WeighEvent.t -> Table WeighEvent.t) (db : Database) :=
  mkDatabase (paddocks db) (mobs db) (animals db) (products db) (events db)
    (movement_events db) (treatment_events db) (f (weigh_events db)) (tasks db)
    (property_settings db).
Definition set_tasks (f : Table Task.t -> Table Task.t) (db : Database) :=
  mkDatabase (paddocks db) (mobs db) (animals db) (products db) (events db)
    (movement_events db) (treatment_events db) (weigh_events db) (f (tasks db))
    (property_settings db).
Definition set_property_settings
    (f : Table PropertySettings.t -> Table PropertySettings.t) (db : Database) :=
  mkDatabase (paddocks db) (mobs db) (animals db) (products db) (events db)
    (movement_events db) (treatment_events db) (weigh_events db) (tasks db)
    (f (property_settings db)).

(** ** Store computations

    A method of [Database] reads and writes the store and may raise.  What
    was committed before an exception stays committed, so the store is
    threaded through failures as well. *)
Definition M (A : Type) := Database -> result A * Database.

Definition ret {A : Type} (a : A) : M A := fun db => (Ok a, db).
Definition raise {A : Type} (e : Exception) : M A := fun db => (Raise e, db).
Definition bind {A B : Type} (m : M A) (k : A -> M B) : M B :=
  fun db => match m db with
            | (Ok a, db') => k a db'
            | (Raise e, db') => (Raise e, db')
            end.
Definition lift {A : Type} (r : result A) : M A := fun db => (r, db).

Notation "x <- m ;; k" := (bind m (fun x => k))
  (at level 61, m at next level, right associativity).
Notation "m ;;; k" := (bind m (fun _ => k))
  (at level 61, right associativity).

(** A SELECT, its parameters bound. *)
Definition query {A : Type} (q : Database -> A) : M A :=
  fun db => (Ok (q db), db).

(** An INSERT, UPDATE or DELETE, its parameters bound, followed by
    [commit()]: [fk] is the foreign-key check of the tables the statement
    touches, evaluated on the store the statement would leave. *)
Definition execute (stmt : Database -> Database) (fk : Database -> bool) : M unit :=
  fun db => if fk (stmt db) then (Ok tt, stmt db) else (Raise IntegrityError, db).

(** A nullable reference is satisfied by NULL or by an existing parent. *)
Definition refers (o : option Z) (parents : list Z) : bool :=
  match o with
  | None => true
  | Some k => existsb (Z.eqb k) parents
  end.

Definition paddock_ids (db : Database) := ids Paddock.id (rows (paddocks db)).
Definition mob_ids (db : Database) := ids Mob.id (rows (mobs db)).
Definition animal_ids (db : Database) := ids Animal.id (rows (animals db)).
Definition product_ids (db : Database) := ids Product.id (rows (products db)).
Definition event_ids (db : Database) := ids Event.id (rows (events db)).

(** ** SQL statements *)

Section Statements.
Variable A : Type.
Variable getid : A -> option Z.
Variable tbl : Database -> Table A.
Variable set_tbl : (Table A -> Table A) -> Database -> Database.
(** The foreign keys of one row, checked against the store. *)
Variable fk : A -> Database -> bool.

(** INSERT and [commit()]; the value is [cursor.lastrowid]. *)
Definition sql_insert (mkrow : Z -> A) : M Z :=
fun db =>
let k := next_rowid getid (tbl db) in
let db' := set_tbl (insert_row getid mkrow) db in
if fk (mkrow k) db' then (Ok k, db') else (Raise IntegrityError, db).

(** UPDATE ... WHERE id = k and [commit()]; rows that do not match are
neither changed nor checked. *)
Definition sql_update (k : Z) (f : A -> A) : M unit :=
execute (set_tbl (update_row getid k f))
(fun db' => forallb (fun r => negb (has_id getid k r) || fk r db')
        (rows (tbl db'))).

(** DELETE ... WHERE id = k and [commit()]; [unreferenced] is the check
of the child tables whose reference has no ON DELETE action. *)
Definition sql_delete (k : Z) (unreferenced : Database -> bool) : M unit :=
execute (set_tbl (delete_row getid k)) unreferenced.
End Statements.

Definition no_fk {A : Type} (_ : A) (_ : Database) : bool := true.

(** No row of [l] holds [k] in the nullable reference [col]. *)
Definition unreferenced {A : Type} (col : A -> option Z) (k : Z) (l : list A) : bool :=
  forallb (fun r => match col r with Some j => negb (j =? k) | None => true end) l.

(** ** ORDER BY and LIMIT *)

Section OrderBy.
Variable A : Type.
Variable le : A -> A -> bool.

Fixpoint insert_sorted (x : A) (l : list A) : list A :=
match l with
| [] => [x]
| y :: l' => if le x y then x :: l else y :: insert_sorted x l'
end.

(** A stable sort: rows with equal keys keep their scan order. *)
Definition order_by (l : list A) : list A := fold_right insert_sorted [] l.
End OrderBy.

(** [LIMIT n]; a negative [n] is no limit. *)
Definition limit {A : Type} (n : Z) (l : list A) : list A :=
  if n <? 0 then l else firstn (Z.to_nat n) l.

(** Ascending order of a nullable column puts NULL first. *)
Definition nulls_first_le (a b : option Z) : bool :=
  match a, b with
  | None, _ => true
  | Some _, None => false
  | Some x, Some y => x <=? y
  end.

Definition nulls_last_le (a b : option Z) : bool :=
  match a, b with
  | _, None => true
  | None, Some _ => false
  | Some x, Some y => x <=? y
  end.

(** [a = b] on nullable columns: NULL equals nothing. *)
Definition sql_eq (a b : option Z) : bool :=
  match a, b with
  | Some x, Some y => x =? y
  | _, _ => false
  end.

(** ** database.py: paddocks *)

Definition save_paddock (now : datetime) (paddock : Paddock.t) : M Paddock.t :=
  match Paddock.id paddock with
  | None =>
      k <- sql_insert Paddock.id paddocks set_paddocks no_fk
             (fun k => Paddock.mk (Some k) (Paddock.name paddock)
                         (Paddock.area_hectares paddock) (Paddock.notes paddock)
                         (Paddock.pic paddock) (Some now) (Some now)) ;;
      ret (Paddock.mk (Some k) (Paddock.name paddock)
             (Paddock.area_hectares paddock) (Paddock.notes paddock)
             (Paddock.pic paddock) (Some now) (Some now))
  | Some k =>
      sql_update Paddock.id paddocks set_paddocks no_fk k
        (fun r => Paddock.mk (Paddock.id r) (Paddock.name paddock)
                    (Paddock.area_hectares paddock) (Paddock.notes paddock)
                    (Paddock.pic paddock) (Paddock.created_at r) (Some now)) ;;;
      ret (Paddock.mk (Some k) (Paddock.name paddock)
             (Paddock.area_hectares paddock) (Paddock.notes paddock)
             (Paddock.pic paddock) (Paddock.created_at paddock) (Some now))
  end.

Definition get_paddock (paddock_id : Z) : M (option Paddock.t) :=
  query (fun db => select_id Paddock.id paddock_id (paddocks db)).

Definition get_all_paddocks : M (list Paddock.t) :=
  query (fun db =>
    order_by (fun a b => String.leb (Paddock.name a) (Paddock.name b))
             (rows (paddocks db))).

Definition delete_paddock (paddock_id : Z) : M unit :=
  sql_delete Paddock.id set_paddocks paddock_id
    (fun db =>
       unreferenced Mob.current_paddock_id paddock_id (rows (mobs db))
       && unreferenced MovementEvent.from_paddock_id paddock_id (rows (movement_events db))
       && unreferenced MovementEvent.to_paddock_id paddock_id (rows (movement_events db))).

(** ** database.py: mobs *)

Definition fk_mob (m : Mob.t) (db : Database) : bool :=
  refers (Mob.current_paddock_id m) (paddock_ids db).

Definition save_mob (now : datetime) (mob : Mob.t) : M Mob.t :=
  match Mob.id mob with
  | None =>
      k <- sql_insert Mob.id mobs set_mobs fk_mob
             (fun k => Mob.mk (Some k) (Mob.name mob) (Mob.species mob)
                         (Mob.description mob) (Mob.current_paddock_id mob)
                         (Some now) (Some now)) ;;
      ret (Mob.mk (Some k) (Mob.name mob) (Mob.species mob)
             (Mob.description mob) (Mob.current_paddock_id mob)
             (Some now) (Some now))
  | Some k =>
      sql_update Mob.id mobs set_mobs fk_mob k
        (fun r => Mob.mk (Mob.id r) (Mob.name mob) (Mob.species mob)
                    (Mob.description mob) (Mob.current_paddock_id mob)
                    (Mob.created_at r) (Some now)) ;;;
      ret (Mob.mk (Some k) (Mob.name mob) (Mob.species mob)
             (Mob.description mob) (Mob.current_paddock_id mob)
             (Mob.created_at mob) (Some now))
  end.

Definition get_mob (mob_id : Z) : M (option Mob.t) :=
  query (fun db => select_id Mob.id mob_id (mobs db)).

Definition get_all_mobs : M (list Mob.t) :=
  query (fun db =>
    order_by (fun a b => String.leb (Mob.name a) (Mob.name b)) (rows (mobs db))).

Definition delete_mob (mob_id : Z) : M unit :=
  sql_delete Mob.id set_mobs mob_id
    (fun db =>
       unreferenced Animal.mob_id mob_id (rows (animals db))
       && unreferenced Event.mob_id mob_id (rows (events db))
       && unreferenced Task.mob_id mob_id (rows (tasks db))).

Definition get_mob_animal_count (mob_id : Z) : M Z :=
  query (fun db =>
    Z.of_nat (List.length (filter
      (fun a => sql_eq (Animal.mob_id a) (Some mob_id)
                && AnimalStatus_eqb (Animal.status a) ALIVE)
      (rows (animals db))))).

(** ** The LIKE operator

    [%] matches any run of characters, [_] any one character, and every
    other character matches itself up to the case of ASCII letters.  No
    ESCAPE clause is in use. *)

Definition lower (c : ascii) : ascii :=
  let n := nat_of_ascii c in
  if ((65 <=? n) && (n <=? 90))%nat then ascii_of_nat (n + 32) else c.

Fixpoint like (p s : string) : bool :=
  match p with
  | EmptyString => match s with EmptyString => true | String _ _ => false end
  | String c p' =>
      if Ascii.eqb c "%" then
        (fix star (s : string) : bool :=
           like p' s
           || match s with EmptyString => false | String _ s' => star s' end) s
      else
        match s with
        | EmptyString => false
        | String x s' =>
            (Ascii.eqb c "_" || Ascii.eqb (lower c) (lower x)) && like p' s'
        end
  end.

(** ** database.py: animals *)

Definition fk_animal (a : Animal.t) (db : Database) : bool :=
  refers (Animal.mob_id a) (mob_ids db)
  && refers (Animal.dam_id a) (animal_ids db)
  && refers (Animal.sire_id a) (animal_ids db).

Definition save_animal (now : datetime) (animal : Animal.t) : M Animal.t :=
  match Animal.id animal with
  | None =>
      k <- sql_insert Animal.id animals set_animals fk_animal
             (fun k => Animal.mk (Some k) (Animal.eid animal) (Animal.visual_tag animal)
                         (Animal.species animal) (Animal.breed animal) (Animal.sex animal)
                         (Animal.date_of_birth animal) (Animal.status animal)
                         (Animal.mob_id animal) (Animal.dam_id animal)
                         (Animal.sire_id animal) (Animal.notes animal)
                         (Some now) (Some now)) ;;
      ret (Animal.mk (Some k) (Animal.eid animal) (Animal.visual_tag animal)
             (Animal.species animal) (Animal.breed animal) (Animal.sex animal)
             (Animal.date_of_birth animal) (Animal.status animal)
             (Animal.mob_id animal) (Animal.dam_id animal)
             (Animal.sire_id animal) (Animal.notes animal)
             (Some now) (Some now))
  | Some k =>
      sql_update Animal.id animals set_animals fk_animal k
        (fun r => Animal.mk (Animal.id r) (Animal.eid animal) (Animal.visual_tag animal)
                    (Animal.species animal) (Animal.breed animal) (Animal.sex animal)
                    (Animal.date_of_birth animal) (Animal.status animal)
                    (Animal.mob_id animal) (Animal.dam_id animal)
                    (Animal.sire_id animal) (Animal.notes animal)
                    (Animal.created_at r) (Some now)) ;;;
      ret (Animal.mk (Some k) (Animal.eid animal) (Animal.visual_tag animal)
             (Animal.species animal) (Animal.breed animal) (Animal.sex animal)
             (Animal.date_of_birth animal) (Animal.status animal)
             (Animal.mob_id animal) (Animal.dam_id animal)
             (Animal.sire_id animal) (Animal.notes animal)
             (Animal.created_at animal) (Some now))
  end.

Definition get_animal (animal_id : Z) : M (option Animal.t) :=
  query (fun db => select_id Animal.id animal_id (animals db)).

Definition get_animal_by_eid (eid : string) : M (option Animal.t) :=
  query (fun db => find (fun a => String.eqb (Animal.eid a) eid) (rows (animals db))).

(** [ORDER BY visual_tag, eid]. *)
Definition animal_le (a b : Animal.t) : bool :=
  String.ltb (Animal.visual_tag a) (Animal.visual_tag b)
  || (String.eqb (Animal.visual_tag a) (Animal.visual_tag b)
      && String.leb (Animal.eid a) (Animal.eid b)).

Definition get_all_animals (status : option AnimalStatus) : M (list Animal.t) :=
  query (fun db =>
    match status with
    | Some s =>
        order_by animal_le
          (filter (fun a => AnimalStatus_eqb (Animal.status a) s) (rows (animals db)))
    | None => order_by animal_le (rows (animals db))
    end).

Definition get_animals_by_mob (mob_id : Z) : M (list Animal.t) :=
  query (fun db =>
    order_by animal_le
      (filter (fun a => sql_eq (Animal.mob_id a) (Some mob_id)) (rows (animals db)))).

Definition search_animals (q : string) : M (list Animal.t) :=
  let like_query := ("%" ++ q ++ "%")%string in
  query (fun db =>
    order_by animal_le
      (filter (fun a => like like_query (Animal.eid a)
                        || like like_query (Animal.visual_tag a))
              (rows (animals db)))).

Definition delete_animal (animal_id : Z) : M unit :=
  sql_delete Animal.id set_animals animal_id
    (fun db =>
       unreferenced Animal.dam_id animal_id (rows (animals db))
       && unreferenced Animal.sire_id animal_id (rows (animals db))
       && unreferenced Event.animal_id animal_id (rows (events db))
       && unreferenced Task.animal_id animal_id (rows (tasks db))).

(** ** database.py: products *)

Definition save_product (now : datetime) (product : Product.t) : M Product.t :=
  match Product.id product with
  | None =>
      k <- sql_insert Product.id products set_products no_fk
             (fun k => Product.mk (Some k) (Product.name product)
                         (Product.active_ingredient product) (Product.category product)
                         (Product.meat_whp_days product) (Product.milk_whp_days product)
                         (Product.esi_days product) (Product.default_dose product)
                         (Product.default_route product) (Product.notes product)
                         (Some now) (Some now)) ;;
      ret (Product.mk (Some k) (Product.name product)
             (Product.active_ingredient product) (Product.category product)
             (Product.meat_whp_days product) (Product.milk_whp_days product)
             (Product.esi_days product) (Product.default_dose product)
             (Product.default_route product) (Product.notes product)
             (Some now) (Some now))
  | Some k =>
      sql_update Product.id products set_products no_fk k
        (fun r => Product.mk (Product.id r) (Product.name product)
                    (Product.active_ingredient product) (Product.category product)
                    (Product.meat_whp_days product) (Product.milk_whp_days product)
                    (Product.esi_days product) (Product.default_dose product)
                    (Product.default_route product) (Product.notes product)
                    (Product.created_at r) (Some now)) ;;;
      ret (Product.mk (Some k) (Product.name product)
             (Product.active_ingredient product) (Product.category product)
             (Product.meat_whp_days product) (Product.milk_whp_days product)
             (Product.esi_days product) (Product.default_dose product)
             (Product.default_route product) (Product.notes product)
             (Product.created_at product) (Some now))
  end.

Definition get_product (product_id : Z) : M (option Product.t) :=
  query (fun db => select_id Product.id product_id (products db)).

Definition get_all_products : M (list Product.t) :=
  query (fun db =>
    order_by (fun a b => String.leb (Product.name a) (Product.name b))
             (rows (products db))).

Definition delete_product (product_id : Z) : M unit :=
  sql_delete Product.id set_products product_id
    (fun db =>
       unreferenced TreatmentEvent.product_id product_id (rows (treatment_events db))).

(** ** database.py: events *)

Definition fk_event (e : Event.t) (db : Database) : bool :=
  refers (Event.animal_id e) (animal_ids db)
  && refers (Event.mob_id e) (mob_ids db).

(** [event.event_type = ty]. *)
Definition set_event_type (ty : EventType) (e : Event.t) : Event.t :=
  Event.mk (Event.id e) ty (Event.event_date e) (Event.animal_id e)
           (Event.mob_id e) (Event.notes e) (Event.recorded_by e)
           (Event.created_at e).

Definition save_event (now : datetime) (event : Event.t) : M Event.t :=
  match Event.id event with
  | None =>
      k <- sql_insert Event.id events set_events fk_event
             (fun k => Event.mk (Some k) (Event.event_type event)
                         (Event.event_date event) (Event.animal_id event)
                         (Event.mob_id event) (Event.notes event)
                         (Event.recorded_by event) (Some now)) ;;
      ret (Event.mk (Some k) (Event.event_type event)
             (Event.event_date event) (Event.animal_id event)
             (Event.mob_id event) (Event.notes event)
             (Event.recorded_by event) (Some now))
  | Some k =>
      sql_update Event.id events set_events fk_event k
        (fun r => Event.mk (Event.id r) (Event.event_type event)
                    (Event.event_date event) (Event.animal_id event)
                    (Event.mob_id event) (Event.notes event)
                    (Event.recorded_by event) (Event.created_at r)) ;;;
      ret event
  end.

Definition fk_movement_insert (m : MovementEvent.t) (db : Database) : bool :=
  refers (MovementEvent.event_id m) (event_ids db)
  && refers (MovementEvent.from_paddock_id m) (paddock_ids db)
  && refers (MovementEvent.to_paddock_id m) (paddock_ids db).

(** The UPDATE does not set [event_id], so only the paddocks are checked. *)
Definition fk_movement_update (m : MovementEvent.t) (db : Database) : bool :=
  refers (MovementEvent.from_paddock_id m) (paddock_ids db)
  && refers (MovementEvent.to_paddock_id m) (paddock_ids db).

Definition save_movement_event (now : datetime) (event : Event.t)
    (movement : MovementEvent.t) : M (Event.t * MovementEvent.t) :=
  event <- save_event now (set_event_type MOVEMENT event) ;;
  match MovementEvent.id movement with
  | None =>
      k <- sql_insert MovementEvent.id movement_events set_movement_events
             fk_movement_insert
             (fun k => MovementEvent.mk (Some k) (Event.id event)
                         (MovementEvent.from_paddock_id movement)
                         (MovementEvent.to_paddock_id movement)
                         (MovementEvent.reason movement)
                         (MovementEvent.head_count movement)) ;;
      ret (event,
           MovementEvent.mk (Some k) (Event.id event)
             (MovementEvent.from_paddock_id movement)
             (MovementEvent.to_paddock_id movement)
             (MovementEvent.reason movement)
             (MovementEvent.head_count movement))
  | Some k =>
      sql_update MovementEvent.id movement_events set_movement_events
        fk_movement_update k
        (fun r => MovementEvent.mk (MovementEvent.id r) (MovementEvent.event_id r)
                    (MovementEvent.from_paddock_id movement)
                    (MovementEvent.to_paddock_id movement)
                    (MovementEvent.reason movement)
                    (MovementEvent.head_count movement)) ;;;
      ret (event, movement)
  end.

Definition fk_treatment_insert (t : TreatmentEvent.t) (db : Database) : bool :=
  refers (TreatmentEvent.event_id t) (event_ids db)
  && refers (TreatmentEvent.product_id t) (product_ids db).

Definition fk_treatment_update (t : TreatmentEvent.t) (db : Database) : bool :=
  refers (TreatmentEvent.product_id t) (product_ids db).

Definition save_treatment_event (now : datetime) (event : Event.t)
    (treatment : TreatmentEvent.t) : M (Event.t * TreatmentEvent.t) :=
  event <- save_event now (set_event_type TREATMENT event) ;;
  match TreatmentEvent.id treatment with
  | None =>
      k <- sql_insert TreatmentEvent.id treatment_events set_treatment_events
             fk_treatment_insert
             (fun k => TreatmentEvent.mk (Some k) (Event.id event)
                         (TreatmentEvent.product_id treatment)
                         (TreatmentEvent.batch_number treatment)
                         (TreatmentEvent.dose treatment)
                         (TreatmentEvent.route treatment)
                         (TreatmentEvent.administered_by treatment)
                         (TreatmentEvent.meat_whp_end treatment)
                         (TreatmentEvent.milk_whp_end treatment)
                         (TreatmentEvent.esi_end treatment)) ;;
      ret (event,
           TreatmentEvent.mk (Some k) (Event.id event)
             (TreatmentEvent.product_id treatment)
             (TreatmentEvent.batch_number treatment)
             (TreatmentEvent.dose treatment)
             (TreatmentEvent.route treatment)
             (TreatmentEvent.administered_by treatment)
             (TreatmentEvent.meat_whp_end treatment)
             (TreatmentEvent.milk_whp_end treatment)
             (TreatmentEvent.esi_end treatment))
  | Some k =>
      sql_update TreatmentEvent.id treatment_events set_treatment_events
        fk_treatment_update k
        (fun r => TreatmentEvent.mk (TreatmentEvent.id r) (TreatmentEvent.event_id r)
                    (TreatmentEvent.product_id treatment)
                    (TreatmentEvent.batch_number treatment)
                    (TreatmentEvent.dose treatment)
                    (TreatmentEvent.route treatment)
                    (TreatmentEvent.administered_by treatment)
                    (TreatmentEvent.meat_whp_end treatment)
                    (TreatmentEvent.milk_whp_end treatment)
                    (TreatmentEvent.esi_end treatment)) ;;;
      ret (event, treatment)
  end.

Definition fk_weigh_insert (w : WeighEvent.t) (db : Database) : bool :=
  refers (WeighEvent.event_id w) (event_ids db).

Definition save_weigh_event (now : datetime) (event : Event.t)
    (weigh : WeighEvent.t) : M (Event.t * WeighEvent.t) :=
  event <- save_event now (set_event_type WEIGH event) ;;
  match WeighEvent.id weigh with
  | None =>
      k <- sql_insert WeighEvent.id weigh_events set_weigh_events fk_weigh_insert
             (fun k => WeighEvent.mk (Some k) (Event.id event)
                         (WeighEvent.weight_kg weigh)
                         (WeighEvent.condition_score weigh)) ;;
      ret (event,
           WeighEvent.mk (Some k) (Event.id event)
             (WeighEvent.weight_kg weigh) (WeighEvent.condition_score weigh))
  | Some k =>
      sql_update WeighEvent.id weigh_events set_weigh_events no_fk k
        (fun r => WeighEvent.mk (WeighEvent.id r) (WeighEvent.event_id r)
                    (WeighEvent.weight_kg weigh)
                    (WeighEvent.condition_score weigh)) ;;;
      ret (event, weigh)
  end.

(** [ORDER BY event_date DESC]. *)
Definition event_date_desc (a b : Event.t) : bool :=
  Event.event_date b <=? Event.event_date a.

(** [ORDER BY event_date DESC, created_at DESC]. *)
Definition event_recent (a b : Event.t) : bool :=
  (Event.event_date b <? Event.event_date a)
  || ((Event.event_date a =? Event.event_date b)
      && nulls_first_le (Event.created_at b) (Event.created_at a)).

Definition get_events_for_animal (animal_id : Z) (event_type : option EventType)
  : M (list Event.t) :=
  query (fun db =>
    match event_type with
    | Some ty =>
        order_by event_date_desc
          (filter (fun e => sql_eq (Event.animal_id e) (Some animal_id)
                            && EventType_eqb (Event.event_type e) ty)
                  (rows (events db)))
    | None =>
        order_by event_date_desc
          (filter (fun e => sql_eq (Event.animal_id e) (Some animal_id))
                  (rows (events db)))
    end).

Definition get_events_for_mob (mob_id : Z) (event_type : option EventType)
  : M (list Event.t) :=
  query (fun db =>
    match event_type with
    | Some ty =>
        order_by event_date_desc
          (filter (fun e => sql_eq (Event.mob_id e) (Some mob_id)
                            && EventType_eqb (Event.event_type e) ty)
                  (rows (events db)))
    | None =>
        order_by event_date_desc
          (filter (fun e => sql_eq (Event.mob_id e) (Some mob_id))
                  (rows (events db)))
    end).

(** The rows are read along [idx_events_date], walked backwards for
    [event_date DESC], and sorted by [created_at] within a date: rows that
    tie on both keys come with the latest rowid first. *)
Definition get_recent_events (lim : Z) : M (list Event.t) :=
  query (fun db => limit lim (order_by event_recent (rev (rows (events db))))).

Definition get_treatment_details (event_id : Z) : M (option TreatmentEvent.t) :=
  query (fun db =>
    find (fun t => sql_eq (TreatmentEvent.event_id t) (Some event_id))
         (rows (treatment_events db))).

Definition get_movement_details (event_id : Z) : M (option MovementEvent.t) :=
  query (fun db =>
    find (fun m => sql_eq (MovementEvent.event_id m) (Some event_id))
         (rows (movement_events db))).

Definition get_weigh_details (event_id : Z) : M (option WeighEvent.t) :=
  query (fun db =>
    find (fun w => sql_eq (WeighEvent.event_id w) (Some event_id))
         (rows (weigh_events db))).

(** ** database.py: withholding-period query *)

Module WhpRow.
Record t := mk {
animal_id : option Z;
eid : string;
visual_tag : string;
event_id : option Z;
event_date : date;
meat_whp_end : option date;
milk_whp_end : option date;
esi_end : option date;
product_name : option string }.
End WhpRow.

(** [end_date >= ?]; a NULL end date satisfies no comparison. *)
Definition on_or_after (end_date : option date) (as_of_date : date) : bool :=
  match end_date with
  | Some d => as_of_date <=? d
  | None => false
  end.

Definition WhpJoin : Type :=
  (TreatmentEvent.t * Event.t * Animal.t * option Product.t)%type.

(** [treatment_events t JOIN events e JOIN animals a LEFT JOIN products p]. *)
Definition whp_join (db : Database) : list WhpJoin :=
  flat_map (fun t =>
    flat_map (fun e =>
      flat_map (fun a =>
        match filter (fun p => sql_eq (TreatmentEvent.product_id t) (Product.id p))
                     (rows (products db)) with
        | [] => [(t, e, a, None)]
        | ps => map (fun p => (t, e, a, Some p)) ps
        end)
        (filter (fun a => sql_eq (Event.animal_id e) (Animal.id a))
                (rows (animals db))))
      (filter (fun e => sql_eq (TreatmentEvent.event_id t) (Event.id e))
              (rows (events db))))
    (rows (treatment_events db)).

Definition whp_where (as_of_date : date) (j : WhpJoin) : bool :=
  let '(t, e, a, p) := j in
  AnimalStatus_eqb (Animal.status a) ALIVE
  && (on_or_after (TreatmentEvent.meat_whp_end t) as_of_date
      || on_or_after (TreatmentEvent.milk_whp_end t) as_of_date
      || on_or_after (TreatmentEvent.esi_end t) as_of_date).

(** [ORDER BY t.meat_whp_end, a.visual_tag]. *)
Definition whp_le (x y : WhpJoin) : bool :=
  let '(t1, _, a1, _) := x in
  let '(t2, _, a2, _) := y in
  let tag_le := String.leb (Animal.visual_tag a1) (Animal.visual_tag a2) in
  match TreatmentEvent.meat_whp_end t1, TreatmentEvent.meat_whp_end t2 with
  | None, None => tag_le
  | None, Some _ => true
  | Some _, None => false
  | Some d1, Some d2 => (d1 <? d2) || ((d1 =? d2) && tag_le)
  end.

Definition whp_select (j : WhpJoin) : WhpRow.t :=
  let '(t, e, a, p) := j in
  WhpRow.mk (Animal.id a) (Animal.eid a) (Animal.visual_tag a)
            (Event.id e) (Event.event_date e)
            (TreatmentEvent.meat_whp_end t) (TreatmentEvent.milk_whp_end t)
            (TreatmentEvent.esi_end t)
            (option_map Product.name p).

Definition get_animals_on_whp (today : date) (as_of_date : option date)
  : M (list WhpRow.t) :=
  let as_of_date := match as_of_date with Some d => d | None => today end in
  query (fun db =>
    map whp_select (order_by whp_le (filter (whp_where as_of_date) (whp_join db)))).

(** ** database.py: tasks *)

Definition fk_task (t : Task.t) (db : Database) : bool :=
  refers (Task.source_event_id t) (event_ids db)
  && refers (Task.animal_id t) (animal_ids db)
  && refers (Task.mob_id t) (mob_ids db).

Definition save_task (now : datetime) (task : Task.t) : M Task.t :=
  match Task.id task with
  | None =>
      k <- sql_insert Task.id tasks set_tasks fk_task
             (fun k => Task.mk (Some k) (Task.title task) (Task.description task)
                         (Task.due_date task) (Task.source_event_id task)
                         (Task.animal_id task) (Task.mob_id task)
                         (Task.completed task) (Task.completed_at task)
                         (Some now)) ;;
      ret (Task.mk (Some k) (Task.title task) (Task.description task)
             (Task.due_date task) (Task.source_event_id task)
             (Task.animal_id task) (Task.mob_id task)
             (Task.completed task) (Task.completed_at task) (Some now))
  | Some k =>
      sql_update Task.id tasks set_tasks fk_task k
        (fun r => Task.mk (Task.id r) (Task.title task) (Task.description task)
                    (Task.due_date task) (Task.source_event_id task)
                    (Task.animal_id task) (Task.mob_id task)
                    (Task.completed task) (Task.completed_at task)
                    (Task.created_at r)) ;;;
      ret task
  end.

(** [WHERE completed = 0 AND (due_date IS NULL OR due_date <= ?)]. *)
Definition task_pending (end_date : date) (t : Task.t) : bool :=
  negb (Task.completed t)
  && match Task.due_date t with
     | None => true
     | Some d => d <=? end_date
     end.

(** [ORDER BY due_date NULLS LAST, created_at]. *)
Definition task_le (a b : Task.t) : bool :=
  match Task.due_date a, Task.due_date b with
  | None, None => nulls_first_le (Task.created_at a) (Task.created_at b)
  | None, Some _ => false
  | Some _, None => true
  | Some x, Some y =>
      (x <? y) || ((x =? y) && nulls_first_le (Task.created_at a) (Task.created_at b))
  end.

Definition get_pending_tasks (today : date) (days_ahead : Z) : M (list Task.t) :=
  end_date <- lift (date_add today days_ahead) ;;
  query (fun db => order_by task_le (filter (task_pending end_date) (rows (tasks db)))).

Definition complete_task (now : datetime) (task_id : Z) : M unit :=
  sql_update Task.id tasks set_tasks no_fk task_id
    (fun r => Task.mk (Task.id r) (Task.title r) (Task.description r)
                (Task.due_date r) (Task.source_event_id r) (Task.animal_id r)
                (Task.mob_id r) true (Some now) (Task.created_at r)).

Definition delete_task (task_id : Z) : M unit :=
  sql_delete Task.id set_tasks task_id (fun _ => true).

(** ** database.py: property settings *)

Definition get_property_settings : M (option PropertySettings.t) :=
  query (fun db => hd_error (rows (property_settings db))).

Definition save_property_settings (now : datetime) (settings : PropertySettings.t)
  : M PropertySettings.t :=
  match PropertySettings.id settings with
  | None =>
      k <- sql_insert PropertySettings.id property_settings set_property_settings no_fk
             (fun k => PropertySettings.mk (Some k)
                         (PropertySettings.property_name settings)
                         (PropertySettings.pic settings)
                         (PropertySettings.owner_name settings)
                         (PropertySettings.address settings)
                         (PropertySettings.phone settings)
                         (PropertySettings.email settings)
                         (Some now) (Some now)) ;;
      ret (PropertySettings.mk (Some k)
             (PropertySettings.property_name settings)
             (PropertySettings.pic settings)
             (PropertySettings.owner_name settings)
             (PropertySettings.address settings)
             (PropertySettings.phone settings)
             (PropertySettings.email settings)
             (Some now) (Some now))
  | Some k =>
      sql_update PropertySettings.id property_settings set_property_settings no_fk k
        (fun r => PropertySettings.mk (PropertySettings.id r)
                    (PropertySettings.property_name settings)
                    (PropertySettings.pic settings)
                    (PropertySettings.owner_name settings)
                    (PropertySettings.address settings)
                    (PropertySettings.phone settings)
                    (PropertySettings.email settings)
                    (PropertySettings.created_at r) (Some now)) ;;;
      ret (PropertySettings.mk (Some k)
             (PropertySettings.property_name settings)
             (PropertySettings.pic settings)
             (PropertySettings.owner_name settings)
             (PropertySettings.address settings)
             (PropertySettings.phone settings)
             (PropertySettings.email settings)
             (PropertySettings.created_at settings) (Some now))
  end.

(** ** Arguments that SQLite cannot hold

    [cursor.execute(sql, params)] converts its parameters before the
    statement runs.  A Python [int] becomes an SQLite INTEGER, which is a
    signed 64-bit number; for an [int] outside that range [execute] raises
    [OverflowError] (Python int too large to convert to SQLite INTEGER) and
    nothing is read or written.  [None] is bound as NULL; strings, floats,
    dates and datetimes always convert.

    An id read back from a row fits, and so does what a view passes on from
    a row or from a spin box; the definitions above are the methods on such
    arguments.  Module [Api] has the methods that execute one statement as
    any caller reaches them: the ints among the parameters of the statement
    are bound first. *)

Definition int64 (k : Z) : bool := (- 2 ^ 63 <=? k) && (k <? 2 ^ 63).

(** Binding a nullable int. *)
Definition binds (o : option Z) : bool :=
  match o with
  | Some k => int64 k
  | None => true
  end.

Definition bind_params {A : Type} (params : list (option Z)) (stmt : M A) : M A :=
  fun db => if forallb binds params then stmt db else (Raise OverflowError, db).

(** The ints in the parameter tuple of the INSERT or UPDATE of a save; the
    id is a parameter of the UPDATE only, and is [None] for an INSERT. *)
Definition paddock_ints (p : Paddock.t) : list (option Z) := [Paddock.id p].
Definition mob_ints (m : Mob.t) : list (option Z) :=
  [Mob.current_paddock_id m; Mob.id m].
Definition animal_ints (a : Animal.t) : list (option Z) :=
  [Animal.mob_id a; Animal.dam_id a; Animal.sire_id a; Animal.id a].
Definition product_ints (p : Product.t) : list (option Z) :=
  [Some (Product.meat_whp_days p); Some (Product.milk_whp_days p);
   Some (Product.esi_days p); Product.id p].
Definition event_ints (e : Event.t) : list (option Z) :=
  [Event.animal_id e; Event.mob_id e; Event.id e].
Definition task_ints (t : Task.t) : list (option Z) :=
  [Task.source_event_id t; Task.animal_id t; Task.mob_id t; Task.id t].
Definition settings_ints (s : PropertySettings.t) : list (option Z) :=
  [PropertySettings.id s].

Module Api.

Definition save_paddock (now : datetime) (paddock : Paddock.t) : M Paddock.t :=
bind_params (paddock_ints paddock) (save_paddock now paddock).

Definition get_paddock (paddock_id : Z) : M (option Paddock.t) :=
bind_params [Some paddock_id] (get_paddock paddock_id).

Definition delete_paddock (paddock_id : Z) : M unit :=
bind_params [Some paddock_id] (delete_paddock paddock_id).

Definition save_mob (now : datetime) (mob : Mob.t) : M Mob.t :=
bind_params (mob_ints mob) (save_mob now mob).

Definition get_mob (mob_id : Z) : M (option Mob.t) :=
bind_params [Some mob_id] (get_mob mob_id).

Definition delete_mob (mob_id : Z) : M unit :=
bind_params [Some mob_id] (delete_mob mob_id).

Definition get_mob_animal_count (mob_id : Z) : M Z :=
bind_params [Some mob_id] (get_mob_animal_count mob_id).

Definition save_animal (now : datetime) (animal : Animal.t) : M Animal.t :=
bind_params (animal_ints animal) (save_animal now animal).

Definition get_animal (animal_id : Z) : M (option Animal.t) :=
bind_params [Some animal_id] (get_animal animal_id).

Definition get_animals_by_mob (mob_id : Z) : M (list Animal.t) :=
bind_params [Some mob_id] (get_animals_by_mob mob_id).

Definition delete_animal (animal_id : Z) : M unit :=
bind_params [Some animal_id] (delete_animal animal_id).

Definition save_product (now : datetime) (product : Product.t) : M Product.t :=
bind_params (product_ints product) (save_product now product).

Definition get_product (product_id : Z) : M (option Product.t) :=
bind_params [Some product_id] (get_product product_id).

Definition delete_product (product_id : Z) : M unit :=
bind_params [Some product_id] (delete_product product_id).

Definition save_event (now : datetime) (event : Event.t) : M Event.t :=
bind_params (event_ints event) (save_event now event).

Definition get_events_for_animal (animal_id : Z) (event_type : option EventType)
: M (list Event.t) :=
bind_params [Some animal_id] (get_events_for_animal animal_id event_type).

Definition get_events_for_mob (mob_id : Z) (event_type : option EventType)
: M (list Event.t) :=
bind_params [Some mob_id] (get_events_for_mob mob_id event_type).

(** [limit] is the parameter of [LIMIT ?]. *)
Definition get_recent_events (lim : Z) : M (list Event.t) :=
bind_params [Some lim] (get_recent_events lim).

Definition get_treatment_details (event_id : Z) : M (option TreatmentEvent.t) :=
bind_params [Some event_id] (get_treatment_details event_id).

Definition get_movement_details (event_id : Z) : M (option MovementEvent.t) :=
bind_params [Some event_id] (get_movement_details event_id).

Definition get_weigh_details (event_id : Z) : M (option WeighEvent.t) :=
bind_params [Some event_id] (get_weigh_details event_id).

Definition save_task (now : datetime) (task : Task.t) : M Task.t :=
bind_params (task_ints task) (save_task now task).

Definition complete_task (now : datetime) (task_id : Z) : M unit :=
bind_params [Some task_id] (complete_task now task_id).

Definition delete_task (task_id : Z) : M unit :=
bind_params [Some task_id] (delete_task task_id).

Definition save_property_settings (now : datetime) (settings : PropertySettings.t)
: M PropertySettings.t :=
bind_params (settings_ints settings) (save_property_settings now settings).

End Api.

(** ** ui/dialogs/quick_actions.py: QuickTreatmentDialog

    The widgets are read once, when the dialog is accepted; their contents
    are the fields of the form.  [clock i] is what [datetime.now()] returns
    in the [i]-th round of a loop. *)

Fixpoint for_each {A : Type} (body : nat -> A -> M unit) (i : nat) (l : list A)
  : M unit :=
  match l with
  | [] => ret tt
  | x :: l' => body i x ;;; for_each body (S i) l'
  end.

Record TreatmentForm := mkTreatmentForm {
  product_combo : option Z;
  date_edit : date;
  dose_edit : string;
  route_combo : TreatmentRoute;
  batch_edit : string;
  admin_edit : string;
  notes_edit : string }.

(** [event_date + timedelta(days=days)] when [days > 0], else [None]. *)
Definition whp_end (event_date : date) (days : Z) : result (option date) :=
  if days >? 0 then
    match date_add event_date days with
    | Ok d => Ok (Some d)
    | Raise e => Raise e
    end
  else Ok None.

Definition whp_ends (product : option Product.t) (event_date : date)
  : result (option date * option date * option date) :=
  match product with
  | Some product =>
      match whp_end event_date (Product.meat_whp_days product) with
      | Raise e => Raise e
      | Ok meat_whp_end =>
          match whp_end event_date (Product.milk_whp_days product) with
          | Raise e => Raise e
          | Ok milk_whp_end =>
              match whp_end event_date (Product.esi_days product) with
              | Raise e => Raise e
              | Ok esi_end => Ok (meat_whp_end, milk_whp_end, esi_end)
              end
          end
      end
  | None => Ok (None, None, None)
  end.

(** The value says whether the dialog was accepted. *)
Definition QuickTreatmentDialog_on_accept (clock : nat -> datetime)
    (animal_ids : list Z) (form : TreatmentForm) : M bool :=
  match product_combo form with
  | None => ret false
  | Some product_id =>
      if product_id =? 0 then ret false else
      product <- get_product product_id ;;
      let event_date := date_edit form in
      ends <- lift (whp_ends product event_date) ;;
      let '(meat_whp_end, milk_whp_end, esi_end) := ends in
      for_each (fun i animal_id =>
                  save_treatment_event (clock i)
                    (Event.mk None NOTE event_date (Some animal_id) None
                              (notes_edit form) (admin_edit form) None)
                    (TreatmentEvent.mk None None (Some product_id)
                       (batch_edit form) (dose_edit form) (route_combo form)
                       (admin_edit form) meat_whp_end milk_whp_end esi_end) ;;;
                  ret tt)
               0%nat animal_ids ;;;
      ret true
  end.

(** ** ui/views/mobs.py: MobsView._on_delete_mob *)

Definition set_mob_id (m : option Z) (a : Animal.t) : Animal.t :=
  Animal.mk (Animal.id a) (Animal.eid a) (Animal.visual_tag a) (Animal.species a)
            (Animal.breed a) (Animal.sex a) (Animal.date_of_birth a)
            (Animal.status a) m (Animal.dam_id a) (Animal.sire_id a)
            (Animal.notes a) (Animal.created_at a) (Animal.updated_at a).

(** "Unassign animals from mob": the loop of the confirmed branch. *)
Definition unassign_animals (clock : nat -> datetime) (mob_id : Z) : M unit :=
  l <- get_animals_by_mob mob_id ;;
  for_each (fun i animal => save_animal (clock i) (set_mob_id None animal) ;;; ret tt)
           0%nat l.

(** [selected] is the result of [_get_selected_mob_id()], [reply] whether
    the confirmation was answered with Yes. *)
Definition MobsView_on_delete_mob (clock : nat -> datetime)
    (selected : option Z) (reply : bool) : M unit :=
  match selected with
  | None => ret tt
  | Some mob_id =>
      if mob_id =? 0 then ret tt else
      mob <- get_mob mob_id ;;
      match mob with
      | None => raise AttributeError
      | Some _ =>
          count <- get_mob_animal_count mob_id ;;
          if reply then
            unassign_animals clock mob_id ;;;
            delete_mob mob_id
          else ret tt
      end
  end.

(** ** ui/views/weights.py: WeightsView *)

(** [animal_weights: dict[int, list[tuple[date, float]]]]. *)
Definition Weights : Type := list (Z * list (date * Q)).

Fixpoint dict_get (animal_id : Z) (d : Weights) : list (date * Q) :=
  match d with
  | [] => []
  | (k, v) :: d' => if k =? animal_id then v else dict_get animal_id d'
  end.

Fixpoint dict_mem (animal_id : Z) (d : Weights) : bool :=
  match d with
  | [] => false
  | (k, _) :: d' => (k =? animal_id) || dict_mem animal_id d'
  end.

(** [animal_weights[animal_id].append(x)] on a key that is present. *)
Fixpoint dict_append (animal_id : Z) (x : date * Q) (d : Weights) : Weights :=
  match d with
  | [] => []
  | (k, v) :: d' =>
      if k =? animal_id then (k, v ++ [x]) :: d'
      else (k, v) :: dict_append animal_id x d'
  end.

(** [if animal.id not in animal_weights: animal_weights[animal.id] = []]
    followed by the append. *)
Definition track (animal_id : Z) (x : date * Q) (d : Weights) : Weights :=
  let d := if dict_mem animal_id d then d else d ++ [(animal_id, [])] in
  dict_append animal_id x d.

(** The body of the [if d == current_date] branch for a previous entry. *)
Definition adg_between (prev_date : date) (prev_weight : Q)
    (current_date : date) (current_weight : Q) : result (option Q) :=
  let days := current_date - prev_date in
  if days >? 0 then
    match truediv (current_weight - prev_weight)%Q days with
    | Ok v => Ok (Some v)
    | Raise e => Raise e
    end
  else Ok None.

(** The [for i, (d, w) in enumerate(sorted_weights)] loop; [prev] is
    [sorted_weights[i - 1]], absent when [i = 0]. *)
Fixpoint adg_scan (current_date : date) (current_weight : Q)
    (prev : option (date * Q)) (l : list (date * Q)) : result (option Q) :=
  match l with
  | [] => Ok None
  | (d, w) :: l' =>
      if d =? current_date then
        match prev with
        | Some (prev_date, prev_weight) =>
            adg_between prev_date prev_weight current_date current_weight
        | None => Ok None
        end
      else adg_scan current_date current_weight (Some (d, w)) l'
  end.

Definition calculate_adg (animal_id : Z) (current_date : date) (current_weight : Q)
    (animal_weights : Weights) : result (option Q) :=
  let weights := dict_get animal_id animal_weights in
  if (List.length weights <? 2)%nat then Ok None else
  let sorted_weights := order_by (fun x y => fst x <=? fst y) weights in
  adg_scan current_date current_weight None sorted_weights.

(** One line of the weights table, before its cells are formatted. *)
Record WeightRow := mkWeightRow {
  row_date : date;
  row_animal : Animal.t;
  row_weight : Q;
  row_condition : option Q;
  row_adg : option Q;
  row_notes : string }.

(** The [for event in weigh_events] loop.  A row read from the store always
    carries its id, so the animal's id is a key of the dictionary. *)
Fixpoint load_rows (mob_id : option Z) (weigh_events : list Event.t)
    (animal_weights : Weights) : M (list WeightRow) :=
  match weigh_events with
  | [] => ret []
  | event :: rest =>
      let skip := load_rows mob_id rest animal_weights in
      match Event.animal_id event with
      | None => skip
      | Some event_animal_id =>
          if event_animal_id =? 0 then skip else
          animal <- get_animal event_animal_id ;;
          match animal with
          | None => skip
          | Some animal =>
              if match mob_id with
                 | Some m => negb (m =? 0) && negb (sql_eq (Animal.mob_id animal) (Some m))
                 | None => false
                 end
              then skip else
              weigh <- match Event.id event with
                       | Some event_id => get_weigh_details event_id
                       | None => ret None
                       end ;;
              match weigh, Animal.id animal with
              | Some weigh, Some animal_id =>
                  let animal_weights :=
                    track animal_id (Event.event_date event, WeighEvent.weight_kg weigh)
                          animal_weights in
                  adg <- lift (calculate_adg animal_id (Event.event_date event)
                                 (WeighEvent.weight_kg weigh) animal_weights) ;;
                  others <- load_rows mob_id rest animal_weights ;;
                  ret (mkWeightRow (Event.event_date event) animal
                         (WeighEvent.weight_kg weigh)
                         (WeighEvent.condition_score weigh) adg
                         (substring 0 30 (Event.notes event)) :: others)
              | _, _ => skip
              end
          end
      end
  end.

Definition WeightsView_load_weights (mob_filter : option Z) (from_date to_date : date)
  : M (list WeightRow) :=
  events <- get_recent_events 500 ;;
  let weigh_events :=
    filter (fun e => EventType_eqb (Event.event_type e) WEIGH
                     && (from_date <=? Event.event_date e)
                     && (Event.event_date e <=? to_date))
           events in
  load_rows mob_filter weigh_events [].

(** ** The store as a transition system

    The mutating methods of [Database].  [run] performs one call and keeps
    the store it leaves, whether the call returned or raised. *)

Inductive Op :=
| SavePaddock (now : datetime) (paddock : Paddock.t)
| DeletePaddock (paddock_id : Z)
| SaveMob (now : datetime) (mob : Mob.t)
| DeleteMob (mob_id : Z)
| SaveAnimal (now : datetime) (animal : Animal.t)
| DeleteAnimal (animal_id : Z)
| SaveProduct (now : datetime) (product : Product.t)
| DeleteProduct (product_id : Z)
| SaveEvent (now : datetime) (event : Event.t)
| SaveMovementEvent (now : datetime) (event : Event.t) (movement : MovementEvent.t)
| SaveTreatmentEvent (now : datetime) (event : Event.t) (treatment : TreatmentEvent.t)
| SaveWeighEvent (now : datetime) (event : Event.t) (weigh : WeighEvent.t)
| SaveTask (now : datetime) (task : Task.t)
| CompleteTask (now : datetime) (task_id : Z)
| DeleteTask (task_id : Z)
| SavePropertySettings (now : datetime) (settings : PropertySettings.t).

Definition exec {A : Type} (m : M A) (db : Database) : Database := snd (m db).

Definition run (o : Op) (db : Database) : Database :=
  match o with
  | SavePaddock now paddock => exec (save_paddock now paddock) db
  | DeletePaddock k => exec (delete_paddock k) db
  | SaveMob now mob => exec (save_mob now mob) db
  | DeleteMob k => exec (delete_mob k) db
  | SaveAnimal now animal => exec (save_animal now animal) db
  | DeleteAnimal k => exec (delete_animal k) db
  | SaveProduct now product => exec (save_product now product) db
  | DeleteProduct k => exec (delete_product k) db
  | SaveEvent now event => exec (save_event now event) db
  | SaveMovementEvent now event movement =>
      exec (save_movement_event now event movement) db
  | SaveTreatmentEvent now event treatment =>
      exec (save_treatment_event now event treatment) db
  | SaveWeighEvent now event weigh => exec (save_weigh_event now event weigh) db
  | SaveTask now task => exec (save_task now task) db
  | CompleteTask now k => exec (complete_task now k) db
  | DeleteTask k => exec (delete_task k) db
  | SavePropertySettings now settings => exec (save_property_settings now settings) db
  end.


(** ** Specification vocabulary

    Predicates in which the properties below are stated. *)

(** [m] never changes the part of the store that [f] reads, whether it
    returns or raises. *)
Definition preserves {A X : Type} (f : Database -> X) (m : M A) : Prop :=
  forall db, f (snd (m db)) = f db.

(** A nullable reference that the store can satisfy. *)
Definition ref_ok (o : option Z) (parents : list Z) : Prop :=
  match o with
  | None => True
  | Some k => In k parents
  end.

Section SaveContract.
Variable A : Type.
Variable getid : A -> option Z.
Variable created_at : A -> option datetime.
(** What a save at time [now] makes of the entity passed: [saved k c now e]
has the id [k], the creation timestamp [c], [updated_at = now] where the
entity has that field, and every other field as in [e]. *)
Variable saved : Z -> option datetime -> datetime -> A -> A.
Variable tbl : Database -> Table A.
(** The references of the entity exist in the store. *)
Variable refs_ok : A -> Database -> Prop.
(** The ints among the parameters of the statement. *)
Variable ints : A -> list (option Z).

(** A save of an entity that has no identity yet: either the statement
is refused and the store is as before, or the entity comes back with
a rowid that no row had, with [created_at = now] and with the fields
that were passed, and it is the one row added to the table. *)
Definition inserted (now : datetime) (e : A) (db : Database)
(out : result A * Database) : Prop :=
(refs_ok e db -> exists x, fst out = Ok x)
/\ match fst out with
| Ok x =>
exists k, getid x = Some k
/\ ~ In k (ids getid (rows (tbl db)))
/\ created_at x = Some now
/\ x = saved k (Some now) now e
/\ rows (tbl (snd out)) = rows (tbl db) ++ [x]
/\ List.length (rows (tbl (snd out)))
= S (List.length (rows (tbl db)))
| Raise err => err = IntegrityError /\ snd out = db
end.

(** A save of an entity with identity [k]: either the statement is
refused and the store is as before, or the entity comes back as it was
passed (with [updated_at = now]), every row with rowid [k] now holds
the fields that were passed and keeps its own creation timestamp, at
the place where it was, and every other row is untouched; in both
cases the table has as many rows, with the same rowids, as before. *)
Definition updated_in_place (k : Z) (now : datetime) (e : A) (db : Database)
(out : result A * Database) : Prop :=
(refs_ok e db -> exists x, fst out = Ok x)
/\ List.length (rows (tbl (snd out))) = List.length (rows (tbl db))
/\ ids getid (rows (tbl (snd out))) = ids getid (rows (tbl db))
/\ match fst out with
| Ok x =>
getid x = Some k
/\ x = saved k (created_at e) now e
/\ rows (tbl (snd out))
= map (fun r => if has_id getid k r
      then saved k (created_at r) now e else r)
(rows (tbl db))
| Raise err => err = IntegrityError /\ snd out = db
end.

(** The statement of a save, on parameters that SQLite holds. *)
Definition save_statement (save : datetime -> A -> M A) : Prop :=
forall now e db,
(getid e = None -> inserted now e db (save now e db))
/\ (forall k, getid e = Some k -> updated_in_place k now e db (save now e db)).

(** The save as a caller reaches it: an int that SQLite cannot hold,
among the fields that the statement binds, ends the call in
[OverflowError] with the store as it was; otherwise the call inserts
or updates. *)
Definition save_contract (save : datetime -> A -> M A) : Prop :=
forall now e db,
if forallb binds (ints e)
then (getid e = None -> inserted now e db (save now e db))
 /\ (forall k, getid e = Some k ->
               updated_in_place k now e db (save now e db))
else save now e db = (Raise OverflowError, db).
End SaveContract.

Definition paddock_saved (k : Z) (c : option datetime) (now : datetime)
    (p : Paddock.t) : Paddock.t :=
  Paddock.mk (Some k) (Paddock.name p) (Paddock.area_hectares p)
             (Paddock.notes p) (Paddock.pic p) c (Some now).

Definition mob_saved (k : Z) (c : option datetime) (now : datetime)
    (m : Mob.t) : Mob.t :=
  Mob.mk (Some k) (Mob.name m) (Mob.species m) (Mob.description m)
         (Mob.current_paddock_id m) c (Some now).

Definition animal_saved (k : Z) (c : option datetime) (now : datetime)
    (a : Animal.t) : Animal.t :=
  Animal.mk (Some k) (Animal.eid a) (Animal.visual_tag a) (Animal.species a)
            (Animal.breed a) (Animal.sex a) (Animal.date_of_birth a)
            (Animal.status a) (Animal.mob_id a) (Animal.dam_id a)
            (Animal.sire_id a) (Animal.notes a) c (Some now).

Definition product_saved (k : Z) (c : option datetime) (now : datetime)
    (p : Product.t) : Product.t :=
  Product.mk (Some k) (Product.name p) (Product.active_ingredient p)
             (Product.category p) (Product.meat_whp_days p)
             (Product.milk_whp_days p) (Product.esi_days p)
             (Product.default_dose p) (Product.default_route p)
             (Product.notes p) c (Some now).

(** Events and tasks have no [updated_at]. *)
Definition event_saved (k : Z) (c : option datetime) (now : datetime)
    (e : Event.t) : Event.t :=
  Event.mk (Some k) (Event.event_type e) (Event.event_date e)
           (Event.animal_id e) (Event.mob_id e) (Event.notes e)
           (Event.recorded_by e) c.

Definition task_saved (k : Z) (c : option datetime) (now : datetime)
    (t : Task.t) : Task.t :=
  Task.mk (Some k) (Task.title t) (Task.description t) (Task.due_date t)
          (Task.source_event_id t) (Task.animal_id t) (Task.mob_id t)
          (Task.completed t) (Task.completed_at t) c.

Definition settings_saved (k : Z) (c : option datetime) (now : datetime)
    (s : PropertySettings.t) : PropertySettings.t :=
  PropertySettings.mk (Some k) (PropertySettings.property_name s)
                      (PropertySettings.pic s) (PropertySettings.owner_name s)
                      (PropertySettings.address s) (PropertySettings.phone s)
                      (PropertySettings.email s) c (Some now).

Definition no_refs {A : Type} (_ : A) (_ : Database) : Prop := True.

Definition mob_refs_ok (m : Mob.t) (db : Database) : Prop :=
  ref_ok (Mob.current_paddock_id m) (paddock_ids db).

Definition animal_refs_ok (a : Animal.t) (db : Database) : Prop :=
  ref_ok (Animal.mob_id a) (mob_ids db)
  /\ ref_ok (Animal.dam_id a) (animal_ids db)
  /\ ref_ok (Animal.sire_id a) (animal_ids db).

Definition event_refs_ok (e : Event.t) (db : Database) : Prop :=
  ref_ok (Event.animal_id e) (animal_ids db)
  /\ ref_ok (Event.mob_id e) (mob_ids db).

Definition task_refs_ok (t : Task.t) (db : Database) : Prop :=
  ref_ok (Task.source_event_id t) (event_ids db)
  /\ ref_ok (Task.animal_id t) (animal_ids db)
  /\ ref_ok (Task.mob_id t) (mob_ids db).

(** ** Example stores

    A property with one product and one animal, built by the operations
    themselves.  2024-01-10 is day 738895. *)

Definition drench : Product.t :=
  Product.mk None "Cydectin" "moxidectin" "Drench" 28 0 42 "1ml/10kg"
             POUR_ON EmptyString None None.

Definition heifer : Animal.t :=
  Animal.mk None "982000411" "A1" CATTLE "Angus" FEMALE None ALIVE
            None None None EmptyString None None.

Definition farm : Database :=
  exec (save_animal 2 heifer) (exec (save_product 1 drench) empty_db).

Definition drench_form : TreatmentForm :=
  mkTreatmentForm (Some 1) 738895 "10ml" POUR_ON "B42" "Sam" EmptyString.

(** The store after the treatment dialog was accepted for animal 1. *)
Definition farm_treated : Database :=
  exec (QuickTreatmentDialog_on_accept (fun _ => 3) [1] drench_form) farm.

(** The treatment row that the dialog stored. *)
Definition drench_row : TreatmentEvent.t :=
  TreatmentEvent.mk (Some 1) (Some 1) (Some 1) "B42" "10ml" POUR_ON "Sam"
                    (Some 738923) None (Some 738937).

(** The animal of [farm], edited: marked as sold. *)
Definition heifer_sold : Animal.t :=
  Animal.mk (Some 1) "982000411" "A1" CATTLE "Angus" FEMALE None SOLD
            None None None EmptyString None None.

(** "A due date within the window of [days_ahead] days from today". *)
Definition within_window (today days_ahead : Z) (d : date) : Prop :=
  today <= d <= today + days_ahead.

(** An incomplete task with no due date or a due date within the window. *)
Definition due_within_window (today days_ahead : Z) (t : Task.t) : Prop :=
  Task.completed t = false
  /\ match Task.due_date t with
     | None => True
     | Some d => within_window today days_ahead d
     end.

(** An incomplete task with no due date or a due date up to [end_date]. *)
Definition due_by (end_date : date) (t : Task.t) : Prop :=
  Task.completed t = false
  /\ match Task.due_date t with
     | None => True
     | Some d => d <= end_date
     end.

(** Ordered by due date, tasks without one last. *)
Definition due_le (a b : Task.t) : Prop :=
  nulls_last_le (Task.due_date a) (Task.due_date b) = true.

(** A task that was due the day before 2024-01-10. *)
Definition overdue_task : Task.t :=
  Task.mk None "Booster" EmptyString (Some 738894) None (Some 1) None
          false None None.

Definition farm_with_task : Database := exec (save_task 4 overdue_task) farm.

(** The animal of [farm] weighed twice: 100 kg on 2024-01-10 and 110 kg ten
    days later. *)
Definition farm_weighed : Database :=
  exec (save_weigh_event 6
          (Event.mk None NOTE 738905 (Some 1) None EmptyString EmptyString None)
          (WeighEvent.mk None None 110 None))
    (exec (save_weigh_event 5
             (Event.mk None NOTE 738895 (Some 1) None EmptyString EmptyString None)
             (WeighEvent.mk None None 100 None))
       farm).

(** The same animal weighed once. *)
Definition farm_weighed_once : Database :=
  exec (save_weigh_event 5
          (Event.mk None NOTE 738895 (Some 1) None EmptyString EmptyString None)
          (WeighEvent.mk None None 100 None))
    farm.

(** [q] is a prefix of [s], up to the case of ASCII letters. *)
Fixpoint prefix_nocase (q s : string) : bool :=
  match q, s with
  | EmptyString, _ => true
  | String c q', String x s' =>
      Ascii.eqb (lower c) (lower x) && prefix_nocase q' s'
  | String _ _, EmptyString => false
  end.

(** "[s] contains [q] as a case-insensitive substring". *)
Fixpoint contains_nocase (q s : string) : bool :=
  prefix_nocase q s
  || match s with
     | EmptyString => false
     | String _ s' => contains_nocase q s'
     end.

(** [q] holds neither of the two LIKE wildcards. *)
Fixpoint wildcard_free (q : string) : bool :=
  match q with
  | EmptyString => true
  | String c q' =>
      negb (Ascii.eqb c "%") && negb (Ascii.eqb c "_") && wildcard_free q'
  end.

(** Animal [a] is among the rows of the withholding-period query as of
    [as_of_date]. *)
Definition on_whp (as_of_date : date) (a : Z) (db : Database) : Prop :=
  exists l row,
    get_animals_on_whp as_of_date (Some as_of_date) db = (Ok l, db)
    /\ In row l /\ WhpRow.animal_id row = Some a.

(** The store holds animal [a] with status alive. *)
Definition alive (a : Z) (db : Database) : Prop :=
  exists an,
    In an (rows (animals db)) /\ Animal.id an = Some a /\ Animal.status an = ALIVE.

(** Every treatment of animal [a] whose stored end dates are not [ends] is
    no longer in force on [as_of_date]. *)
Definition no_other_treatment_in_force
    (ends : option date * option date * option date)
    (as_of_date : date) (a : Z) (db : Database) : Prop :=
  forall t e an p,
    In (t, e, an, p) (whp_join db) ->
    Animal.id an = Some a ->
    (TreatmentEvent.meat_whp_end t, TreatmentEvent.milk_whp_end t,
     TreatmentEvent.esi_end t) = ends
    \/ whp_where as_of_date (t, e, an, p) = false.

(** The end date that the treatment dialog stores for a period of [days]
    days from [event_date], when that date exists. *)
Definition end_after (event_date : date) (days : Z) : option date :=
  if days >? 0 then Some (event_date + days) else None.

Definition stored_ends (product : Product.t) (event_date : date)
  : option date * option date * option date :=
  (end_after event_date (Product.meat_whp_days product),
   end_after event_date (Product.milk_whp_days product),
   end_after event_date (Product.esi_days product)).

(** A product whose meat period is its longest, and the property on which
    animal 1 was treated with it on 2024-01-10. *)
Definition vaccine : Product.t :=
  Product.mk None "Ultravac" "clostridial" "Vaccine" 28 7 28 "2ml"
             INJECTION_SC EmptyString None None.

Definition vaccine_form : TreatmentForm :=
  mkTreatmentForm (Some 1) 738895 "2ml" INJECTION_SC "V7" "Sam" EmptyString.

Definition station : Database :=
  exec (save_animal 2 heifer) (exec (save_product 1 vaccine) empty_db).

Definition station_treated : Database :=
  exec (QuickTreatmentDialog_on_accept (fun _ => 3) [1] vaccine_form) station.

(** The store holds a treatment of animal [a] on day [t] with the end dates
    [ends]: a treatment row attached to an event of that animal. *)
Definition treated (a : Z) (t : date) (ends : option date * option date * option date)
    (db : Database) : Prop :=
  exists tr e,
    In tr (rows (treatment_events db))
    /\ In e (rows (events db))
    /\ sql_eq (TreatmentEvent.event_id tr) (Event.id e) = true
    /\ Event.animal_id e = Some a
    /\ Event.event_date e = t
    /\ (TreatmentEvent.meat_whp_end tr, TreatmentEvent.milk_whp_end tr,
        TreatmentEvent.esi_end tr) = ends.

(** The product row of [station]. *)
Definition vaccine_row : Product.t :=
  Product.mk (Some 1) "Ultravac" "clostridial" "Vaccine" 28 7 28 "2ml"
             INJECTION_SC EmptyString (Some 1) (Some 1).

(** PRIMARY KEY: every row has a rowid and no two rows share one. *)
Definition keyed {A : Type} (getid : A -> option Z) (l : list A) : Prop :=
  NoDup (map getid l) /\ ~ In None (map getid l).

(** The animal with its mob reference cleared and [updated_at = u]; every
    other field as it was. *)
Definition unassigned (u : datetime) (a : Animal.t) : Animal.t :=
  Animal.mk (Animal.id a) (Animal.eid a) (Animal.visual_tag a) (Animal.species a)
            (Animal.breed a) (Animal.sex a) (Animal.date_of_birth a)
            (Animal.status a) None (Animal.dam_id a) (Animal.sire_id a)
            (Animal.notes a) (Animal.created_at a) (Some u).

(** Some animal of [l] has the rowid of [a]. *)
Definition among (l : list Animal.t) (a : Animal.t) : bool :=
  existsb (fun x => sql_eq (Animal.id x) (Animal.id a)) l.

(** A mob with one animal. *)
Definition weaners : Mob.t :=
  Mob.mk None "Weaners" CATTLE EmptyString None None None.

Definition weaner : Animal.t :=
  Animal.mk None "982000777" "W3" CATTLE "Hereford" STEER None ALIVE
            (Some 1) None None EmptyString None None.

Definition yard : Database :=
  exec (save_animal 3 weaner) (exec (save_animal 2 heifer)
    (exec (save_mob 1 weaners) empty_db)).

(** The rows of [weaner] and [heifer] in [yard]. *)
Definition weaner_row : Animal.t :=
  Animal.mk (Some 2) "982000777" "W3" CATTLE "Hereford" STEER None ALIVE
            (Some 1) None None EmptyString (Some 3) (Some 3).

Definition heifer_row : Animal.t :=
  Animal.mk (Some 1) "982000411" "A1" CATTLE "Angus" FEMALE None ALIVE
            None None None EmptyString (Some 2) (Some 2).

(** ** Typed events: the history of the store

    A world is the store together with a record of the typed save
    operations that returned: for each, the id of its event, the subtype,
    and whether the detail record was new ([id = None]) when it was
    passed. *)

Record Recorded := mkRecorded {
  recorded_event : Z;
  recorded_type : EventType;
  recorded_new_detail : bool }.

Record World := mkWorld { store : Database; recorded : list Recorded }.

Definition initial : World := mkWorld empty_db [].

Definition is_none {A : Type} (o : option A) : bool :=
  match o with None => true | Some _ => false end.

Definition record_typed {A : Type} (ty : EventType) (new_detail : bool)
    (r : result (Event.t * A)) (log : list Recorded) : list Recorded :=
  match r with
  | Ok (event, _) =>
      match Event.id event with
      | Some k => mkRecorded k ty new_detail :: log
      | None => log
      end
  | Raise _ => log
  end.

Definition step (o : Op) (w : World) : World :=
  match o with
  | SaveMovementEvent now event movement =>
      mkWorld (run o (store w))
              (record_typed MOVEMENT (is_none (MovementEvent.id movement))
                 (fst (save_movement_event now event movement (store w)))
                 (recorded w))
  | SaveTreatmentEvent now event treatment =>
      mkWorld (run o (store w))
              (record_typed TREATMENT (is_none (TreatmentEvent.id treatment))
                 (fst (save_treatment_event now event treatment (store w)))
                 (recorded w))
  | SaveWeighEvent now event weigh =>
      mkWorld (run o (store w))
              (record_typed WEIGH (is_none (WeighEvent.id weigh))
                 (fst (save_weigh_event now event weigh (store w)))
                 (recorded w))
  | _ => mkWorld (run o (store w)) (recorded w)
  end.

Inductive reachable : World -> Prop :=
| reachable_initial : reachable initial
| reachable_step (o : Op) (w : World) : reachable w -> reachable (step o w).

(** The event ids that the detail rows of a subtype are attached to. *)
Definition detail_keys (ty : EventType) (db : Database) : list (option Z) :=
  match ty with
  | MOVEMENT => map MovementEvent.event_id (rows (movement_events db))
  | TREATMENT => map TreatmentEvent.event_id (rows (treatment_events db))
  | WEIGH => map WeighEvent.event_id (rows (weigh_events db))
  | _ => []
  end.

(** Event [k] has a detail row of subtype [ty]. *)
Definition has_detail (ty : EventType) (k : Z) (db : Database) : Prop :=
  In (Some k) (detail_keys ty db).

(** Event [k] was recorded through the typed save operation of [ty]. *)
Definition was_recorded (ty : EventType) (k : Z) (w : World) : Prop :=
  exists new_detail, In (mkRecorded k ty new_detail) (recorded w).

Definition typed (ty : EventType) : Prop :=
  ty = MOVEMENT \/ ty = TREATMENT \/ ty = WEIGH.

(** "An Event row of type movement, treatment or weigh has its
    corresponding subtype detail row iff it was recorded through the typed
    save operation". *)
Definition detail_iff_recorded (w : World) : Prop :=
  forall e k,
    In e (rows (events (store w))) ->
    Event.id e = Some k ->
    typed (Event.event_type e) ->
    (has_detail (Event.event_type e) k (store w)
     <-> was_recorded (Event.event_type e) k w).

(** Two treatments entered on [farm]; the second call passes the detail
    record that the first call returned, together with a new event. *)
Definition first_visit : Event.t :=
  Event.mk None NOTE 738895 (Some 1) None EmptyString "Sam" None.

Definition second_visit : Event.t :=
  Event.mk None NOTE 738905 (Some 1) None EmptyString "Sam" None.

Definition new_detail : TreatmentEvent.t :=
  TreatmentEvent.mk None None (Some 1) "B42" "10ml" POUR_ON "Sam"
                    (Some 738923) None (Some 738937).

Definition saved_detail : TreatmentEvent.t :=
  TreatmentEvent.mk (Some 1) (Some 1) (Some 1) "B43" "10ml" POUR_ON "Sam"
                    (Some 738933) None (Some 738947).

Definition two_visits : World :=
  step (SaveTreatmentEvent 4 second_visit saved_detail)
    (step (SaveTreatmentEvent 3 first_visit new_detail)
       (step (SaveAnimal 2 heifer)
          (step (SaveProduct 1 drench) initial))).

(** What a step does to the detail rows of one subtype and to the
    history: nothing to the rows, and at most a new entry that is not
    about a new detail of this subtype; or one more row, attached to the
    event that the new entry names. *)
Definition step_effect (ty : EventType) (w w' : World) : Prop :=
  (detail_keys ty (store w') = detail_keys ty (store w)
   /\ (recorded w' = recorded w
       \/ exists k ty' f,
            recorded w' = mkRecorded k ty' f :: recorded w
            /\ (f = true -> ty' <> ty)))
  \/ (exists k,
        detail_keys ty (store w') = detail_keys ty (store w) ++ [Some k]
        /\ recorded w' = mkRecorded k ty true :: recorded w).

(** The event that a typed save returns has type [ty], and so has every
    event row of the store with its id. *)
Definition forces_type (ty : EventType) (ev : Event.t) (db : Database) : Prop :=
  Event.event_type ev = ty
  /\ forall row,
       In row (rows (events db)) -> Event.id row = Event.id ev ->
       Event.event_type row = ty.

(** The row of the second visit in [two_visits]. *)
Definition second_visit_row : Event.t :=
  Event.mk (Some 2) TREATMENT 738905 (Some 1) None EmptyString "Sam" (Some 4).

(** * More of the program *)

(** ** database.py: statistics *)

Definition Species_eqb (a b : Species) : bool :=
  match a, b with
  | CATTLE, CATTLE | SHEEP, SHEEP => true
  | _, _ => false
  end.

(** [SELECT key, COUNT( * ) ... GROUP BY key] read into a dict: one entry
    for every value of the column that occurs, in the order of the
    values' text. *)
Definition group_counts {K A : Type} (keys : list K) (eqb : K -> K -> bool)
    (col : A -> K) (l : list A) : list (K * Z) :=
  flat_map (fun k =>
              let n := Z.of_nat (List.length (filter (fun r => eqb (col r) k) l)) in
              if n =? 0 then [] else [(k, n)])
           keys.

(** [counts.get(key, 0)]. *)
Fixpoint counts_get {K : Type} (eqb : K -> K -> bool) (k : K) (d : list (K * Z)) : Z :=
  match d with
  | [] => 0
  | (j, n) :: d' => if eqb j k then n else counts_get eqb k d'
  end.

(** [sum(counts.values())]. *)
Definition counts_sum {K : Type} (d : list (K * Z)) : Z :=
  fold_right (fun e s => snd e + s) 0 d.

Definition get_animal_counts : M (list (AnimalStatus * Z)) :=
  query (fun db =>
    group_counts [ALIVE; DEAD; MISSING; SOLD] AnimalStatus_eqb Animal.status
                 (rows (animals db))).

Definition get_species_counts : M (list (Species * Z)) :=
  query (fun db =>
    group_counts [CATTLE; SHEEP] Species_eqb Animal.species
      (filter (fun a => AnimalStatus_eqb (Animal.status a) ALIVE)
              (rows (animals db)))).

(** ** ui/views/dashboard.py: DashboardView._refresh_stats *)

Record Stats := mkStats {
  stats_total : Z;
  stats_alive : Z;
  stats_cattle : Z;
  stats_sheep : Z;
  stats_on_whp : Z;
  stats_tasks_due : Z }.

Definition DashboardView_refresh_stats (today : date) : M Stats :=
  status_counts <- get_animal_counts ;;
  let total := counts_sum status_counts in
  let alive := counts_get AnimalStatus_eqb ALIVE status_counts in
  species_counts <- get_species_counts ;;
  let cattle := counts_get Species_eqb CATTLE species_counts in
  let sheep := counts_get Species_eqb SHEEP species_counts in
  whp_animals <- get_animals_on_whp today None ;;
  let whp_count := Z.of_nat (List.length whp_animals) in
  tasks <- get_pending_tasks today 7 ;;
  let tasks_count := Z.of_nat (List.length tasks) in
  ret (mkStats total alive cattle sheep whp_count tasks_count).

(** ** services/pdf_reports.py: the animals of the sale draft *)

(** Python's [==] on optional ids: [None] equals [None]. *)
Definition py_eq (a b : option Z) : bool :=
  match a, b with
  | None, None => true
  | Some x, Some y => x =? y
  | _, _ => false
  end.

(** [sale_ready] of [generate_sale_draft]. *)
Definition sale_ready (today : date) : M (list Animal.t) :=
  whp <- get_animals_on_whp today None ;;
  let whp_animal_ids := map WhpRow.animal_id whp in
  all_animals <- get_all_animals (Some ALIVE) ;;
  ret (filter (fun a => negb (existsb (py_eq (Animal.id a)) whp_animal_ids))
              all_animals).

(** ** ui/dialogs/quick_actions.py: the other quick dialogs *)

Definition QuickMoveDialog_on_accept (clock : nat -> datetime)
    (animal_ids : list Z) (mob_combo : option Z) : M unit :=
  for_each (fun i animal_id =>
              animal <- get_animal animal_id ;;
              match animal with
              | Some animal => save_animal (clock i) (set_mob_id mob_combo animal) ;;; ret tt
              | None => ret tt
              end)
           0%nat animal_ids.

Definition set_status (s : AnimalStatus) (a : Animal.t) : Animal.t :=
  Animal.mk (Animal.id a) (Animal.eid a) (Animal.visual_tag a) (Animal.species a)
            (Animal.breed a) (Animal.sex a) (Animal.date_of_birth a)
            s (Animal.mob_id a) (Animal.dam_id a) (Animal.sire_id a)
            (Animal.notes a) (Animal.created_at a) (Animal.updated_at a).

Definition QuickStatusDialog_on_accept (clock : nat -> datetime)
    (animal_ids : list Z) (status_combo : AnimalStatus) : M unit :=
  for_each (fun i animal_id =>
              animal <- get_animal animal_id ;;
              match animal with
              | Some animal =>
                  save_animal (clock i) (set_status status_combo animal) ;;; ret tt
              | None => ret tt
              end)
           0%nat animal_ids.

Record WeighForm := mkWeighForm {
  weigh_date_edit : date;
  weight_spin : Q;
  condition_spin : Q }.

(** The value says whether the dialog was accepted. *)
Definition QuickWeighDialog_on_accept (clock : nat -> datetime)
    (animal_ids : list Z) (form : WeighForm) : M bool :=
  let weight := weight_spin form in
  if Qle_bool weight 0 then ret false else
  let event_date := weigh_date_edit form in
  let condition :=
    if Qle_bool (condition_spin form) 0 then None else Some (condition_spin form) in
  for_each (fun i animal_id =>
              save_weigh_event (clock i)
                (Event.mk None NOTE event_date (Some animal_id) None
                          EmptyString EmptyString None)
                (WeighEvent.mk None None weight condition) ;;;
              ret tt)
           0%nat animal_ids ;;;
  ret true.

(** ** ui/views/animals.py: AnimalsView._on_delete_animal *)

Definition AnimalsView_on_delete_animal (ids : list Z) (reply : bool) : M unit :=
  match ids with
  | [] => ret tt
  | _ :: _ =>
      if reply then for_each (fun _ animal_id => delete_animal animal_id) 0%nat ids
      else ret tt
  end.

(** ** ui/views/settings.py: SettingsView._save_property_settings *)

(** [try: m ... except Exception: ...]: the value says whether [m]
    returned. *)
Definition try_except {A : Type} (m : M A) : M bool :=
  fun db =>
    match m db with
    | (Ok _, db') => (Ok true, db')
    | (Raise _, db') => (Ok false, db')
    end.

(** The texts of the line edits, each as [text().strip()] gives it. *)
Record SettingsForm := mkSettingsForm {
  property_name_edit : string;
  pic_edit : string;
  owner_name_edit : string;
  address_edit : string;
  phone_edit : string;
  email_edit : string }.

Definition SettingsView_save_property_settings (now : datetime) (form : SettingsForm)
  : M bool :=
  found <- get_property_settings ;;
  let settings :=
    match found with
    | Some s => s
    | None => PropertySettings.mk None EmptyString EmptyString EmptyString
                                  EmptyString EmptyString EmptyString None None
    end in
  try_except
    (save_property_settings now
       (PropertySettings.mk (PropertySettings.id settings)
          (property_name_edit form) (pic_edit form) (owner_name_edit form)
          (address_edit form) (phone_edit form) (email_edit form)
          (PropertySettings.created_at settings)
          (PropertySettings.updated_at settings))).

(** ** Further vocabulary *)

(** What a save of a new entity and the lookup by id have to do with each
    other: the id that comes back was free and now finds the entity that
    came back, which has the fields that were passed, and every other id
    finds what it found before. *)
Definition insert_round_trip {A : Type} (getid : A -> option Z)
    (saved : Z -> option datetime -> datetime -> A -> A)
    (save : datetime -> A -> M A) (get : Z -> M (option A)) : Prop :=
  forall now e x db db',
    getid e = None ->
    save now e db = (Ok x, db') ->
    exists k,
      x = saved k (Some now) now e
      /\ get k db = (Ok None, db)
      /\ get k db' = (Ok (Some x), db')
      /\ forall j, j <> k -> fst (get j db') = fst (get j db).

(** The same for a save of an entity with id [k] that the store holds as
    row [r]: the lookup now gives the fields that were passed, with the
    creation timestamp of the row. *)
Definition update_round_trip {A : Type} (getid : A -> option Z)
    (created_at : A -> option datetime)
    (saved : Z -> option datetime -> datetime -> A -> A)
    (save : datetime -> A -> M A) (get : Z -> M (option A)) : Prop :=
  forall now e k r x db db',
    getid e = Some k ->
    get k db = (Ok (Some r), db) ->
    save now e db = (Ok x, db') ->
    x = saved k (created_at e) now e
    /\ get k db' = (Ok (Some (saved k (created_at r) now e)), db')
    /\ forall j, j <> k -> fst (get j db') = fst (get j db).

(** Some row of [l] holds [k] in the reference [col]. *)
Definition referenced {A : Type} (col : A -> option Z) (k : Z) (l : list A) : Prop :=
  exists r, In r l /\ col r = Some k.

(** The statement of a delete by id, on an id that SQLite holds: it is
    refused, with the store as it was, exactly when [blocked]; otherwise it
    returns, the id finds nothing any more and every other id finds what it
    found before. *)
Definition delete_statement {A : Type} (delete : Z -> M unit) (get : Z -> M (option A))
    (blocked : Z -> Database -> Prop) : Prop :=
  forall k db,
    (blocked k db /\ delete k db = (Raise IntegrityError, db))
    \/ (~ blocked k db
        /\ exists db',
             delete k db = (Ok tt, db')
             /\ get k db' = (Ok None, db')
             /\ forall j, j <> k -> fst (get j db') = fst (get j db)).

(** The delete as a caller reaches it, with any int: an id that SQLite
    cannot hold ends the call in [OverflowError]; an id that it can hold is
    refused with [IntegrityError] exactly when [blocked], and is deleted
    otherwise; whenever the call raises, the store is as it was. *)
Definition delete_contract {A : Type} (delete : Z -> M unit) (get : Z -> M (option A))
    (blocked : Z -> Database -> Prop) : Prop :=
  forall k db,
    if int64 k
    then (blocked k db /\ delete k db = (Raise IntegrityError, db))
         \/ (~ blocked k db
             /\ exists db',
                  delete k db = (Ok tt, db')
                  /\ get k db' = (Ok None, db')
                  /\ forall j, j <> k -> fst (get j db') = fst (get j db))
    else delete k db = (Raise OverflowError, db).

Definition paddock_in_use (k : Z) (db : Database) : Prop :=
  referenced Mob.current_paddock_id k (rows (mobs db))
  \/ referenced MovementEvent.from_paddock_id k (rows (movement_events db))
  \/ referenced MovementEvent.to_paddock_id k (rows (movement_events db)).

Definition mob_in_use (k : Z) (db : Database) : Prop :=
  referenced Animal.mob_id k (rows (animals db))
  \/ referenced Event.mob_id k (rows (events db))
  \/ referenced Task.mob_id k (rows (tasks db)).

(** Another animal names [k] as dam or sire, or an event or a task is
    about [k]. *)
Definition animal_in_use (k : Z) (db : Database) : Prop :=
  (exists a, In a (rows (animals db)) /\ Animal.id a <> Some k
             /\ (Animal.dam_id a = Some k \/ Animal.sire_id a = Some k))
  \/ referenced Event.animal_id k (rows (events db))
  \/ referenced Task.animal_id k (rows (tasks db)).

Definition product_in_use (k : Z) (db : Database) : Prop :=
  referenced TreatmentEvent.product_id k (rows (treatment_events db)).

(** The animal is alive. *)
Definition is_alive (a : Animal.t) : bool := AnimalStatus_eqb (Animal.status a) ALIVE.

Definition count_of {A : Type} (p : A -> bool) (l : list A) : Z :=
  Z.of_nat (List.length (filter p l)).

(** The animal with [updated_at = u], every other field as it is: what an
    update at time [u] stores for it. *)
Definition stamped (u : datetime) (a : Animal.t) : Animal.t :=
  Animal.mk (Animal.id a) (Animal.eid a) (Animal.visual_tag a) (Animal.species a)
            (Animal.breed a) (Animal.sex a) (Animal.date_of_birth a)
            (Animal.status a) (Animal.mob_id a) (Animal.dam_id a) (Animal.sire_id a)
            (Animal.notes a) (Animal.created_at a) (Some u).

(** The rowid of the animal is one of [l]. *)
Definition listed (l : list Z) (a : Animal.t) : bool :=
  existsb (fun k => has_id Animal.id k a) l.

(** What a quick dialog that edits the listed animals with [f] leaves of
    the animals table: every row is still there, in its place; a row that
    is not listed is untouched, and a listed row, when it changed, is the
    edited row with the time of its update. *)
Definition edited_in_place (f : Animal.t -> Animal.t) (l : list Z)
    (before after : list Animal.t) : Prop :=
  Forall2 (fun a a' => a' = a
                       \/ (listed l a = true /\ exists u, a' = stamped u (f a)))
          before after.

(** The same when the dialog was accepted: every listed row changed. *)
Definition all_edited (f : Animal.t -> Animal.t) (l : list Z)
    (before after : list Animal.t) : Prop :=
  Forall2 (fun a a' => if listed l a then exists u, a' = stamped u (f a) else a' = a)
          before after.

(** Every table of the store but [animals]. *)
Definition other_than_animals (db : Database) :=
  (paddocks db, mobs db, products db, events db, movement_events db,
   treatment_events db, weigh_events db, tasks db, property_settings db).

(** The store holds a weighing of animal [a] on day [t]: a weigh row with
    weight [w] and condition score [c] attached to a WEIGH event of that
    animal. *)
Definition weighed (a : Z) (t : date) (w : Q) (c : option Q) (db : Database) : Prop :=
  exists g e,
    In g (rows (weigh_events db))
    /\ In e (rows (events db))
    /\ sql_eq (WeighEvent.event_id g) (Event.id e) = true
    /\ Event.event_type e = WEIGH
    /\ Event.animal_id e = Some a
    /\ Event.event_date e = t
    /\ WeighEvent.weight_kg g = w
    /\ WeighEvent.condition_score g = c.

(** The condition score that the weigh dialog stores. *)
Definition stored_condition (form : WeighForm) : option Q :=
  if Qle_bool (condition_spin form) 0 then None else Some (condition_spin form).

(** A weighing of 100 kg on 2024-01-10 with no condition score. *)
Definition scales : WeighForm := mkWeighForm 738895 100 0.

(** The settings row shows what the form held. *)
Definition shows (s : PropertySettings.t) (form : SettingsForm) : Prop :=
  PropertySettings.property_name s = property_name_edit form
  /\ PropertySettings.pic s = pic_edit form
  /\ PropertySettings.owner_name s = owner_name_edit form
  /\ PropertySettings.address s = address_edit form
  /\ PropertySettings.phone s = phone_edit form
  /\ PropertySettings.email s = email_edit form.

Definition office : SettingsForm :=
  mkSettingsForm "Coolibah" "NSW123456" "Sam" "Bourke" "0400" EmptyString.

(** The dams and sires of the animals of mob [m] are stored. *)
Definition parents_stored (m : Z) (db : Database) : Prop :=
  forall a, In a (rows (animals db)) -> Animal.mob_id a = Some m ->
    ref_ok (Animal.dam_id a) (animal_ids db)
    /\ ref_ok (Animal.sire_id a) (animal_ids db).

(** An event or a task is about mob [m]. *)
Definition mob_on_record (m : Z) (db : Database) : Prop :=
  referenced Event.mob_id m (rows (events db))
  \/ referenced Task.mob_id m (rows (tasks db)).

(** [yard] after a note about mob 1. *)
Definition yard_mustered : Database :=
  exec (save_event 4 (Event.mk None NOTE 738895 None (Some 1) "Mustered" EmptyString None))
       yard.

(** [m] keeps the invariant [P] of the store, whether it returns or
    raises. *)
Definition keeps {A : Type} (P : Database -> Prop) (m : M A) : Prop :=
  forall db, P db -> P (snd (m db)).

(** PRIMARY KEY in every table. *)
Definition well_keyed (db : Database) : Prop :=
  keyed Paddock.id (rows (paddocks db))
  /\ keyed Mob.id (rows (mobs db))
  /\ keyed Animal.id (rows (animals db))
  /\ keyed Product.id (rows (products db))
  /\ keyed Event.id (rows (events db))
  /\ keyed MovementEvent.id (rows (movement_events db))
  /\ keyed TreatmentEvent.id (rows (treatment_events db))
  /\ keyed WeighEvent.id (rows (weigh_events db))
  /\ keyed Task.id (rows (tasks db))
  /\ keyed PropertySettings.id (rows (property_settings db)).

Definition movement_refs_ok (m : MovementEvent.t) (db : Database) : Prop :=
  ref_ok (MovementEvent.event_id m) (event_ids db)
  /\ ref_ok (MovementEvent.from_paddock_id m) (paddock_ids db)
  /\ ref_ok (MovementEvent.to_paddock_id m) (paddock_ids db).

Definition treatment_refs_ok (t : TreatmentEvent.t) (db : Database) : Prop :=
  ref_ok (TreatmentEvent.event_id t) (event_ids db)
  /\ ref_ok (TreatmentEvent.product_id t) (product_ids db).

Definition weigh_refs_ok (w : WeighEvent.t) (db : Database) : Prop :=
  ref_ok (WeighEvent.event_id w) (event_ids db).

(** FOREIGN KEY: every reference of every row is NULL or the id of a
    stored row of the table it refers to. *)
Definition refs_intact (db : Database) : Prop :=
  (forall m, In m (rows (mobs db)) -> mob_refs_ok m db)
  /\ (forall a, In a (rows (animals db)) -> animal_refs_ok a db)
  /\ (forall e, In e (rows (events db)) -> event_refs_ok e db)
  /\ (forall m, In m (rows (movement_events db)) -> movement_refs_ok m db)
  /\ (forall t, In t (rows (treatment_events db)) -> treatment_refs_ok t db)
  /\ (forall w, In w (rows (weigh_events db)) -> weigh_refs_ok w db)
  /\ (forall t, In t (rows (tasks db)) -> task_refs_ok t db).

(** ** ui/views/paddocks.py: PaddocksView._on_delete_paddock *)

Definition set_current_paddock_id (p : option Z) (m : Mob.t) : Mob.t :=
  Mob.mk (Mob.id m) (Mob.name m) (Mob.species m) (Mob.description m) p
         (Mob.created_at m) (Mob.updated_at m).

(** "Unassign mobs from paddock": the loop of the confirmed branch, over
    the mobs as [get_all_mobs] returned them. *)
Definition unassign_mobs (clock : nat -> datetime) (paddock_id : Z) : M unit :=
  l <- get_all_mobs ;;
  for_each (fun i mob =>
              if py_eq (Mob.current_paddock_id mob) (Some paddock_id)
              then save_mob (clock i) (set_current_paddock_id None mob) ;;; ret tt
              else ret tt)
           0%nat l.

(** [selected] is the result of [_get_selected_paddock_id()], [reply]
    whether the confirmation was answered with Yes. *)
Definition PaddocksView_on_delete_paddock (clock : nat -> datetime)
    (selected : option Z) (reply : bool) : M unit :=
  match selected with
  | None => ret tt
  | Some paddock_id =>
      if paddock_id =? 0 then ret tt else
      paddock <- get_paddock paddock_id ;;
      match paddock with
      | None => raise AttributeError
      | Some _ =>
          if reply then
            unassign_mobs clock paddock_id ;;;
            delete_paddock paddock_id
          else ret tt
      end
  end.

(** The mob with its paddock reference cleared and [updated_at = u]; every
    other field as it was. *)
Definition vacated (u : datetime) (m : Mob.t) : Mob.t :=
  Mob.mk (Mob.id m) (Mob.name m) (Mob.species m) (Mob.description m) None
         (Mob.created_at m) (Some u).

(** A movement event names paddock [p]. *)
Definition paddock_on_record (p : Z) (db : Database) : Prop :=
  referenced MovementEvent.from_paddock_id p (rows (movement_events db))
  \/ referenced MovementEvent.to_paddock_id p (rows (movement_events db)).

(** Some mob of [l] has the rowid of [m]. *)
Definition mob_among (l : list Mob.t) (m : Mob.t) : bool :=
  existsb (fun x => sql_eq (Mob.id x) (Mob.id m)) l.

(** The mob is in paddock [p]. *)
Definition in_paddock (p : Z) (m : Mob.t) : bool :=
  py_eq (Mob.current_paddock_id m) (Some p).

(** [yard] with a paddock that holds mob 1 and that a movement event
    names. *)
Definition run_paddock : Paddock.t :=
  Paddock.mk None "River" None EmptyString EmptyString None None.

Definition yard_moved : Database :=
  exec (save_movement_event 6
          (Event.mk None NOTE 738895 None (Some 1) EmptyString EmptyString None)
          (MovementEvent.mk None None None (Some 1) "feed" 1))
    (exec (save_mob 5 (Mob.mk (Some 1) "Weaners" CATTLE EmptyString (Some 1) None None))
       (exec (save_paddock 4 run_paddock) yard)).

(** ** The dialogs that add and edit

    A form holds what the widgets of a dialog show when Save is pressed,
    line edits with their text stripped.  [_on_save] works on the entity
    the dialog was opened with: a default one to add, the stored one to
    edit.  Its value says whether the dialog was accepted. *)

Module PaddockForm.
Record t := mk {
name_edit : string;
area_spin : Q;
pic_edit : string;
notes_edit : string }.
End PaddockForm.

Module MobForm.
Record t := mk {
name_edit : string;
species_combo : Species;
paddock_combo : option Z;
description_edit : string }.
End MobForm.

Module AnimalForm.
Record t := mk {
visual_tag_edit : string;
eid_edit : string;
species_combo : Species;
breed_edit : string;
sex_combo : AnimalSex;
dob_edit : date;
status_combo : AnimalStatus;
mob_combo : option Z;
notes_edit : string }.
End AnimalForm.

Module ProductForm.
Record t := mk {
name_edit : string;
category_combo : string;
ingredient_edit : string;
dose_edit : string;
route_combo : TreatmentRoute;
meat_whp_spin : Z;
milk_whp_spin : Z;
esi_spin : Z;
notes_edit : string }.
End ProductForm.

(** [not s] for a string. *)
Definition is_empty (s : string) : bool :=
  match s with EmptyString => true | String _ _ => false end.

(** [Paddock()], [Mob()], [Animal()], [Product()]. *)
Definition new_paddock : Paddock.t :=
  Paddock.mk None EmptyString None EmptyString EmptyString None None.
Definition new_mob : Mob.t :=
  Mob.mk None EmptyString CATTLE EmptyString None None None.
Definition new_animal : Animal.t :=
  Animal.mk None EmptyString EmptyString CATTLE EmptyString FEMALE None ALIVE
            None None None EmptyString None None.
Definition new_product : Product.t :=
  Product.mk None EmptyString EmptyString EmptyString 0 0 0 EmptyString
             INJECTION_SC EmptyString None None.

(** ui/views/paddocks.py: PaddockDialog._on_save *)
Definition PaddockDialog_on_save (now : datetime) (paddock : Paddock.t)
    (form : PaddockForm.t) : M bool :=
  let name := PaddockForm.name_edit form in
  if is_empty name then ret false else
  try_except
    (save_paddock now
       (Paddock.mk (Paddock.id paddock) name
          (if Qle_bool (PaddockForm.area_spin form) 0 then None
           else Some (PaddockForm.area_spin form))
          (PaddockForm.notes_edit form) (PaddockForm.pic_edit form)
          (Paddock.created_at paddock) (Paddock.updated_at paddock))).

(** ui/views/mobs.py: MobDialog._on_save *)
Definition MobDialog_on_save (now : datetime) (mob : Mob.t) (form : MobForm.t)
  : M bool :=
  let name := MobForm.name_edit form in
  if is_empty name then ret false else
  try_except
    (save_mob now
       (Mob.mk (Mob.id mob) name (MobForm.species_combo form)
          (MobForm.description_edit form) (MobForm.paddock_combo form)
          (Mob.created_at mob) (Mob.updated_at mob))).

(** ui/dialogs/animal_dialog.py: AnimalDialog._on_save *)
Definition AnimalDialog_on_save (now : datetime) (animal : Animal.t)
    (form : AnimalForm.t) : M bool :=
  let visual_tag := AnimalForm.visual_tag_edit form in
  let eid := AnimalForm.eid_edit form in
  if is_empty visual_tag && is_empty eid then ret false else
  try_except
    (save_animal now
       (Animal.mk (Animal.id animal) eid visual_tag (AnimalForm.species_combo form)
          (AnimalForm.breed_edit form) (AnimalForm.sex_combo form)
          (Some (AnimalForm.dob_edit form)) (AnimalForm.status_combo form)
          (AnimalForm.mob_combo form) (Animal.dam_id animal) (Animal.sire_id animal)
          (AnimalForm.notes_edit form)
          (Animal.created_at animal) (Animal.updated_at animal))).

(** ui/views/treatments.py: ProductDialog._on_save *)
Definition ProductDialog_on_save (now : datetime) (product : Product.t)
    (form : ProductForm.t) : M bool :=
  let name := ProductForm.name_edit form in
  if is_empty name then ret false else
  try_except
    (save_product now
       (Product.mk (Product.id product) name (ProductForm.ingredient_edit form)
          (ProductForm.category_combo form) (ProductForm.meat_whp_spin form)
          (ProductForm.milk_whp_spin form) (ProductForm.esi_spin form)
          (ProductForm.dose_edit form) (ProductForm.route_combo form)
          (ProductForm.notes_edit form)
          (Product.created_at product) (Product.updated_at product))).

(** [_on_add_*]: the dialog on a default entity. *)
Definition PaddocksView_on_add_paddock now form := PaddockDialog_on_save now new_paddock form.
Definition MobsView_on_add_mob now form := MobDialog_on_save now new_mob form.
Definition AnimalsView_on_add_animal now form := AnimalDialog_on_save now new_animal form.
Definition TreatmentsView_on_add_product now form := ProductDialog_on_save now new_product form.

(** [_on_edit_*]: the dialog on the selected row, if there is one.
    [selected] is the id in the selected table row, if any. *)
Definition on_edit {A F : Type} (get : Z -> M (option A))
    (dialog : A -> F -> M bool) (selected : option Z) (form : F) : M bool :=
  match selected with
  | None => ret false
  | Some k =>
      if k =? 0 then ret false else
      found <- get k ;;
      match found with
      | Some entity => dialog entity form
      | None => ret false
      end
  end.

Definition PaddocksView_on_edit_paddock now := on_edit get_paddock (PaddockDialog_on_save now).
Definition MobsView_on_edit_mob now := on_edit get_mob (MobDialog_on_save now).
Definition TreatmentsView_on_edit_product now :=
  on_edit get_product (ProductDialog_on_save now).

(** [_on_edit_animal] edits the first selected animal. *)
Definition AnimalsView_on_edit_animal (now : datetime) (ids : list Z)
    (form : AnimalForm.t) : M bool :=
  match ids with
  | [] => ret false
  | k :: _ =>
      found <- get_animal k ;;
      match found with
      | Some animal => AnimalDialog_on_save now animal form
      | None => ret false
      end
  end.

(** ui/views/mobs.py: MobsView._on_move_mob; [accepted] says whether the
    paddock selection was confirmed. *)
Definition MobsView_on_move_mob (now : datetime) (selected : option Z)
    (accepted : bool) (paddock_combo : option Z) : M unit :=
  match selected with
  | None => ret tt
  | Some mob_id =>
      if mob_id =? 0 then ret tt else
      mob <- get_mob mob_id ;;
      match mob with
      | None => ret tt
      | Some mob =>
          get_all_paddocks ;;;
          if accepted
          then save_mob now (set_current_paddock_id paddock_combo mob) ;;; ret tt
          else ret tt
      end
  end.

(** ui/views/treatments.py: TreatmentsView._on_delete_product *)
Definition TreatmentsView_on_delete_product (selected : option Z) (reply : bool)
  : M unit :=
  match selected with
  | None => ret tt
  | Some product_id =>
      if product_id =? 0 then ret tt else
      product <- get_product product_id ;;
      match product with
      | None => raise AttributeError
      | Some _ => if reply then delete_product product_id else ret tt
      end
  end.

(** ui/views/dashboard.py: DashboardView._complete_task, with the two
    refreshes that follow. *)
Definition DashboardView_complete_task (now : datetime) (today : date) (task_id : Z)
  : M unit :=
  complete_task now task_id ;;;
  get_pending_tasks today 7 ;;;
  DashboardView_refresh_stats today ;;;
  ret tt.

(** ** The user interface as a transition system

    The flows of the views and dialogs that write to the store, each with
    what the user selected and entered.  (Restoring a backup replaces the
    whole store and is not one of them.) *)

Module Action.
Inductive t :=
| AddPaddock (now : datetime) (form : PaddockForm.t)
| EditPaddock (now : datetime) (selected : option Z) (form : PaddockForm.t)
| DeletePaddock (clock : nat -> datetime) (selected : option Z) (reply : bool)
| AddMob (now : datetime) (form : MobForm.t)
| EditMob (now : datetime) (selected : option Z) (form : MobForm.t)
| MoveMob (now : datetime) (selected : option Z) (accepted : bool)
      (paddock_combo : option Z)
| DeleteMob (clock : nat -> datetime) (selected : option Z) (reply : bool)
| AddAnimal (now : datetime) (form : AnimalForm.t)
| EditAnimal (now : datetime) (ids : list Z) (form : AnimalForm.t)
| DeleteAnimals (ids : list Z) (reply : bool)
| QuickMove (clock : nat -> datetime) (ids : list Z) (mob_combo : option Z)
| QuickTreatment (clock : nat -> datetime) (ids : list Z) (form : TreatmentForm)
| QuickWeigh (clock : nat -> datetime) (ids : list Z) (form : WeighForm)
| QuickStatus (clock : nat -> datetime) (ids : list Z) (status_combo : AnimalStatus)
| AddProduct (now : datetime) (form : ProductForm.t)
| EditProduct (now : datetime) (selected : option Z) (form : ProductForm.t)
| DeleteProduct (selected : option Z) (reply : bool)
| CompleteTask (now : datetime) (today : date) (task_id : Z)
| SaveSettings (now : datetime) (form : SettingsForm).
End Action.

(** The store that a flow leaves, whether it returned or raised. *)
Definition perform (a : Action.t) (db : Database) : Database :=
  match a with
  | Action.AddPaddock now form => exec (PaddocksView_on_add_paddock now form) db
  | Action.EditPaddock now selected form =>
      exec (PaddocksView_on_edit_paddock now selected form) db
  | Action.DeletePaddock clock selected reply =>
      exec (PaddocksView_on_delete_paddock clock selected reply) db
  | Action.AddMob now form => exec (MobsView_on_add_mob now form) db
  | Action.EditMob now selected form => exec (MobsView_on_edit_mob now selected form) db
  | Action.MoveMob now selected accepted paddock_combo =>
      exec (MobsView_on_move_mob now selected accepted paddock_combo) db
  | Action.DeleteMob clock selected reply =>
      exec (MobsView_on_delete_mob clock selected reply) db
  | Action.AddAnimal now form => exec (AnimalsView_on_add_animal now form) db
  | Action.EditAnimal now ids form => exec (AnimalsView_on_edit_animal now ids form) db
  | Action.DeleteAnimals ids reply => exec (AnimalsView_on_delete_animal ids reply) db
  | Action.QuickMove clock ids mob_combo =>
      exec (QuickMoveDialog_on_accept clock ids mob_combo) db
  | Action.QuickTreatment clock ids form =>
      exec (QuickTreatmentDialog_on_accept clock ids form) db
  | Action.QuickWeigh clock ids form => exec (QuickWeighDialog_on_accept clock ids form) db
  | Action.QuickStatus clock ids status_combo =>
      exec (QuickStatusDialog_on_accept clock ids status_combo) db
  | Action.AddProduct now form => exec (TreatmentsView_on_add_product now form) db
  | Action.EditProduct now selected form =>
      exec (TreatmentsView_on_edit_product now selected form) db
  | Action.DeleteProduct selected reply =>
      exec (TreatmentsView_on_delete_product selected reply) db
  | Action.CompleteTask now today task_id =>
      exec (DashboardView_complete_task now today task_id) db
  | Action.SaveSettings now form => exec (SettingsView_save_property_settings now form) db
  end.

(** The stores that the user interface reaches from a fresh database. *)
Inductive ui_reachable : Database -> Prop :=
| ui_fresh : ui_reachable empty_db
| ui_perform (a : Action.t) (db : Database) :
    ui_reachable db -> ui_reachable (perform a db).

(** What the forms let through. *)
Definition animal_as_entered (a : Animal.t) : Prop :=
  (Animal.visual_tag a <> EmptyString \/ Animal.eid a <> EmptyString)
  /\ Animal.date_of_birth a <> None
  /\ Animal.dam_id a = None
  /\ Animal.sire_id a = None.

Definition event_as_entered (e : Event.t) : Prop :=
  (Event.event_type e = TREATMENT \/ Event.event_type e = WEIGH)
  /\ Event.animal_id e <> None
  /\ Event.mob_id e = None.

Definition as_entered (db : Database) : Prop :=
  rows (tasks db) = []
  /\ rows (movement_events db) = []
  /\ (forall e, In e (rows (events db)) -> event_as_entered e)
  /\ (forall a, In a (rows (animals db)) -> animal_as_entered a)
  /\ (forall p, In p (rows (paddocks db)) -> Paddock.name p <> EmptyString)
  /\ (forall m, In m (rows (mobs db)) -> Mob.name m <> EmptyString)
  /\ (forall p, In p (rows (products db)) -> Product.name p <> EmptyString).

(** A station set up through the user interface: a paddock, a mob in it,
    a product, an animal of the mob, and a treatment of that animal. *)
Definition setup : list Action.t :=
  [ Action.AddPaddock 1 (PaddockForm.mk "River" 120 EmptyString EmptyString);
    Action.AddMob 2 (MobForm.mk "Weaners" CATTLE (Some 1) EmptyString);
    Action.AddProduct 3
      (ProductForm.mk "Cydectin" "Drench" "moxidectin" "1ml/10kg" POUR_ON 28 0 42
                      EmptyString);
    Action.AddAnimal 4
      (AnimalForm.mk "W3" "982000777" CATTLE "Hereford" STEER 738500 ALIVE (Some 1)
                     EmptyString);
    Action.QuickTreatment (fun _ => 5) [1] drench_form ].

Definition perform_all (l : list Action.t) (db : Database) : Database :=
  fold_left (fun db a => perform a db) l db.

Definition homestead : Database := perform_all setup empty_db.
(** * Properties *)

Lemma AnimalStatus_eqb_eq a b : AnimalStatus_eqb a b = true <-> a = b.
Proof. destruct a, b; simpl; split; congruence. Qed.

Lemma EventType_eqb_eq a b : EventType_eqb a b = true <-> a = b.
Proof. destruct a, b; simpl; split; congruence. Qed.

(** ** Statements *)

Section StatementFacts.
Variable A : Type.
Variable getid : A -> option Z.
Variable tbl : Database -> Table A.
Variable set_tbl : (Table A -> Table A) -> Database -> Database.
Variable fk : A -> Database -> bool.

Lemma execute_cases stmt chk db :
execute stmt chk db = (Ok tt, stmt db)
\/ execute stmt chk db = (Raise IntegrityError, db).
Proof. unfold execute. destruct (chk (stmt db)); auto. Qed.

Lemma sql_insert_cases mkrow db :
sql_insert getid tbl set_tbl fk mkrow db
= (Ok (next_rowid getid (tbl db)), set_tbl (insert_row getid mkrow) db)
\/ sql_insert getid tbl set_tbl fk mkrow db = (Raise IntegrityError, db).
Proof. unfold sql_insert. destruct (fk _ _); auto. Qed.

Lemma sql_update_cases k f db :
sql_update getid tbl set_tbl fk k f db
= (Ok tt, set_tbl (update_row getid k f) db)
\/ sql_update getid tbl set_tbl fk k f db = (Raise IntegrityError, db).
Proof. apply execute_cases. Qed.

Lemma sql_delete_cases k chk db :
sql_delete getid set_tbl k chk db = (Ok tt, set_tbl (delete_row getid k) db)
\/ sql_delete getid set_tbl k chk db = (Raise IntegrityError, db).
Proof. apply execute_cases. Qed.
End StatementFacts.

Lemma max_rowid_ge (A : Type) (getid : A -> option Z) (l : list A) r k :
  In r l -> getid r = Some k -> k <= max_rowid getid l.
Proof.
  induction l as [|x l IH]; simpl; [tauto|].
  intros [->|Hin] Hk.
  - rewrite Hk. lia.
  - specialize (IH Hin Hk). destruct (getid x); lia.
Qed.

(** The rowid of an INSERT is fresh. *)
Lemma next_rowid_fresh (A : Type) (getid : A -> option Z) (t : Table A) r :
  In r (rows t) -> getid r <> Some (next_rowid getid t).
Proof.
  intros Hin Hk. pose proof (max_rowid_ge getid _ _ Hin Hk).
  unfold next_rowid in *. lia.
Qed.

Lemma has_id_true (A : Type) (getid : A -> option Z) k r :
  has_id getid k r = true <-> getid r = Some k.
Proof.
  unfold has_id. destruct (getid r) as [j|].
  - rewrite Z.eqb_eq. split; congruence.
  - split; discriminate.
Qed.

Lemma in_ids (A : Type) (getid : A -> option Z) (l : list A) k :
  In k (ids getid l) <-> exists r, In r l /\ getid r = Some k.
Proof.
  unfold ids. rewrite in_flat_map. split.
  - intros (r & Hin & Hk). exists r. split; [assumption|].
    destruct (getid r); simpl in Hk; [|tauto]. destruct Hk; [congruence|tauto].
  - intros (r & Hin & Hk). exists r. split; [assumption|].
    rewrite Hk. simpl. auto.
Qed.

Lemma select_id_absent (A : Type) (getid : A -> option Z) (t : Table A) k :
  ~ In k (ids getid (rows t)) -> select_id getid k t = None.
Proof.
  intros Hk. unfold select_id.
  destruct (find (has_id getid k) (rows t)) as [r|] eqn:E; [|reflexivity].
  apply find_some in E. destruct E as [Hin Hid].
  apply has_id_true in Hid. exfalso. apply Hk. apply in_ids. eauto.
Qed.

Lemma find_absent (A : Type) (p : A -> bool) (l : list A) :
  (forall r, In r l -> p r = false) -> find p l = None.
Proof.
  intros H. destruct (find p l) as [r|] eqn:E; [|reflexivity].
  apply find_some in E. destruct E as [Hin Hp]. rewrite (H _ Hin) in Hp. discriminate.
Qed.

Lemma filter_absent (A : Type) (p : A -> bool) (l : list A) :
  (forall r, In r l -> p r = false) -> filter p l = [].
Proof.
  induction l as [|x l IH]; simpl; intros H; [reflexivity|].
  rewrite (H x (or_introl eq_refl)). apply IH. intros r Hr. apply H. now right.
Qed.

Lemma sql_eq_true a b : sql_eq a b = true <-> exists x, a = Some x /\ b = Some x.
Proof.
  destruct a as [x|], b as [y|]; simpl; split;
    try discriminate; try (intros (z & H1 & H2); discriminate).
  - rewrite Z.eqb_eq. intros ->. eauto.
  - intros (z & H1 & H2). rewrite Z.eqb_eq. congruence.
Qed.

Lemma sql_eq_Some_false a k : a <> Some k -> sql_eq a (Some k) = false.
Proof.
  intros H. destruct (sql_eq a (Some k)) eqn:E; [|reflexivity].
  apply sql_eq_true in E. destruct E as (x & -> & Hx). congruence.
Qed.

(** ** Lookups and list queries *)

Section Absent.
Variable db : Database.

Lemma get_by_id_absent (A : Type) (getid : A -> option Z)
(tbl : Database -> Table A) k :
~ In k (ids getid (rows (tbl db))) ->
query (fun db => select_id getid k (tbl db)) db = (Ok None, db).
Proof. intros H. unfold query. now rewrite select_id_absent. Qed.

Lemma details_absent (A : Type) (col : A -> option Z)
(tbl : Database -> Table A) k :
(forall r, In r (rows (tbl db)) -> col r <> Some k) ->
query (fun db => find (fun r => sql_eq (col r) (Some k)) (rows (tbl db))) db
= (Ok None, db).
Proof.
intros H. unfold query. rewrite find_absent; [reflexivity|].
intros r Hr. apply sql_eq_Some_false. auto.
Qed.

Lemma select_where_absent (A : Type) (le : A -> A -> bool) (p : A -> bool)
(tbl : Database -> Table A) :
(forall r, In r (rows (tbl db)) -> p r = false) ->
query (fun db => order_by le (filter p (rows (tbl db)))) db = (Ok [], db).
Proof. intros H. unfold query. now rewrite filter_absent. Qed.
End Absent.

(** ** Binding the parameters *)

Lemma int64_range k : int64 k = true <-> - 2 ^ 63 <= k < 2 ^ 63.
Proof. unfold int64. rewrite andb_true_iff, Z.leb_le, Z.ltb_lt. tauto. Qed.

Lemma bind_params_fit (A : Type) (params : list (option Z)) (stmt : M A) db :
  forallb binds params = true -> bind_params params stmt db = stmt db.
Proof. intros H. unfold bind_params. now rewrite H. Qed.

Lemma bind_params_overflow (A : Type) (params : list (option Z)) (stmt : M A) db :
  forallb binds params = false ->
  bind_params params stmt db = (Raise OverflowError, db).
Proof. intros H. unfold bind_params. now rewrite H. Qed.

Lemma bind_int_fit k :
  int64 k = true ->
  forall (A : Type) (stmt : M A) db, bind_params [Some k] stmt db = stmt db.
Proof. intros H A stmt db. apply bind_params_fit. simpl. now rewrite H. Qed.

Lemma bind_int_overflow k :
  int64 k = false ->
  forall (A : Type) (stmt : M A) db,
    bind_params [Some k] stmt db = (Raise OverflowError, db).
Proof. intros H A stmt db. apply bind_params_overflow. simpl. now rewrite H. Qed.


(** ** What each operation leaves alone *)

Section Preserves.
Variables X : Type.
Variable f : Database -> X.

Lemma preserves_ret (A : Type) (a : A) : preserves f (ret a).
Proof. intros db. reflexivity. Qed.

Lemma preserves_raise (A : Type) e : preserves f (@raise A e).
Proof. intros db. reflexivity. Qed.

Lemma preserves_lift (A : Type) (r : result A) : preserves f (lift r).
Proof. intros db. reflexivity. Qed.

Lemma preserves_query (A : Type) (q : Database -> A) : preserves f (query q).
Proof. intros db. reflexivity. Qed.

Lemma preserves_bind (A B : Type) (m : M A) (k : A -> M B) :
preserves f m -> (forall a, preserves f (k a)) -> preserves f (bind m k).
Proof.
intros Hm Hk db. unfold bind. specialize (Hm db).
destruct (m db) as [[a|e] db']; simpl in *.
- now rewrite Hk.
- assumption.
Qed.

Lemma preserves_execute stmt chk :
(forall db, f (stmt db) = f db) -> preserves f (execute stmt chk).
Proof. intros H db. unfold execute. destruct (chk (stmt db)); simpl; auto. Qed.

Lemma preserves_for_each (A : Type) (body : nat -> A -> M unit) l :
(forall i x, preserves f (body i x)) ->
forall i, preserves f (for_each body i l).
Proof.
intros H. induction l as [|x l IH]; intros i; simpl.
- apply preserves_ret.
- apply preserves_bind; auto.
Qed.

Section Table.
Variable A : Type.
Variable getid : A -> option Z.
Variable tbl : Database -> Table A.
Variable set_tbl : (Table A -> Table A) -> Database -> Database.
Variable fk : A -> Database -> bool.
Hypothesis other : forall g db, f (set_tbl g db) = f db.

Lemma preserves_sql_insert mkrow :
preserves f (sql_insert getid tbl set_tbl fk mkrow).
Proof. intros db. unfold sql_insert. destruct (fk _ _); simpl; auto. Qed.

Lemma preserves_sql_update k g :
preserves f (sql_update getid tbl set_tbl fk k g).
Proof. apply preserves_execute. auto. Qed.

Lemma preserves_sql_delete k chk :
preserves f (sql_delete getid set_tbl k chk).
Proof. apply preserves_execute. auto. Qed.
End Table.
End Preserves.

Create HintDb ops.
#[export] Hint Unfold
  save_paddock delete_paddock get_paddock get_all_paddocks
  save_mob delete_mob get_mob get_all_mobs get_mob_animal_count
  save_animal delete_animal get_animal get_animals_by_mob
  save_product delete_product get_product
  save_event save_movement_event save_treatment_event save_weigh_event
  save_task complete_task delete_task save_property_settings
  unassign_animals : ops.

Ltac frame_step :=
  match goal with
  | |- forall _, _ => intro
  | |- preserves _ (ret _) => apply preserves_ret
  | |- preserves _ (raise _) => apply preserves_raise
  | |- preserves _ (lift _) => apply preserves_lift
  | |- preserves _ (query _) => apply preserves_query
  | |- preserves _ (bind _ _) => apply preserves_bind
  | |- preserves _ (for_each _ _ _) => apply preserves_for_each
  | |- preserves _ (sql_insert _ _ _ _ _) =>
      apply preserves_sql_insert; intros; reflexivity
  | |- preserves _ (sql_update _ _ _ _ _ _) =>
      apply preserves_sql_update; intros; reflexivity
  | |- preserves _ (sql_delete _ _ _ _) =>
      apply preserves_sql_delete; intros; reflexivity
  | |- preserves _ (match ?x with _ => _ end) => destruct x
  | |- preserves _ _ => progress autounfold with ops
  end.

Ltac frame := repeat frame_step.

Lemma save_product_treatment_events now product :
  preserves treatment_events (save_product now product).
Proof. frame. Qed.

Lemma other_ops_keep_treatment_events o db :
  (forall now e t, o <> SaveTreatmentEvent now e t) ->
  treatment_events (run o db) = treatment_events db.
Proof.
  intros H.
  destruct o;
    try (exfalso; eapply H; reflexivity);
    unfold run, exec;
    match goal with
    | |- _ (snd (?m db)) = _ =>
        revert db; change (preserves treatment_events m); frame
    end.
Qed.
Lemma save_event_treatment_events now event :
  preserves treatment_events (save_event now event).
Proof. frame. Qed.

Lemma update_row_keeps (A : Type) (getid : A -> option Z) k f (t : Table A) r :
  In r (rows t) ->
  In r (rows (update_row getid k f t)) \/ getid r = Some k.
Proof.
  intros Hin. destruct (has_id getid k r) eqn:E.
  - right. now apply has_id_true.
  - left. simpl. apply in_map_iff. exists r. now rewrite E.
Qed.

Lemma save_treatment_event_rows now e t db r :
  In r (rows (treatment_events db)) ->
  In r (rows (treatment_events (exec (save_treatment_event now e t) db)))
  \/ TreatmentEvent.id t = TreatmentEvent.id r.
Proof.
  intros Hin. unfold exec, save_treatment_event, bind.
  pose proof (save_event_treatment_events now (set_event_type TREATMENT e) db) as Hev.
  destruct (save_event now (set_event_type TREATMENT e) db) as [[ev|x] db1];
    simpl in Hev; [|left; simpl; now rewrite Hev].
  rewrite <- Hev in Hin.
  destruct (TreatmentEvent.id t) as [k|] eqn:Hid.
  - match goal with |- context [sql_update ?g ?tb ?s ?f k ?u db1] =>
      destruct (sql_update_cases g tb s f k u db1) as [-> | ->] end; simpl.
    + destruct (update_row_keeps TreatmentEvent.id k
                  (fun r0 => TreatmentEvent.mk (TreatmentEvent.id r0)
                     (TreatmentEvent.event_id r0) (TreatmentEvent.product_id t)
                     (TreatmentEvent.batch_number t) (TreatmentEvent.dose t)
                     (TreatmentEvent.route t) (TreatmentEvent.administered_by t)
                     (TreatmentEvent.meat_whp_end t) (TreatmentEvent.milk_whp_end t)
                     (TreatmentEvent.esi_end t)) (treatment_events db1) r Hin) as [H|H].
      * left. exact H.
      * right. congruence.
    + left. assumption.
  - match goal with |- context [sql_insert ?g ?tb ?s ?f ?u db1] =>
      destruct (sql_insert_cases g tb s f u db1) as [-> | ->] end; simpl.
    + left. apply in_or_app. now left.
    + left. assumption.
Qed.

(** C4.  Saving a product, new or existing, leaves the [treatment_events]
    table as it was, so every stored [meat_whp_end], [milk_whp_end] and
    [esi_end] keeps its value and [get_treatment_details] answers as
    before.  More generally a stored treatment row survives every
    operation of the store unchanged, except a [save_treatment_event] that
    is called with that row's own id. *)
Theorem product_update_keeps_whp_ends
    (now : datetime) (product : Product.t) (db : Database) :
  treatment_events (exec (save_product now product) db) = treatment_events db
  /\ (forall event_id,
        fst (get_treatment_details event_id (exec (save_product now product) db))
        = fst (get_treatment_details event_id db))
  /\ (forall o r,
        In r (rows (treatment_events db)) ->
        In r (rows (treatment_events (run o db)))
        \/ exists now' event treatment,
             o = SaveTreatmentEvent now' event treatment
             /\ TreatmentEvent.id treatment = TreatmentEvent.id r).
Proof.
  pose proof (save_product_treatment_events now product db) as H.
  split; [exact H|]. split.
  - intros event_id. unfold get_treatment_details, query. simpl.
    unfold exec. now rewrite H.
  - intros o r Hin.
    destruct o;
      try (left; rewrite other_ops_keep_treatment_events;
           [assumption | intros; discriminate]).
    destruct (save_treatment_event_rows now0 event treatment db r Hin) as [Hr|Hr].
    + left. exact Hr.
    + right. eauto.
Qed.

Lemma product_update_keeps_whp_ends_witness :
  In drench_row (rows (treatment_events farm_treated))
  /\ (In drench_row
         (rows (treatment_events
                  (run (SaveProduct 9
                          (Product.mk (Some 1) "Cydectin" "moxidectin" "Drench"
                                      35 7 63 "1ml/10kg" POUR_ON EmptyString
                                      None None))
                       farm_treated)))
      \/ exists now' event treatment,
           SaveProduct 9
             (Product.mk (Some 1) "Cydectin" "moxidectin" "Drench"
                         35 7 63 "1ml/10kg" POUR_ON EmptyString None None)
           = SaveTreatmentEvent now' event treatment
           /\ TreatmentEvent.id treatment = TreatmentEvent.id drench_row).
Proof.
  split.
  - vm_compute. auto.
  - apply (proj2 (proj2 (product_update_keeps_whp_ends 9 drench farm_treated))).
    vm_compute. auto.
Defined.
Ltac rows_absent :=
  vm_compute; intros;
  repeat match goal with
         | H : _ \/ _ |- _ => destruct H
         | H : False |- _ => destruct H
         end;
  subst; try discriminate; try (vm_compute in *; discriminate);
  try (vm_compute; tauto).


(** ** Saving: insert or update *)

Lemma refers_true o l : refers o l = true <-> ref_ok o l.
Proof.
  destruct o as [k|]; simpl; [|tauto].
  rewrite existsb_exists. split.
  - intros (x & Hin & Hx). apply Z.eqb_eq in Hx. now subst.
  - intros Hin. exists k. split; [assumption|apply Z.eqb_refl].
Qed.

Lemma ids_app (A : Type) (getid : A -> option Z) l1 l2 :
  ids getid (l1 ++ l2) = ids getid l1 ++ ids getid l2.
Proof. unfold ids. apply flat_map_app. Qed.

Lemma ids_update (A : Type) (getid : A -> option Z) k f (l : list A) :
  (forall r, getid (f r) = getid r) ->
  ids getid (map (fun r => if has_id getid k r then f r else r) l) = ids getid l.
Proof.
  intros Hf. induction l as [|x l IH]; simpl; [reflexivity|].
  rewrite IH. destruct (has_id getid k x); [rewrite Hf|]; reflexivity.
Qed.

Lemma ref_ok_incl o l l' : ref_ok o l -> incl l l' -> ref_ok o l'.
Proof. destruct o; simpl; auto. Qed.

Section SaveShape.
Variable A : Type.
Variable getid : A -> option Z.
Variable created_at : A -> option datetime.
Variable saved : Z -> option datetime -> datetime -> A -> A.
Variable tbl : Database -> Table A.
Variable set_tbl : (Table A -> Table A) -> Database -> Database.
Variable fk : A -> Database -> bool.
Variable refs_ok : A -> Database -> Prop.
Variable upd : A -> datetime -> A -> A.
Variable back : A -> datetime -> Z -> A.
Variable save : datetime -> A -> M A.

Hypothesis get_set : forall g db, tbl (set_tbl g db) = g (tbl db).
Hypothesis save_eq : forall now e,
save now e =
match getid e with
| None =>
k <- sql_insert getid tbl set_tbl fk (fun k => saved k (Some now) now e) ;;
ret (saved k (Some now) now e)
| Some k => sql_update getid tbl set_tbl fk k (upd e now) ;;; ret (back e now k)
end.
Hypothesis saved_id : forall k c now e, getid (saved k c now e) = Some k.
Hypothesis saved_created : forall k c now e, created_at (saved k c now e) = c.
Hypothesis upd_id : forall e now r, getid (upd e now r) = getid r.
Hypothesis upd_saved : forall e now k r,
getid r = Some k -> upd e now r = saved k (created_at r) now e.
Hypothesis back_saved : forall e now k,
getid e = Some k -> back e now k = saved k (created_at e) now e.
Hypothesis fk_insert : forall e now db,
refs_ok e db ->
fk (saved (next_rowid getid (tbl db)) (Some now) now e)
(set_tbl (insert_row getid (fun k => saved k (Some now) now e)) db) = true.
Hypothesis fk_update : forall e now k db r,
refs_ok e db ->
fk (upd e now r) (set_tbl (update_row getid k (upd e now)) db) = true.

Lemma save_shape_statement :
save_statement getid created_at saved tbl refs_ok save.
Proof.
intros now e db. split.
- intros Hid. rewrite save_eq, Hid. unfold inserted, bind, sql_insert, ret.
destruct (fk _ _) eqn:Hfk; simpl.
+ split; [eauto|]. exists (next_rowid getid (tbl db)).
rewrite get_set. simpl.
split; [apply saved_id|]. split.
{ intros Hin. apply in_ids in Hin. destruct Hin as (r & Hr & Hk).
now apply (next_rowid_fresh getid (tbl db) r Hr). }
split; [apply saved_created|]. split; [reflexivity|]. split; [reflexivity|].
rewrite length_app. simpl. lia.
+ split; [|auto]. intros Hok. rewrite fk_insert in Hfk by assumption.
discriminate.
- intros k Hid. rewrite save_eq, Hid.
unfold updated_in_place, bind, sql_update, execute, ret.
destruct (forallb _ _) eqn:Hfk; simpl.
+ split; [eauto|]. rewrite get_set. simpl. rewrite length_map.
split; [reflexivity|]. split; [apply ids_update; apply upd_id|].
split; [rewrite back_saved by exact Hid; apply saved_id|].
split; [now apply back_saved|].
apply map_ext. intros r.
destruct (has_id getid k r) eqn:E; [|reflexivity].
apply has_id_true in E. now apply upd_saved.
+ split; [|auto]. intros Hok. exfalso.
assert (forallb (fun r => negb (has_id getid k r)
          || fk r (set_tbl (update_row getid k (upd e now)) db))
(rows (tbl (set_tbl (update_row getid k (upd e now)) db)))
= true) as Ht; [|rewrite Ht in Hfk; discriminate].
apply forallb_forall. intros r' Hin. rewrite get_set in Hin. simpl in Hin.
apply in_map_iff in Hin. destruct Hin as (r & <- & Hr).
destruct (has_id getid k r) eqn:E.
* rewrite fk_update by assumption. apply orb_true_r.
* rewrite E. reflexivity.
Qed.
End SaveShape.

(** The row that an UPDATE writes over a row with id [k]. *)
Ltac same_row :=
  let Hr := fresh "Hr" in
  intros ? ? ? ? Hr; cbv beta; rewrite Hr; reflexivity.

(** The entity that a save without [updated_at] hands back is the entity
    that was passed. *)
Ltac same_entity :=
  let e := fresh "e" in
  let He := fresh "He" in
  intros e ? ? He; destruct e; simpl in *; subst; reflexivity.

Lemma save_paddock_statement :
  save_statement Paddock.id Paddock.created_at paddock_saved paddocks
                 (@no_refs Paddock.t) save_paddock.
Proof.
  eapply save_shape_statement with (set_tbl := set_paddocks) (fk := @no_fk Paddock.t);
    try reflexivity.
  same_row.
Qed.

Lemma save_product_statement :
  save_statement Product.id Product.created_at product_saved products
                 (@no_refs Product.t) save_product.
Proof.
  eapply save_shape_statement with (set_tbl := set_products) (fk := @no_fk Product.t);
    try reflexivity.
  same_row.
Qed.

Lemma save_property_settings_statement :
  save_statement PropertySettings.id PropertySettings.created_at
                 settings_saved property_settings
                 (@no_refs PropertySettings.t) save_property_settings.
Proof.
  eapply save_shape_statement
    with (set_tbl := set_property_settings) (fk := @no_fk PropertySettings.t);
    try reflexivity.
  same_row.
Qed.

Lemma save_mob_statement :
  save_statement Mob.id Mob.created_at mob_saved mobs mob_refs_ok save_mob.
Proof.
  eapply save_shape_statement with (set_tbl := set_mobs) (fk := fk_mob);
    try reflexivity.
  - same_row.
  - intros e now db H. apply refers_true. exact H.
  - intros e now k db r H. apply refers_true. exact H.
Qed.

Lemma animal_ids_insert mk db :
  incl (animal_ids db) (animal_ids (set_animals (insert_row Animal.id mk) db)).
Proof.
  unfold animal_ids. simpl. rewrite ids_app. apply incl_appl, incl_refl.
Qed.

Lemma animal_ids_update k f db :
  (forall r, Animal.id (f r) = Animal.id r) ->
  animal_ids (set_animals (update_row Animal.id k f) db) = animal_ids db.
Proof. intros H. unfold animal_ids. simpl. now apply ids_update. Qed.

Lemma save_animal_statement :
  save_statement Animal.id Animal.created_at animal_saved animals
                 animal_refs_ok save_animal.
Proof.
  eapply save_shape_statement with (set_tbl := set_animals) (fk := fk_animal);
    try reflexivity.
  - same_row.
  - intros e now db (H1 & H2 & H3). unfold fk_animal.
    rewrite !andb_true_iff, !refers_true. simpl.
    repeat split; try assumption;
      eapply ref_ok_incl; eauto using animal_ids_insert.
  - intros e now k db r (H1 & H2 & H3). unfold fk_animal.
    rewrite !andb_true_iff, !refers_true. simpl.
    rewrite animal_ids_update by reflexivity. auto.
Qed.

Lemma save_event_statement :
  save_statement Event.id Event.created_at event_saved events
                 event_refs_ok save_event.
Proof.
  eapply save_shape_statement with (set_tbl := set_events) (fk := fk_event)
    (back := fun e _ _ => e); try reflexivity.
  - same_row.
  - same_entity.
  - intros e now db (H1 & H2). unfold fk_event.
    rewrite !andb_true_iff, !refers_true. auto.
  - intros e now k db r (H1 & H2). unfold fk_event.
    rewrite !andb_true_iff, !refers_true. auto.
Qed.

Lemma save_task_statement :
  save_statement Task.id Task.created_at task_saved tasks
                 task_refs_ok save_task.
Proof.
  eapply save_shape_statement with (set_tbl := set_tasks) (fk := fk_task)
    (back := fun e _ _ => e); try reflexivity.
  - same_row.
  - same_entity.
  - intros e now db (H1 & H2 & H3). unfold fk_task.
    rewrite !andb_true_iff, !refers_true. auto.
  - intros e now k db r (H1 & H2 & H3). unfold fk_task.
    rewrite !andb_true_iff, !refers_true. auto.
Qed.

(** A method that binds the ints of the entity and then runs the
    statement. *)
Lemma guarded_save_contract (A : Type) (getid : A -> option Z)
    (created_at : A -> option datetime)
    (saved : Z -> option datetime -> datetime -> A -> A)
    (tbl : Database -> Table A) (refs_ok : A -> Database -> Prop)
    (ints : A -> list (option Z)) (save save' : datetime -> A -> M A) :
  save_statement getid created_at saved tbl refs_ok save ->
  (forall now e, save' now e = bind_params (ints e) (save now e)) ->
  save_contract getid created_at saved tbl refs_ok ints save'.
Proof.
  intros Hs Hg now e db. rewrite Hg. unfold bind_params.
  destruct (forallb binds (ints e)); [apply Hs|reflexivity].
Qed.


(** ** ORDER BY *)

Section OrderByFacts.
Variable A : Type.
Variable le : A -> A -> bool.

Lemma insert_sorted_perm x l : Permutation (insert_sorted le x l) (x :: l).
Proof.
induction l as [|y l IH]; simpl; [reflexivity|].
destruct (le x y); [reflexivity|].
rewrite IH. apply perm_swap.
Qed.

Lemma order_by_perm l : Permutation (order_by le l) l.
Proof.
induction l as [|x l IH]; simpl; [reflexivity|].
rewrite insert_sorted_perm. now constructor.
Qed.

Lemma order_by_in l x : In x (order_by le l) <-> In x l.
Proof.
split; apply Permutation_in; [|symmetry]; apply order_by_perm.
Qed.

Hypothesis le_total : forall a b, le a b = true \/ le b a = true.

Let R (a b : A) : Prop := le a b = true.

Lemma insert_sorted_hd x y l :
R y x -> HdRel R y l -> HdRel R y (insert_sorted le x l).
Proof.
intros Hyx Hhd. destruct l as [|z l]; simpl.
- now constructor.
- destruct (le x z); constructor; [assumption|]. now inversion Hhd.
Qed.

Lemma insert_sorted_sorted x l :
Sorted R l -> Sorted R (insert_sorted le x l).
Proof.
induction 1 as [|y l Hs IH Hhd]; simpl.
- repeat constructor.
- destruct (le x y) eqn:E.
+ constructor; [now constructor|]. now constructor.
+ constructor; [assumption|]. apply insert_sorted_hd; [|assumption].
destruct (le_total x y) as [H|H]; [congruence|exact H].
Qed.

Lemma order_by_sorted l : Sorted R (order_by le l).
Proof.
induction l as [|x l IH]; simpl; [constructor|].
now apply insert_sorted_sorted.
Qed.
End OrderByFacts.

Lemma Sorted_weaken (A : Type) (R S : A -> A -> Prop) l :
  (forall a b, R a b -> S a b) -> Sorted R l -> Sorted S l.
Proof.
  intros H. induction 1 as [|x l Hs IH Hhd]; constructor; [assumption|].
  destruct Hhd; constructor; auto.
Qed.

(** ** Pending tasks *)

Lemma nulls_first_le_total a b :
  nulls_first_le a b = true \/ nulls_first_le b a = true.
Proof. destruct a, b; simpl; auto. rewrite !Z.leb_le. lia. Qed.

Lemma task_le_total a b : task_le a b = true \/ task_le b a = true.
Proof.
  unfold task_le.
  destruct (Task.due_date a) as [x|], (Task.due_date b) as [y|]; auto.
  - destruct (Z.lt_trichotomy x y) as [H|[H|H]].
    + left. apply Z.ltb_lt in H. now rewrite H.
    + subst. rewrite Z.eqb_refl, !andb_true_l.
      destruct (nulls_first_le_total (Task.created_at a) (Task.created_at b)) as [E|E];
        rewrite E; rewrite orb_true_r; auto.
    + right. apply Z.ltb_lt in H. now rewrite H.
  - apply nulls_first_le_total.
Qed.

Lemma task_le_due a b : task_le a b = true -> due_le a b.
Proof.
  unfold task_le, due_le.
  destruct (Task.due_date a) as [x|], (Task.due_date b) as [y|]; simpl; auto.
  rewrite orb_true_iff, andb_true_iff, Z.ltb_lt, Z.eqb_eq, Z.leb_le. lia.
Qed.

Lemma due_le_trans : Relations_1.Transitive due_le.
Proof.
  intros a b c. unfold due_le.
  destruct (Task.due_date a), (Task.due_date b), (Task.due_date c); simpl;
    try discriminate; auto.
  rewrite !Z.leb_le. lia.
Qed.

Lemma task_pending_due_by end_date t :
  task_pending end_date t = true <-> due_by end_date t.
Proof.
  unfold task_pending, due_by. rewrite andb_true_iff, negb_true_iff.
  destruct (Task.due_date t); [rewrite Z.leb_le|]; tauto.
Qed.

(** C7 (amended).  When [today + days_ahead] is a date,
    [get_pending_tasks] returns, without touching the store, exactly the
    incomplete tasks that have no due date or a due date on or before
    [today + days_ahead] (a task that is overdue is among them), each as
    often as it is stored, ordered by due date with the tasks that have no
    due date last. *)
Theorem pending_tasks_due_by_end_date
    (today days_ahead : Z) (db : Database) :
  date_min <= today + days_ahead <= date_max ->
  exists l,
    get_pending_tasks today days_ahead db = (Ok l, db)
    /\ (forall t, In t l <->
                  In t (rows (tasks db)) /\ due_by (today + days_ahead) t)
    /\ Permutation l (filter (task_pending (today + days_ahead)) (rows (tasks db)))
    /\ StronglySorted due_le l.
Proof.
  intros Hrange.
  exists (order_by task_le
            (filter (task_pending (today + days_ahead)) (rows (tasks db)))).
  split.
  - unfold get_pending_tasks, bind, lift, date_add.
    replace ((date_min <=? today + days_ahead) && (today + days_ahead <=? date_max))
      with true; [reflexivity|].
    symmetry. apply andb_true_iff. rewrite !Z.leb_le. lia.
  - split; [|split].
    + intros t. rewrite order_by_in, filter_In, task_pending_due_by. tauto.
    + apply order_by_perm.
    + apply Sorted_StronglySorted; [exact due_le_trans|].
      apply Sorted_weaken with (R := fun a b => task_le a b = true);
        [exact task_le_due|].
      apply order_by_sorted. exact task_le_total.
Qed.

Lemma pending_tasks_due_by_end_date_witness :
  date_min <= 738895 + 7 <= date_max
  /\ exists l,
       get_pending_tasks 738895 7 farm_with_task = (Ok l, farm_with_task)
       /\ (forall t, In t l <->
                     In t (rows (tasks farm_with_task)) /\ due_by (738895 + 7) t)
       /\ Permutation l (filter (task_pending (738895 + 7))
                                (rows (tasks farm_with_task)))
       /\ StronglySorted due_le l.
Proof.
  split.
  - unfold date_min, date_max. lia.
  - apply (pending_tasks_due_by_end_date 738895 7 farm_with_task).
    unfold date_min, date_max. lia.
Defined.

(** C7 as stated fails: a task that was due yesterday is returned although
    its due date is not within the seven days from today, and a
    [days_ahead] that leads past the last date raises instead of
    returning. *)
Lemma pending_tasks_counterexample :
  (exists l t,
     get_pending_tasks 738895 7 farm_with_task = (Ok l, farm_with_task)
     /\ In t l /\ ~ due_within_window 738895 7 t)
  /\ fst (get_pending_tasks 738895 10000000 farm_with_task) = Raise OverflowError.
Proof.
  split; [|reflexivity].
  eexists. eexists. split; [reflexivity|]. split; [left; reflexivity|].
  unfold due_within_window, within_window. simpl. lia.
Qed.
(** ** Average daily gain *)

Lemma adg_between_cases pd pw d w :
  (d - pd > 0 /\ adg_between pd pw d w = Ok (Some ((w - pw) / inject_Z (d - pd))%Q))
  \/ (d - pd <= 0 /\ adg_between pd pw d w = Ok None).
Proof.
  unfold adg_between, truediv.
  destruct (d - pd >? 0) eqn:E.
  - left. apply Z.gtb_lt in E. split; [lia|].
    destruct (d - pd =? 0) eqn:E0; [apply Z.eqb_eq in E0; lia|reflexivity].
  - right. split; [|reflexivity]. rewrite Z.gtb_ltb in E. apply Z.ltb_ge in E. lia.
Qed.

Lemma adg_scan_total d w l : forall prev, exists r, adg_scan d w prev l = Ok r.
Proof.
  induction l as [|[d0 w0] l IH]; intros prev; simpl; [eauto|].
  destruct (d0 =? d); [|apply IH].
  destruct prev as [[pd pw]|]; [|eauto].
  destruct (adg_between_cases pd pw d w) as [[_ ->]|[_ ->]]; eauto.
Qed.

Lemma adg_scan_value d w l : forall prev v,
  adg_scan d w prev l = Ok (Some v) ->
  exists pd pw,
    (prev = Some (pd, pw) \/ In (pd, pw) l)
    /\ pd < d /\ v = ((w - pw) / inject_Z (d - pd))%Q.
Proof.
  induction l as [|[d0 w0] l IH]; intros prev v; simpl; [discriminate|].
  destruct (d0 =? d).
  - destruct prev as [[pd pw]|]; [|discriminate].
    destruct (adg_between_cases pd pw d w) as [[Hd ->]|[_ ->]]; [|discriminate].
    intros [= <-]. exists pd, pw. split; [now left|]. split; [lia|reflexivity].
  - intros H. apply IH in H. destruct H as (pd & pw & [H|H] & Hlt & Hv).
    + injection H as -> ->. exists pd, pw. split; [right; now left|]. auto.
    + exists pd, pw. split; [right; now right|]. auto.
Qed.

(** C3.  Two weighings with the same date yield no ADG value: the
    [days > 0] guard skips the division.  [_calculate_adg] therefore never
    raises [ZeroDivisionError], whatever it is given, and every value it
    returns is the gain since a weighing of a strictly earlier date divided
    by the positive number of days between the two. *)
Theorem adg_skips_zero_day_interval :
  (forall d prev_weight current_weight,
      adg_between d prev_weight d current_weight = Ok None)
  /\ (forall animal_id d w1 w2 current_weight,
        calculate_adg animal_id d current_weight [(animal_id, [(d, w1); (d, w2)])]
        = Ok None)
  /\ (forall animal_id current_date current_weight animal_weights,
        exists r,
          calculate_adg animal_id current_date current_weight animal_weights = Ok r)
  /\ (forall animal_id current_date current_weight animal_weights v,
        calculate_adg animal_id current_date current_weight animal_weights
        = Ok (Some v) ->
        exists prev_date prev_weight,
          In (prev_date, prev_weight) (dict_get animal_id animal_weights)
          /\ prev_date < current_date
          /\ v = ((current_weight - prev_weight)
                  / inject_Z (current_date - prev_date))%Q).
Proof.
  split; [|split; [|split]].
  - intros d pw cw.
    destruct (adg_between_cases d pw d cw) as [[H _]|[_ H]]; [lia|exact H].
  - intros animal_id d w1 w2 cw. unfold calculate_adg. simpl.
    rewrite Z.eqb_refl. simpl. rewrite Z.leb_refl. simpl.
    now rewrite Z.eqb_refl.
  - intros animal_id d w ws. unfold calculate_adg.
    destruct (_ <? _)%nat; [eauto|]. apply adg_scan_total.
  - intros animal_id d w ws v. unfold calculate_adg.
    destruct (_ <? _)%nat; [discriminate|]. intros H.
    apply adg_scan_value in H. destruct H as (pd & pw & [H|H] & Hlt & Hv);
      [discriminate|].
    exists pd, pw. split; [|auto]. now apply order_by_in in H.
Qed.

Lemma adg_skips_zero_day_interval_witness :
  calculate_adg 1 738905 110 [(1, [(738895, 100%Q); (738905, 110%Q)])]
    = Ok (Some ((110 - 100) / inject_Z (738905 - 738895))%Q)
  /\ exists prev_date prev_weight,
       In (prev_date, prev_weight)
          (dict_get 1 [(1, [(738895, 100%Q); (738905, 110%Q)])])
       /\ prev_date < 738905
       /\ ((110 - 100) / inject_Z (738905 - 738895))%Q
          = ((110 - prev_weight) / inject_Z (738905 - prev_date))%Q.
Proof.
  split; [reflexivity|].
  apply (proj2 (proj2 (proj2 adg_skips_zero_day_interval))
           1 738905 110%Q [(1, [(738895, 100%Q); (738905, 110%Q)])]).
  reflexivity.
Defined.

(** C2, evaluated.  With 100 kg on 2024-01-10 and 110 kg ten days later,
    [_calculate_adg] over both weighings gives 1 kg/day for the second, yet
    the table that [_load_weights] builds shows no ADG in either row: the
    events arrive newest first, and each is looked up among the weighings
    tracked so far, all of which are later.  A single weighing shows no ADG
    either. *)
Theorem load_weights_shows_no_adg :
  (exists v,
     calculate_adg 1 738905 110 [(1, [(738905, 110%Q); (738895, 100%Q)])]
       = Ok (Some v) /\ (v == 1)%Q)
  /\ (exists l,
        fst (WeightsView_load_weights None 738886 738946 farm_weighed) = Ok l
        /\ map (fun r => (row_date r, row_weight r, row_adg r)) l
           = [(738905, 110%Q, None); (738895, 100%Q, None)])
  /\ (exists l,
        fst (WeightsView_load_weights None 738886 738946 farm_weighed_once) = Ok l
        /\ map (fun r => (row_date r, row_weight r, row_adg r)) l
           = [(738895, 100%Q, None)]).
Proof.
  split; [|split].
  - eexists. split; [reflexivity|]. reflexivity.
  - eexists. split; reflexivity.
  - eexists. split; reflexivity.
Qed.
(** ** LIKE and substring search *)

Lemma like_percent p s :
  like (String "%" p) s
  = like p s || match s with
                | EmptyString => false
                | String _ s' => like (String "%" p) s'
                end.
Proof. destruct s; reflexivity. Qed.

Lemma like_percent_only s : like "%" s = true.
Proof.
  induction s as [|x s IH]; [reflexivity|].
  rewrite like_percent. rewrite IH. apply orb_true_r.
Qed.

Lemma like_literal_prefix q : forall s,
  wildcard_free q = true -> like (q ++ "%") s = prefix_nocase q s.
Proof.
  induction q as [|c q IH]; intros s Hq.
  - apply like_percent_only.
  - simpl in Hq. apply andb_true_iff in Hq. destruct Hq as [Hc Hq].
    apply andb_true_iff in Hc. destruct Hc as [H1 H2].
    apply negb_true_iff in H1, H2.
    simpl. rewrite H1. destruct s as [|x s]; [reflexivity|].
    rewrite H2. simpl. now rewrite IH.
Qed.

Lemma like_contains q s :
  wildcard_free q = true -> like ("%" ++ q ++ "%") s = contains_nocase q s.
Proof.
  intros Hq. change ("%" ++ q ++ "%")%string with (String "%" (q ++ "%")).
  induction s as [|x s IH]; rewrite like_percent, like_literal_prefix by assumption.
  - reflexivity.
  - rewrite IH. reflexivity.
Qed.


(** C6, evaluated.  The query is spliced into the LIKE pattern as it is, so
    its [_] and [%] act as wildcards: searching for an underscore, or for a
    percent sign, returns the animal tagged A1 with EID 982000411, which
    contains neither character. *)
Theorem search_animals_wildcards :
  exists a,
    fst (search_animals "_" farm) = Ok [a]
    /\ fst (search_animals "%" farm) = Ok [a]
    /\ Animal.visual_tag a = "A1"%string
    /\ Animal.eid a = "982000411"%string
    /\ contains_nocase "_" (Animal.eid a) = false
    /\ contains_nocase "_" (Animal.visual_tag a) = false
    /\ contains_nocase "%" (Animal.eid a) = false
    /\ contains_nocase "%" (Animal.visual_tag a) = false.
Proof.
  eexists. split; [reflexivity|]. repeat split.
Qed.
(** ** Withholding periods *)

Lemma whp_join_in db t e a p :
  In (t, e, a, p) (whp_join db) ->
  In t (rows (treatment_events db))
  /\ In e (rows (events db))
  /\ sql_eq (TreatmentEvent.event_id t) (Event.id e) = true
  /\ In a (rows (animals db))
  /\ sql_eq (Event.animal_id e) (Animal.id a) = true.
Proof.
  unfold whp_join. intros H.
  apply in_flat_map in H. destruct H as (t' & Ht & H).
  apply in_flat_map in H. destruct H as (e' & He & H).
  apply filter_In in He. destruct He as [He Hte].
  apply in_flat_map in H. destruct H as (a' & Ha & H).
  apply filter_In in Ha. destruct Ha as [Ha Hea].
  assert (t' = t /\ e' = e /\ a' = a) as (-> & -> & ->).
  { destruct (filter _ (rows (products db))) as [|p0 ps].
    - destruct H as [H|[]]. now inversion H.
    - apply in_map_iff in H. destruct H as (p1 & H & _). now inversion H. }
  auto.
Qed.

Lemma whp_join_intro db t e a :
  In t (rows (treatment_events db)) ->
  In e (rows (events db)) ->
  sql_eq (TreatmentEvent.event_id t) (Event.id e) = true ->
  In a (rows (animals db)) ->
  sql_eq (Event.animal_id e) (Animal.id a) = true ->
  exists p, In (t, e, a, p) (whp_join db).
Proof.
  intros Ht He Hte Ha Hea.
  assert (exists p,
            In (t, e, a, p)
               match filter (fun p => sql_eq (TreatmentEvent.product_id t) (Product.id p))
                            (rows (products db)) with
               | [] => [(t, e, a, None)]
               | ps => map (fun p => (t, e, a, Some p)) ps
               end) as [p Hp].
  { destruct (filter _ (rows (products db))) as [|p0 ps].
    - exists None. now left.
    - exists (Some p0). now left. }
  exists p. unfold whp_join.
  apply in_flat_map. exists t. split; [assumption|].
  apply in_flat_map. exists e. split; [apply filter_In; auto|].
  apply in_flat_map. exists a. split; [apply filter_In; auto|].
  exact Hp.
Qed.

Lemma on_whp_iff x a db :
  on_whp x a db <->
  exists t e an p,
    In (t, e, an, p) (whp_join db)
    /\ Animal.id an = Some a
    /\ whp_where x (t, e, an, p) = true.
Proof.
  unfold on_whp, get_animals_on_whp, query. split.
  - intros (l & row & Hl & Hin & Hid). injection Hl as <-.
    apply in_map_iff in Hin. destruct Hin as ([[[t e] an] p] & <- & Hj).
    apply order_by_in, filter_In in Hj. destruct Hj as [Hj Hw].
    exists t, e, an, p. auto.
  - intros (t & e & an & p & Hj & Hid & Hw).
    eexists. exists (whp_select (t, e, an, p)). split; [reflexivity|].
    split; [|exact Hid].
    apply in_map. apply order_by_in, filter_In. auto.
Qed.

Lemma whp_end_inv t n r :
  whp_end t n = Ok r -> r = end_after t n.
Proof.
  unfold whp_end, end_after, date_add.
  destruct (n >? 0); [|intros [= <-]; reflexivity].
  destruct (_ && _); [intros [= <-]; reflexivity|discriminate].
Qed.

Lemma whp_ends_inv product t ends :
  whp_ends (Some product) t = Ok ends -> ends = stored_ends product t.
Proof.
  unfold whp_ends, stored_ends.
  destruct (whp_end t (Product.meat_whp_days product)) as [m|] eqn:E1; [|discriminate].
  destruct (whp_end t (Product.milk_whp_days product)) as [k|] eqn:E2; [|discriminate].
  destruct (whp_end t (Product.esi_days product)) as [s|] eqn:E3; [|discriminate].
  apply whp_end_inv in E1, E2, E3. congruence.
Qed.


Lemma save_treatment_event_fresh now t a notes who tr db r db1 :
  TreatmentEvent.id tr = None ->
  save_treatment_event now (Event.mk None NOTE t (Some a) None notes who None) tr db
    = (r, db1) ->
  animals db1 = animals db
  /\ incl (rows (events db)) (rows (events db1))
  /\ incl (rows (treatment_events db)) (rows (treatment_events db1))
  /\ (forall x, r = Ok x ->
       treated a t (TreatmentEvent.meat_whp_end tr, TreatmentEvent.milk_whp_end tr,
                    TreatmentEvent.esi_end tr) db1).
Proof.
  intros Hid. unfold save_treatment_event, save_event, bind, sql_insert, ret.
  simpl. destruct (fk_event _ _); simpl.
  - rewrite Hid. destruct (fk_treatment_insert _ _); simpl; intros [= <- <-]; simpl.
    + split; [reflexivity|]. split; [apply incl_appl, incl_refl|].
      split; [apply incl_appl, incl_refl|]. intros x _.
      eexists. eexists. split; [apply in_or_app; right; left; reflexivity|].
      split; [apply in_or_app; right; left; reflexivity|].
      simpl. rewrite Z.eqb_refl. auto.
    + split; [reflexivity|]. split; [apply incl_appl, incl_refl|].
      split; [apply incl_refl|]. discriminate.
  - intros [= <- <-]. split; [reflexivity|]. split; [apply incl_refl|].
    split; [apply incl_refl|]. discriminate.
Qed.

Lemma treated_incl a t ends db db1 :
  incl (rows (events db)) (rows (events db1)) ->
  incl (rows (treatment_events db)) (rows (treatment_events db1)) ->
  treated a t ends db -> treated a t ends db1.
Proof.
  intros He Ht (tr & e & H1 & H2 & H). exists tr, e. auto.
Qed.

Lemma treat_each clock t notes who tr :
  TreatmentEvent.id tr = None ->
  forall animal_ids i db r db1,
    for_each (fun i animal_id =>
                save_treatment_event (clock i)
                  (Event.mk None NOTE t (Some animal_id) None notes who None) tr ;;;
                ret tt) i animal_ids db = (r, db1) ->
    animals db1 = animals db
    /\ incl (rows (events db)) (rows (events db1))
    /\ incl (rows (treatment_events db)) (rows (treatment_events db1))
    /\ (r = Ok tt ->
         forall a, In a animal_ids ->
           treated a t (TreatmentEvent.meat_whp_end tr, TreatmentEvent.milk_whp_end tr,
                        TreatmentEvent.esi_end tr) db1).
Proof.
  intros Hid l0. induction l0 as [|a0 l IH]; intros i db r db1; simpl.
  - intros [= <- <-]. split; [reflexivity|]. split; [apply incl_refl|].
    split; [apply incl_refl|]. intros _ a [].
  - unfold bind at 1. unfold bind at 1.
    destruct (save_treatment_event _ _ _ db) as [r0 db0] eqn:E0.
    destruct (save_treatment_event_fresh _ _ _ _ _ _ _ Hid E0) as (Ha & He & Ht & Hok).
    destruct r0 as [x|err]; simpl.
    + destruct (for_each _ (S i) l db0) as [r1 db2] eqn:E1.
      destruct (IH _ _ _ _ E1) as (Ha' & He' & Ht' & Hok').
      intros [= <- <-].
      split; [congruence|]. split; [eapply incl_tran; eauto|].
      split; [eapply incl_tran; eauto|].
      intros -> a [<-|Hin].
      * eapply treated_incl; eauto.
      * auto.
    + intros [= <- <-]. split; [assumption|]. split; [assumption|].
      split; [assumption|]. discriminate.
Qed.

Lemma dialog_accepted clock animal_ids form db db' product_id product :
  product_combo form = Some product_id ->
  select_id Product.id product_id (products db) = Some product ->
  QuickTreatmentDialog_on_accept clock animal_ids form db = (Ok true, db') ->
  animals db' = animals db
  /\ forall a, In a animal_ids ->
       treated a (date_edit form) (stored_ends product (date_edit form)) db'.
Proof.
  intros Hcombo Hprod. unfold QuickTreatmentDialog_on_accept. rewrite Hcombo.
  destruct (product_id =? 0); [discriminate|].
  unfold bind at 1. unfold get_product, query. rewrite Hprod.
  unfold bind at 1. unfold lift.
  destruct (whp_ends (Some product) (date_edit form)) as [[[meat milk] esi]|] eqn:E;
    [|discriminate].
  apply whp_ends_inv in E. rewrite <- E.
  unfold bind at 1.
  match goal with |- context [for_each ?body ?i ?l db] =>
    destruct (for_each body i l db) as [r db1] eqn:El end.
  apply (treat_each clock (date_edit form) (notes_edit form) (admin_edit form)
           (TreatmentEvent.mk None None (Some product_id) (batch_edit form)
              (dose_edit form) (route_combo form) (admin_edit form) meat milk esi)
           eq_refl) in El.
  destruct El as (Ha & _ & _ & Hok).
  destruct r as [[]|]; [|discriminate]. intros [= <-].
  split; [assumption|]. intros a Hin. apply (Hok eq_refl a Hin).
Qed.

Lemma on_or_after_end_after t n x :
  on_or_after (end_after t n) x = true <-> n > 0 /\ x <= t + n.
Proof.
  unfold end_after. destruct (n >? 0) eqn:E; simpl.
  - apply Z.gtb_lt in E. rewrite Z.leb_le. lia.
  - rewrite Z.gtb_ltb in E. apply Z.ltb_ge in E. split; [discriminate|lia].
Qed.

(** C1 (amended).  When the treatment dialog is accepted for a product with
    [meat_whp_days = d > 0], a day [t] and a list of animals that holds
    [a], the store holds a treatment of [a] with [meat_whp_end = t + d].
    If [a] is alive, [get_animals_on_whp(x)] lists it for every [x <= t + d].
    [get_animals_on_whp(t + d + 1)] does not list it provided the milk
    period and the export slaughter interval of the product are no longer
    than [d] and no other treatment of the animal is in force: the query
    keeps an animal while any of the three end dates is on or after the
    reference date. *)
Theorem whp_window_of_treatment
    (clock : nat -> datetime) (animal_ids : list Z) (form : TreatmentForm)
    (db db' : Database) (product_id : Z) (product : Product.t) (a : Z) :
  let t := date_edit form in
  let d := Product.meat_whp_days product in
  product_combo form = Some product_id ->
  select_id Product.id product_id (products db) = Some product ->
  d > 0 ->
  In a animal_ids ->
  QuickTreatmentDialog_on_accept clock animal_ids form db = (Ok true, db') ->
  alive a db' ->
  treated a t (stored_ends product t) db'
  /\ stored_ends product t
     = (Some (t + d), end_after t (Product.milk_whp_days product),
        end_after t (Product.esi_days product))
  /\ (forall x, x <= t + d -> on_whp x a db')
  /\ (Product.milk_whp_days product <= d ->
      Product.esi_days product <= d ->
      no_other_treatment_in_force (stored_ends product t) (t + d + 1) a db' ->
      ~ on_whp (t + d + 1) a db').
Proof.
  intros t d Hcombo Hprod Hd Hin Hacc (an & Han & Hid & Halive).
  destruct (dialog_accepted _ _ _ _ Hcombo Hprod Hacc) as [_ Htr].
  specialize (Htr a Hin). fold t in Htr.
  assert (end_after t d = Some (t + d)) as Hmeat.
  { unfold end_after. replace (d >? 0) with true; [reflexivity|].
    symmetry. apply Z.gtb_lt. lia. }
  split; [exact Htr|]. split.
  { unfold stored_ends. fold d. now rewrite Hmeat. }
  split.
  - intros x Hx. apply on_whp_iff.
    destruct Htr as (tr & e & Htr & He & Hte & Hea & _ & Hends).
    destruct (whp_join_intro db' tr e an Htr He Hte Han) as [p Hp].
    { rewrite Hea, Hid. simpl. apply Z.eqb_refl. }
    exists tr, e, an, p. split; [assumption|]. split; [assumption|].
    unfold whp_where. rewrite Halive. simpl.
    unfold stored_ends in Hends. injection Hends as Hm _ _.
    rewrite Hm. fold d. rewrite Hmeat. simpl.
    apply Z.leb_le in Hx. now rewrite Hx.
  - intros Hmilk Hesi Hother Hon. apply on_whp_iff in Hon.
    destruct Hon as (tr & e & an' & p & Hj & Hid' & Hw).
    destruct (Hother tr e an' p Hj Hid') as [Hends|Hf]; [|congruence].
    unfold whp_where in Hw. unfold stored_ends in Hends.
    injection Hends as Hm Hk Hs. rewrite Hm, Hk, Hs in Hw. fold d in Hw.
    apply andb_true_iff in Hw. destruct Hw as [_ Hw].
    rewrite !orb_true_iff, !on_or_after_end_after in Hw. lia.
Qed.

Lemma whp_window_of_treatment_witness :
  treated 1 738895 (Some 738923, Some 738902, Some 738923) station_treated
  /\ (forall x, x <= 738895 + 28 -> on_whp x 1 station_treated)
  /\ ~ on_whp (738895 + 28 + 1) 1 station_treated.
Proof.
  destruct (@whp_window_of_treatment (fun _ => 3) [1] vaccine_form station
              station_treated 1 vaccine_row 1)
    as (Htr & _ & Hin & Hout).
  - reflexivity.
  - reflexivity.
  - simpl. lia.
  - simpl. auto.
  - reflexivity.
  - eexists. split; [left; reflexivity|]. split; reflexivity.
  - split; [exact Htr|]. split; [exact Hin|].
    apply Hout.
    + simpl. lia.
    + simpl. lia.
    + intros t e an p Hj Hid. vm_compute in Hj.
      destruct Hj as [Hj|[]]. injection Hj as <- <- <- <-. left. reflexivity.
Defined.

(** C1 as stated fails: the product has [meat_whp_days = 28] and an export
    slaughter interval of 42 days; the animal was treated once, on
    2024-01-10, and [meat_whp_end] is 2024-02-07; yet the query as of
    2024-02-08 still lists the animal, because its [esi_end] is later. *)
Lemma whp_window_counterexample :
  Product.meat_whp_days drench = 28
  /\ rows (treatment_events farm_treated) = [drench_row]
  /\ TreatmentEvent.meat_whp_end drench_row = Some (738895 + 28)
  /\ alive 1 farm_treated
  /\ on_whp (738895 + 28 + 1) 1 farm_treated.
Proof.
  split; [reflexivity|]. split; [reflexivity|]. split; [reflexivity|]. split.
  - eexists. split; [left; reflexivity|]. split; reflexivity.
  - eexists. eexists. split; [reflexivity|]. split; [left; reflexivity|reflexivity].
Qed.
(** ** Deleting a mob *)

Lemma keyed_unique (A : Type) (getid : A -> option Z) (l : list A) x y k :
  NoDup (map getid l) -> In x l -> In y l ->
  getid x = Some k -> getid y = Some k -> x = y.
Proof.
  induction l as [|z l IH]; simpl; [tauto|].
  intros Hnd Hx Hy Hkx Hky. inversion Hnd as [|? ? Hnotin Hnd']; subst.
  destruct Hx as [->|Hx], Hy as [->|Hy]; auto.
  - exfalso. apply Hnotin. rewrite Hkx, <- Hky. now apply in_map.
  - exfalso. apply Hnotin. rewrite Hky, <- Hkx. now apply in_map.
Qed.

Lemma NoDup_map_filter (A B : Type) (f : A -> B) (p : A -> bool) l :
  NoDup (map f l) -> NoDup (map f (filter p l)).
Proof.
  induction l as [|x l IH]; simpl; [auto|].
  intros Hnd. inversion Hnd as [|? ? Hnotin Hnd']; subst.
  destruct (p x); simpl; [|auto].
  constructor; [|auto]. intros Hin. apply Hnotin.
  apply in_map_iff in Hin. destruct Hin as (y & Hy & Hin).
  apply filter_In in Hin. rewrite <- Hy. apply in_map. tauto.
Qed.

Lemma Forall2_refl_eq (A : Type) (R : A -> A -> Prop) l :
  (forall a, R a a) -> Forall2 R l l.
Proof. intros H. induction l; constructor; auto. Qed.

Lemma Forall2_map_r (A : Type) (R : A -> A -> Prop) (f : A -> A) l :
  (forall a, In a l -> R a (f a)) -> Forall2 R l (map f l).
Proof.
  induction l as [|x l IH]; simpl; intros H; constructor; auto.
Qed.

Lemma Forall2_in_impl (A B : Type) (R S : A -> B -> Prop) l l' :
  Forall2 R l l' -> (forall a b, In a l -> R a b -> S a b) -> Forall2 S l l'.
Proof.
  induction 1 as [|a b l l' Hab H IH]; intros HS; constructor.
  - apply HS; [now left|assumption].
  - apply IH. intros x y Hx. apply HS. now right.
Qed.

Lemma Forall2_trans_map (A : Type) (S T : A -> A -> Prop) (f : A -> A) l l' :
  Forall2 S (map f l) l' ->
  (forall a b, In a l -> S (f a) b -> T a b) ->
  Forall2 T l l'.
Proof.
  revert l'. induction l as [|x l IH]; simpl; intros l' H HT.
  - inversion H. constructor.
  - inversion H as [|? b ? l2 Hxb Hrest]; subst. constructor.
    + apply HT; auto.
    + apply IH; auto.
Qed.

Lemma unassign_step now x k db :
  Animal.id x = Some k ->
  (forall r, In r (rows (animals db)) -> Animal.id r = Some k -> r = x) ->
  (save_animal now (set_mob_id None x) db = (Raise IntegrityError, db))
  \/ (exists y,
        save_animal now (set_mob_id None x) db
        = (Ok y,
           set_animals
             (fun t => mkTable
                         (map (fun r => if has_id Animal.id k r
                                        then unassigned now r else r) (rows t))
                         (seq t))
             db)).
Proof.
  intros Hid Hx. unfold save_animal. simpl. rewrite Hid. unfold bind, ret.
  match goal with |- context [sql_update ?g ?tb ?s ?f k ?u db] =>
    destruct (sql_update_cases g tb s f k u db) as [-> | ->] end; [|now left].
  right. eexists. f_equal. unfold set_animals, update_row. f_equal. f_equal.
  apply map_ext_in. intros r Hr.
  destruct (has_id Animal.id k r) eqn:E; [|reflexivity].
  apply has_id_true in E. rewrite (Hx r Hr E). unfold unassigned.
  now rewrite Hid.
Qed.

Lemma among_cons x l a :
  among (x :: l) a = sql_eq (Animal.id x) (Animal.id a) || among l a.
Proof. reflexivity. Qed.

Lemma among_false l a k :
  Animal.id a = Some k -> ~ In (Some k) (map Animal.id l) -> among l a = false.
Proof.
  intros Ha Hnot. unfold among.
  destruct (existsb _ l) eqn:E; [|reflexivity].
  apply existsb_exists in E. destruct E as (x & Hx & Heq).
  apply sql_eq_true in Heq. destruct Heq as (j & Hj & Hj').
  exfalso. apply Hnot. rewrite Ha in Hj'. injection Hj' as ->.
  rewrite <- Hj. now apply in_map.
Qed.

Lemma has_id_sql_eq k (x a : Animal.t) :
  Animal.id x = Some k ->
  sql_eq (Animal.id x) (Animal.id a) = has_id Animal.id k a.
Proof.
  intros ->. unfold has_id. destruct (Animal.id a); simpl; [apply Z.eqb_sym|reflexivity].
Qed.

(** The loop of [unassign_animals], over animals [l] that are rows of the
    store. *)
Lemma unassign_loop clock : forall l i db r db1,
  NoDup (map Animal.id l) ->
  (forall x, In x l ->
     exists k, Animal.id x = Some k
               /\ forall r, In r (rows (animals db)) -> Animal.id r = Some k -> r = x) ->
  for_each (fun i animal => save_animal (clock i) (set_mob_id None animal) ;;; ret tt)
           i l db = (r, db1) ->
  mobs db1 = mobs db
  /\ Forall2 (fun a a' => a' = a \/ (among l a = true /\ exists u, a' = unassigned u a))
             (rows (animals db)) (rows (animals db1))
  /\ (r = Ok tt ->
      Forall2 (fun a a' => if among l a then exists u, a' = unassigned u a else a' = a)
              (rows (animals db)) (rows (animals db1))).
Proof.
  induction l as [|x l IH]; intros i db r db1 Hnd HP; simpl.
  - intros [= <- <-]. split; [reflexivity|].
    split; [|intros _]; apply Forall2_refl_eq; auto.
  - inversion Hnd as [|? ? Hnotin Hnd']; subst.
    destruct (HP x (or_introl eq_refl)) as (k & Hk & Hx).
    unfold bind at 1. unfold bind at 1.
    destruct (unassign_step (clock i) db Hk Hx) as [->|[y ->]]; simpl.
    + intros [= <- <-]. split; [reflexivity|].
      split; [apply Forall2_refl_eq; auto|discriminate].
    + set (step := fun r0 => if has_id Animal.id k r0
                             then unassigned (clock i) r0 else r0).
      set (db0 := set_animals _ db).
      intros Hrest.
      assert (forall r0, Animal.id (step r0) = Animal.id r0) as Hstep_id.
      { intros r0. unfold step. now destruct (has_id Animal.id k r0). }
      assert (forall a, has_id Animal.id k a = true -> among l (step a) = false)
        as Hdone.
      { intros a Ha. apply has_id_true in Ha. apply among_false with (k := k).
        - now rewrite Hstep_id.
        - now rewrite <- Hk. }
      destruct (IH (S i) db0 r db1 Hnd') as (Hm & Hany & Hok); [|exact Hrest|].
      { intros x' Hx'. destruct (HP x' (or_intror Hx')) as (k' & Hk' & Hx'u).
        exists k'. split; [assumption|]. intros r0 Hr0 Hid0.
        simpl in Hr0. apply in_map_iff in Hr0. destruct Hr0 as (r1 & <- & Hr1).
        fold (step r1) in *. rewrite Hstep_id in Hid0.
        assert (has_id Animal.id k r1 = false) as E.
        { destruct (has_id Animal.id k r1) eqn:E; [|reflexivity].
          apply has_id_true in E. exfalso. apply Hnotin.
          rewrite Hk, <- E, Hid0, <- Hk'. now apply in_map. }
        unfold step. rewrite E. auto. }
      split; [exact Hm|]. split.
      * eapply Forall2_trans_map; [exact Hany|]. intros a b _.
        rewrite (@has_id_sql_eq k x a Hk).
        destruct (has_id Animal.id k a) eqn:E.
        -- rewrite (Hdone a E). unfold step. rewrite E.
           intros [->|[Hf _]]; [|discriminate]. right. simpl. eauto.
        -- unfold step. rewrite E. simpl. auto.
      * intros Hr. specialize (Hok Hr).
        eapply Forall2_trans_map; [exact Hok|]. intros a b _.
        rewrite (@has_id_sql_eq k x a Hk).
        destruct (has_id Animal.id k a) eqn:E.
        -- rewrite (Hdone a E). unfold step. rewrite E. simpl. intros ->. eauto.
        -- unfold step. rewrite E. simpl. auto.
Qed.

Lemma unassign_animals_spec clock m db r db1 :
  keyed Animal.id (rows (animals db)) ->
  unassign_animals clock m db = (r, db1) ->
  mobs db1 = mobs db
  /\ Forall2 (fun a a' => a' = a
                          \/ (Animal.mob_id a = Some m
                              /\ exists u, a' = unassigned u a))
             (rows (animals db)) (rows (animals db1))
  /\ (r = Ok tt ->
      Forall2 (fun a a' => if sql_eq (Animal.mob_id a) (Some m)
                           then exists u, a' = unassigned u a else a' = a)
              (rows (animals db)) (rows (animals db1))).
Proof.
  intros [Hnd Hnone]. unfold unassign_animals, get_animals_by_mob.
  unfold bind at 1. unfold query.
  set (in_mob := fun a => sql_eq (Animal.mob_id a) (Some m)).
  set (l := order_by animal_le (filter in_mob (rows (animals db)))).
  intros Hloop.
  assert (forall x, In x l <-> In x (rows (animals db)) /\ in_mob x = true) as Hl.
  { intros x. unfold l. now rewrite order_by_in, filter_In. }
  assert (forall a, In a (rows (animals db)) -> among l a = in_mob a) as Hamong.
  { intros a Ha. destruct (Animal.id a) as [k|] eqn:Hk.
    2:{ exfalso. apply Hnone. rewrite <- Hk. now apply in_map. }
    destruct (in_mob a) eqn:E.
    - apply existsb_exists. exists a. split; [apply Hl; auto|].
      rewrite Hk. simpl. apply Z.eqb_refl.
    - destruct (among l a) eqn:E'; [|reflexivity].
      apply existsb_exists in E'. destruct E' as (x & Hx & Heq).
      apply Hl in Hx. destruct Hx as [Hx Hm].
      apply sql_eq_true in Heq. destruct Heq as (j & Hj & Hj').
      assert (x = a) by (eapply keyed_unique; eauto). subst. congruence. }
  apply unassign_loop in Hloop.
  - destruct Hloop as (Hm & Hany & Hok). split; [exact Hm|]. split.
    + eapply Forall2_in_impl; [exact Hany|]. intros a b Ha [->|[Hin Hu]]; [now left|].
      right. split; [|exact Hu]. rewrite (Hamong a Ha) in Hin.
      apply sql_eq_true in Hin. destruct Hin as (j & Hj & [= <-]). exact Hj.
    + intros Hr. eapply Forall2_in_impl; [exact (Hok Hr)|]. intros a b Ha.
      cbv beta. rewrite (Hamong a Ha). auto.
  - apply Permutation_NoDup with (l := map Animal.id (filter in_mob (rows (animals db)))).
    + apply Permutation_map. symmetry. apply order_by_perm.
    + now apply NoDup_map_filter.
  - intros x Hx. apply Hl in Hx. destruct Hx as [Hx _].
    destruct (Animal.id x) as [k|] eqn:Hk.
    2:{ exfalso. apply Hnone. rewrite <- Hk. now apply in_map. }
    exists k. split; [reflexivity|]. intros r0 Hr0 Hid0.
    eapply keyed_unique; eauto.
Qed.

(** C8 (amended).  Whatever [_on_delete_mob] does on a mob [m], every
    animal of the store is still there afterwards, in its place, and is
    either untouched or was in the mob and now differs from what it was in
    its mob reference, which is [None], and in [updated_at], which is the
    time of the save, and in nothing else.  When the deletion is confirmed
    and goes through, the animals of the mob were all unassigned first, in
    a store that still held the mob row, and only then was the mob row
    deleted. *)
Theorem delete_mob_keeps_animals
    (clock : nat -> datetime) (m : Z) (reply : bool) (db db' : Database)
    (r : result unit) :
  keyed Animal.id (rows (animals db)) ->
  MobsView_on_delete_mob clock (Some m) reply db = (r, db') ->
  Forall2 (fun a a' => a' = a
                       \/ (Animal.mob_id a = Some m
                           /\ exists u, a' = unassigned u a))
          (rows (animals db)) (rows (animals db'))
  /\ (reply = true -> m <> 0 -> r = Ok tt ->
      exists db1,
        unassign_animals clock m db = (Ok tt, db1)
        /\ mobs db1 = mobs db
        /\ Forall2 (fun a a' => if sql_eq (Animal.mob_id a) (Some m)
                                then exists u, a' = unassigned u a else a' = a)
                   (rows (animals db)) (rows (animals db1))
        /\ delete_mob m db1 = (Ok tt, db')
        /\ animals db' = animals db1
        /\ mobs db' = delete_row Mob.id m (mobs db)).
Proof.
  intros Hkeyed. unfold MobsView_on_delete_mob.
  destruct (m =? 0) eqn:Em.
  { intros [= <- <-]. split; [apply Forall2_refl_eq; auto|].
    apply Z.eqb_eq in Em. intros _ Hm. contradiction. }
  unfold bind at 1. unfold get_mob, query.
  destruct (select_id Mob.id m (mobs db)) as [mob|].
  2:{ intros [= <- <-]. split; [apply Forall2_refl_eq; auto|discriminate]. }
  unfold bind at 1. unfold get_mob_animal_count, query.
  destruct reply.
  2:{ intros [= <- <-]. split; [apply Forall2_refl_eq; auto|discriminate]. }
  unfold bind at 1.
  destruct (unassign_animals clock m db) as [r1 db1] eqn:Eu.
  destruct (unassign_animals_spec _ _ _ Hkeyed Eu) as (Hm & Hany & Hok).
  destruct r1 as [[]|err].
  - unfold delete_mob.
    match goal with |- context [sql_delete ?g ?s m ?c db1] =>
      destruct (sql_delete_cases g s m c db1) as [E | E]; rewrite E end;
      intros [= <- <-].
    + split; [exact Hany|]. intros _ _ _. exists db1.
      split; [reflexivity|]. split; [exact Hm|]. split; [exact (Hok eq_refl)|].
      split; [exact E|]. split; [reflexivity|]. simpl. now rewrite Hm.
    + split; [exact Hany|]. discriminate.
  - intros [= <- <-]. split; [exact Hany|]. discriminate.
Qed.

Lemma delete_mob_keeps_animals_witness :
  keyed Animal.id (rows (animals yard))
  /\ MobsView_on_delete_mob (fun _ => 9) (Some 1) true yard
     = (Ok tt, exec (MobsView_on_delete_mob (fun _ => 9) (Some 1) true) yard)
  /\ Forall2 (fun a a' => a' = a
                          \/ (Animal.mob_id a = Some 1
                              /\ exists u, a' = unassigned u a))
             (rows (animals yard))
             (rows (animals (exec (MobsView_on_delete_mob (fun _ => 9) (Some 1) true)
                                  yard)))
  /\ rows (mobs (exec (MobsView_on_delete_mob (fun _ => 9) (Some 1) true) yard)) = [].
Proof.
  assert (keyed Animal.id (rows (animals yard))) as Hkeyed.
  { split.
    - simpl. repeat constructor; simpl; intuition discriminate.
    - simpl. intuition discriminate. }
  split; [exact Hkeyed|]. split; [reflexivity|].
  destruct (@delete_mob_keeps_animals (fun _ => 9) 1 true yard
              (exec (MobsView_on_delete_mob (fun _ => 9) (Some 1) true) yard)
              (Ok tt) Hkeyed eq_refl) as [Hall Hdel].
  split; [exact Hall|].
  destruct Hdel as (db1 & _ & _ & _ & _ & _ & Hmobs);
    [reflexivity | discriminate | reflexivity |].
  rewrite Hmobs. reflexivity.
Defined.

(** C8 as stated fails: the steer W3 is in mob 1 and was last updated at
    tick 3; after the mob is deleted at tick 9 the store does not hold the
    steer with only its mob reference cleared, it holds it with
    [updated_at = 9] as well. *)
Lemma delete_mob_counterexample :
  In weaner_row (rows (animals yard))
  /\ Animal.mob_id weaner_row = Some 1
  /\ fst (MobsView_on_delete_mob (fun _ => 9) (Some 1) true yard) = Ok tt
  /\ ~ In (set_mob_id None weaner_row)
          (rows (animals (exec (MobsView_on_delete_mob (fun _ => 9) (Some 1) true)
                               yard)))
  /\ In (unassigned 9 weaner_row)
        (rows (animals (exec (MobsView_on_delete_mob (fun _ => 9) (Some 1) true)
                             yard)))
  /\ Animal.updated_at (unassigned 9 weaner_row) <> Animal.updated_at weaner_row.
Proof.
  split; [right; left; reflexivity|]. split; [reflexivity|].
  split; [reflexivity|]. split.
  - vm_compute. intros [H|[H|[]]]; discriminate.
  - split; [right; left; reflexivity|]. discriminate.
Qed.
(** ** Typed events and their detail rows *)

Lemma save_event_id now e db ev db0 :
  save_event now e db = (Ok ev, db0) -> exists k, Event.id ev = Some k.
Proof.
  unfold save_event. destruct (Event.id e) as [k|] eqn:Hk.
  - unfold bind, ret.
    match goal with |- context [sql_update ?g ?tb ?s ?f k ?u db] =>
      destruct (sql_update_cases g tb s f k u db) as [-> | ->] end;
      intros [= <- _]; eauto.
  - unfold bind, ret.
    match goal with |- context [sql_insert ?g ?tb ?s ?f ?u db] =>
      destruct (sql_insert_cases g tb s f u db) as [-> | ->] end;
      intros [= <- _]; simpl; eauto.
Qed.

Lemma save_event_detail_keys now e ty :
  preserves (detail_keys ty) (save_event now e).
Proof. destruct ty; frame. Qed.

Lemma update_keeps_keys (A : Type) (getid col : A -> option Z) k f (t : Table A) :
  (forall r, col (f r) = col r) ->
  map col (rows (update_row getid k f t)) = map col (rows t).
Proof.
  intros H. simpl. rewrite map_map. apply map_ext. intros r.
  destruct (has_id getid k r); [apply H|reflexivity].
Qed.

Lemma save_treatment_event_effect now e t db ty :
  match fst (save_treatment_event now e t db) with
  | Ok (ev, _) =>
      exists k, Event.id ev = Some k
        /\ detail_keys ty (snd (save_treatment_event now e t db))
           = detail_keys ty db
             ++ (if is_none (TreatmentEvent.id t) && EventType_eqb ty TREATMENT
                 then [Some k] else [])
  | Raise _ =>
      detail_keys ty (snd (save_treatment_event now e t db)) = detail_keys ty db
  end.
Proof.
  unfold save_treatment_event, bind.
  pose proof (save_event_detail_keys now (set_event_type TREATMENT e) ty db) as Ev.
  destruct (save_event now (set_event_type TREATMENT e) db) as [[ev|err] db0] eqn:E;
    simpl in Ev; [|exact Ev].
  destruct (save_event_id _ _ _ E) as [k Hk].
  destruct (TreatmentEvent.id t) as [j|].
  - match goal with |- context [sql_update ?g ?tb ?s ?f ?k ?u ?db] =>
      destruct (sql_update_cases g tb s f k u db) as [-> | ->] end; simpl;
      [|exact Ev].
    exists k. split; [exact Hk|]. rewrite app_nil_r, <- Ev.
    destruct ty; try reflexivity.
    apply (update_keeps_keys TreatmentEvent.id TreatmentEvent.event_id).
    reflexivity.
  - match goal with |- context [sql_insert ?g ?tb ?s ?f ?u ?db] =>
      destruct (sql_insert_cases g tb s f u db) as [-> | ->] end; simpl;
      [|exact Ev].
    exists k. split; [exact Hk|]. rewrite <- Ev.
    destruct ty; simpl; rewrite ?app_nil_r; try reflexivity.
    rewrite map_app. simpl. now rewrite Hk.
Qed.

Lemma save_movement_event_effect now e m db ty :
  match fst (save_movement_event now e m db) with
  | Ok (ev, _) =>
      exists k, Event.id ev = Some k
        /\ detail_keys ty (snd (save_movement_event now e m db))
           = detail_keys ty db
             ++ (if is_none (MovementEvent.id m) && EventType_eqb ty MOVEMENT
                 then [Some k] else [])
  | Raise _ =>
      detail_keys ty (snd (save_movement_event now e m db)) = detail_keys ty db
  end.
Proof.
  unfold save_movement_event, bind.
  pose proof (save_event_detail_keys now (set_event_type MOVEMENT e) ty db) as Ev.
  destruct (save_event now (set_event_type MOVEMENT e) db) as [[ev|err] db0] eqn:E;
    simpl in Ev; [|exact Ev].
  destruct (save_event_id _ _ _ E) as [k Hk].
  destruct (MovementEvent.id m) as [j|].
  - match goal with |- context [sql_update ?g ?tb ?s ?f ?k ?u ?db] =>
      destruct (sql_update_cases g tb s f k u db) as [-> | ->] end; simpl;
      [|exact Ev].
    exists k. split; [exact Hk|]. rewrite app_nil_r, <- Ev.
    destruct ty; try reflexivity.
    apply (update_keeps_keys MovementEvent.id MovementEvent.event_id).
    reflexivity.
  - match goal with |- context [sql_insert ?g ?tb ?s ?f ?u ?db] =>
      destruct (sql_insert_cases g tb s f u db) as [-> | ->] end; simpl;
      [|exact Ev].
    exists k. split; [exact Hk|]. rewrite <- Ev.
    destruct ty; simpl; rewrite ?app_nil_r; try reflexivity.
    rewrite map_app. simpl. now rewrite Hk.
Qed.

Lemma save_weigh_event_effect now e g db ty :
  match fst (save_weigh_event now e g db) with
  | Ok (ev, _) =>
      exists k, Event.id ev = Some k
        /\ detail_keys ty (snd (save_weigh_event now e g db))
           = detail_keys ty db
             ++ (if is_none (WeighEvent.id g) && EventType_eqb ty WEIGH
                 then [Some k] else [])
  | Raise _ =>
      detail_keys ty (snd (save_weigh_event now e g db)) = detail_keys ty db
  end.
Proof.
  unfold save_weigh_event, bind.
  pose proof (save_event_detail_keys now (set_event_type WEIGH e) ty db) as Ev.
  destruct (save_event now (set_event_type WEIGH e) db) as [[ev|err] db0] eqn:E;
    simpl in Ev; [|exact Ev].
  destruct (save_event_id _ _ _ E) as [k Hk].
  destruct (WeighEvent.id g) as [j|].
  - match goal with |- context [sql_update ?g ?tb ?s ?f ?k ?u ?db] =>
      destruct (sql_update_cases g tb s f k u db) as [-> | ->] end; simpl;
      [|exact Ev].
    exists k. split; [exact Hk|]. rewrite app_nil_r, <- Ev.
    destruct ty; try reflexivity.
    apply (update_keeps_keys WeighEvent.id WeighEvent.event_id).
    reflexivity.
  - match goal with |- context [sql_insert ?g ?tb ?s ?f ?u ?db] =>
      destruct (sql_insert_cases g tb s f u db) as [-> | ->] end; simpl;
      [|exact Ev].
    exists k. split; [exact Hk|]. rewrite <- Ev.
    destruct ty; simpl; rewrite ?app_nil_r; try reflexivity.
    rewrite map_app. simpl. now rewrite Hk.
Qed.

Lemma other_ops_keep_detail_keys o ty db :
  (forall now e t, o <> SaveTreatmentEvent now e t) ->
  (forall now e m, o <> SaveMovementEvent now e m) ->
  (forall now e g, o <> SaveWeighEvent now e g) ->
  detail_keys ty (run o db) = detail_keys ty db.
Proof.
  intros H1 H2 H3.
  destruct o;
    try solve [exfalso; eapply H1; reflexivity
              | exfalso; eapply H2; reflexivity
              | exfalso; eapply H3; reflexivity];
    unfold run, exec;
    match goal with
    | |- _ (snd (?m db)) = _ =>
        revert db; change (preserves (detail_keys ty) m); destruct ty; frame
    end.
Qed.

Lemma typed_step_effect (A : Type) ty ty0 (new : bool)
    (out : result (Event.t * A) * Database) w :
  match fst out with
  | Ok (ev, _) =>
      exists k, Event.id ev = Some k
        /\ detail_keys ty (snd out)
           = detail_keys ty (store w)
             ++ (if new && EventType_eqb ty ty0 then [Some k] else [])
  | Raise _ => detail_keys ty (snd out) = detail_keys ty (store w)
  end ->
  step_effect ty w (mkWorld (snd out) (record_typed ty0 new (fst out) (recorded w))).
Proof.
  unfold step_effect. simpl. destruct (fst out) as [[ev d]|err]; simpl.
  - intros (k & Hk & Hkeys). rewrite Hk.
    destruct new; simpl in Hkeys.
    + destruct (EventType_eqb ty ty0) eqn:E.
      * apply EventType_eqb_eq in E. subst. right. eauto.
      * rewrite app_nil_r in Hkeys. left. split; [assumption|].
        right. exists k, ty0, true. split; [reflexivity|].
        intros _ ->. destruct ty; discriminate.
    + rewrite app_nil_r in Hkeys. left. split; [assumption|].
      right. exists k, ty0, false. split; [reflexivity|discriminate].
  - intros Hkeys. left. auto.
Qed.

Lemma step_has_effect o ty w : step_effect ty w (step o w).
Proof.
  destruct o;
    try (left; split; [apply other_ops_keep_detail_keys; discriminate | now left]).
  - apply typed_step_effect. apply save_movement_event_effect.
  - apply typed_step_effect. apply save_treatment_event_effect.
  - apply typed_step_effect. apply save_weigh_event_effect.
Qed.

Lemma save_event_forces now e db ev db0 :
  save_event now e db = (Ok ev, db0) ->
  forces_type (Event.event_type e) ev db0.
Proof.
  unfold save_event, forces_type. destruct (Event.id e) as [k|] eqn:Hk.
  - unfold bind, ret.
    match goal with |- context [sql_update ?g ?tb ?s ?f k ?u db] =>
      destruct (sql_update_cases g tb s f k u db) as [-> | ->] end;
      intros [= <- <-]; split; [reflexivity|].
    intros row Hin Hid. simpl in Hin. apply in_map_iff in Hin.
    destruct Hin as (r0 & <- & _).
    destruct (has_id Event.id k r0) eqn:E; [reflexivity|].
    exfalso. rewrite Hk in Hid.
    apply has_id_true in Hid. congruence.
  - unfold bind, ret.
    match goal with |- context [sql_insert ?g ?tb ?s ?f ?u db] =>
      destruct (sql_insert_cases g tb s f u db) as [-> | ->] end;
      intros [= <- <-]; split; [reflexivity|].
    intros row Hin Hid. simpl in Hin, Hid. apply in_app_or in Hin.
    destruct Hin as [Hin|[<-|[]]]; [|reflexivity].
    exfalso. exact (next_rowid_fresh Event.id (events db) row Hin Hid).
Qed.

Lemma typed_save_forces (A : Type) ty now e db (detail : Event.t -> M (Event.t * A))
    ev d db' :
  (forall ev0, preserves events (detail ev0)) ->
  (forall ev0 ev1 d1 db0 db1, detail ev0 db0 = (Ok (ev1, d1), db1) -> ev1 = ev0) ->
  bind (save_event now (set_event_type ty e)) detail db = (Ok (ev, d), db') ->
  forces_type ty ev db'.
Proof.
  intros Hpres Hsame. unfold bind.
  destruct (save_event now (set_event_type ty e) db) as [[ev0|err] db0] eqn:E;
    [|discriminate].
  intros Hd. pose proof (Hpres ev0 db0) as Hev. rewrite Hd in Hev. simpl in Hev.
  apply Hsame in Hd. subst ev0.
  apply save_event_forces in E. destruct E as [Hty Hrows].
  split; [exact Hty|]. rewrite Hev. exact Hrows.
Qed.

Ltac detail_returns_event :=
  intros ev0 ev1 d1 db0 db1; unfold bind, ret;
  match goal with
  | |- context [match ?x with Some _ => _ | None => _ end] => destruct x
  end;
  match goal with
  | |- context [sql_update ?g ?tb ?s ?f ?k ?u db0] =>
      destruct (sql_update_cases g tb s f k u db0) as [-> | ->]
  | |- context [sql_insert ?g ?tb ?s ?f ?u db0] =>
      destruct (sql_insert_cases g tb s f u db0) as [-> | ->]
  end; congruence.

(** C9 (amended).  In every store reachable through the operations of the
    persistence layer, a subtype detail row attached to an event exists
    only if that event was recorded through the typed save operation of
    the subtype; and an event recorded through a typed save operation that
    was passed a new detail record has its detail row.  Every typed save
    operation that returns has forced the event it returns, and the event
    rows with that id, to the subtype it saves. *)
Theorem detail_rows_come_from_typed_saves :
  (forall w, reachable w ->
     (forall ty k, has_detail ty k (store w) -> was_recorded ty k w)
     /\ (forall ty k, In (mkRecorded k ty true) (recorded w) ->
                      has_detail ty k (store w)))
  /\ (forall now e m db ev m' db',
        save_movement_event now e m db = (Ok (ev, m'), db') ->
        forces_type MOVEMENT ev db')
  /\ (forall now e t db ev t' db',
        save_treatment_event now e t db = (Ok (ev, t'), db') ->
        forces_type TREATMENT ev db')
  /\ (forall now e g db ev g' db',
        save_weigh_event now e g db = (Ok (ev, g'), db') ->
        forces_type WEIGH ev db').
Proof.
  split; [|split; [|split]].
  - induction 1 as [|o w Hw [IHa IHb]].
    + split; intros ty k H; [destruct ty|]; destruct H.
    + split; intros ty k H; unfold has_detail, was_recorded in *;
        destruct (step_has_effect o ty w)
          as [[Hk [Hl|(k0 & ty' & f & Hl & Hf)]]|(k0 & Hk & Hl)];
        rewrite ?Hk, ?Hl in *.
      * auto.
      * destruct (IHa ty k H) as [b Hb]. exists b. now right.
      * apply in_app_or in H. destruct H as [H|[H|[]]].
        -- destruct (IHa ty k H) as [b Hb]. exists b. now right.
        -- injection H as ->. exists true. now left.
      * auto.
      * destruct H as [H|H]; [|auto].
        injection H as -> -> ->. exfalso. now apply Hf.
      * apply in_or_app. destruct H as [H|H].
        -- injection H as ->. right. now left.
        -- left. auto.
  - intros now e m db ev m' db'. unfold save_movement_event.
    apply typed_save_forces; [intros; frame | detail_returns_event].
  - intros now e t db ev t' db'. unfold save_treatment_event.
    apply typed_save_forces; [intros; frame | detail_returns_event].
  - intros now e g db ev g' db'. unfold save_weigh_event.
    apply typed_save_forces; [intros; frame | detail_returns_event].
Qed.

Lemma two_visits_reachable : reachable two_visits.
Proof. unfold two_visits. repeat apply reachable_step. apply reachable_initial. Qed.

Lemma detail_rows_come_from_typed_saves_witness :
  reachable two_visits
  /\ has_detail TREATMENT 1 (store two_visits)
  /\ was_recorded TREATMENT 1 two_visits
  /\ save_treatment_event 3 first_visit new_detail farm
     = (Ok (Event.mk (Some 1) TREATMENT 738895 (Some 1) None EmptyString "Sam" (Some 3),
            drench_row),
        exec (save_treatment_event 3 first_visit new_detail) farm)
  /\ forces_type TREATMENT
       (Event.mk (Some 1) TREATMENT 738895 (Some 1) None EmptyString "Sam" (Some 3))
       (exec (save_treatment_event 3 first_visit new_detail) farm).
Proof.
  destruct detail_rows_come_from_typed_saves as (Hinv & _ & Htr & _).
  assert (reachable two_visits) as Hr.
  { unfold two_visits. repeat apply reachable_step. apply reachable_initial. }
  assert (has_detail TREATMENT 1 (store two_visits)) as Hd.
  { apply (proj2 (Hinv two_visits Hr)). right. left. reflexivity. }
  split; [exact Hr|]. split; [exact Hd|].
  split; [exact (proj1 (Hinv two_visits Hr) TREATMENT 1 Hd)|].
  split; [reflexivity|].
  apply (Htr 3 first_visit new_detail farm _ drench_row). reflexivity.
Defined.

(** C9 as stated fails in a reachable store: the second visit was recorded
    through [save_treatment_event], which returned, and its event row has
    type treatment; but the call was passed the detail record of the first
    visit, so it updated that row, which stays attached to the first
    event, and the second event has no detail row. *)
Lemma detail_iff_recorded_counterexample :
  reachable two_visits
  /\ In second_visit_row (rows (events (store two_visits)))
  /\ was_recorded TREATMENT 2 two_visits
  /\ ~ has_detail TREATMENT 2 (store two_visits)
  /\ ~ detail_iff_recorded two_visits.
Proof.
  assert (was_recorded TREATMENT 2 two_visits) as Hrec.
  { exists false. left. reflexivity. }
  assert (~ has_detail TREATMENT 2 (store two_visits)) as Hno.
  { vm_compute. intros [H|[]]. discriminate. }
  split; [exact two_visits_reachable|].
  split; [right; left; reflexivity|].
  split; [exact Hrec|]. split; [exact Hno|].
  intros H. apply Hno.
  apply (H second_visit_row 2); [right; left; reflexivity | reflexivity | | exact Hrec].
  right. left. reflexivity.
Qed.
(** ** The weights table never shows a gain *)

Ltac eqb_cases :=
  repeat match goal with
         | |- context [?x =? ?y] => destruct (Z.eqb_spec x y)
         | H : context [?x =? ?y] |- _ => destruct (Z.eqb_spec x y)
         end;
  subst; simpl in *; try congruence; try reflexivity; auto.

Lemma dict_get_append a x k d :
  dict_mem a d = true ->
  dict_get k (dict_append a x d)
  = if k =? a then dict_get a d ++ [x] else dict_get k d.
Proof.
  induction d as [|[j v] d IH]; simpl; [discriminate|].
  intros Hm. destruct (Z.eqb_spec j a) as [->|Hja]; simpl.
  - eqb_cases.
  - simpl in Hm. rewrite IH by assumption. eqb_cases.
Qed.

Lemma dict_get_new a k d :
  dict_mem a d = false ->
  dict_get k (d ++ [(a, [])]) = dict_get k d.
Proof.
  intros Hm. induction d as [|[j v] d IH]; simpl in *.
  - eqb_cases.
  - apply orb_false_iff in Hm. destruct Hm as [_ Hm]. rewrite IH by assumption.
    reflexivity.
Qed.

Lemma dict_mem_new a d : dict_mem a (d ++ [(a, [])]) = true.
Proof.
  induction d as [|[j v] d IH]; simpl.
  - now rewrite Z.eqb_refl.
  - rewrite IH. apply orb_true_r.
Qed.

Lemma dict_get_track a x k d :
  dict_get k (track a x d)
  = if k =? a then dict_get a d ++ [x] else dict_get k d.
Proof.
  unfold track. destruct (dict_mem a d) eqn:Hm.
  - now apply dict_get_append.
  - rewrite dict_get_append by apply dict_mem_new.
    now rewrite !dict_get_new.
Qed.

Lemma in_firstn (A : Type) (x : A) n : forall l, In x (firstn n l) -> In x l.
Proof.
  induction n as [|n IH]; intros [|y l]; simpl; try tauto.
  intros [H|H]; auto.
Qed.

Lemma StronglySorted_firstn (A : Type) (R : A -> A -> Prop) n l :
  StronglySorted R l -> StronglySorted R (firstn n l).
Proof.
  intros H. revert n. induction H as [|x l Hs IH Hall]; intros [|n]; simpl;
    try constructor; auto.
  apply Forall_forall. intros y Hy. apply in_firstn in Hy.
  rewrite Forall_forall in Hall. auto.
Qed.

Lemma StronglySorted_filter (A : Type) (R : A -> A -> Prop) p l :
  StronglySorted R l -> StronglySorted R (filter p l).
Proof.
  induction 1 as [|x l Hs IH Hall]; simpl; [constructor|].
  destruct (p x); [|assumption]. constructor; [assumption|].
  apply Forall_forall. intros y Hy. apply filter_In in Hy.
  rewrite Forall_forall in Hall. apply Hall. tauto.
Qed.

Lemma event_recent_total a b : event_recent a b = true \/ event_recent b a = true.
Proof.
  unfold event_recent.
  destruct (Z.lt_trichotomy (Event.event_date a) (Event.event_date b)) as [H|[H|H]].
  - right. apply Z.ltb_lt in H. now rewrite H.
  - rewrite H, Z.eqb_refl, Z.ltb_irrefl. simpl.
    destruct (nulls_first_le_total (Event.created_at b) (Event.created_at a)); auto.
  - left. apply Z.ltb_lt in H. now rewrite H.
Qed.

Lemma event_recent_date a b :
  event_recent a b = true -> Event.event_date b <= Event.event_date a.
Proof.
  unfold event_recent.
  rewrite orb_true_iff, andb_true_iff, Z.ltb_lt, Z.eqb_eq. lia.
Qed.

Lemma recent_events_by_date lim db :
  StronglySorted (fun a b => Event.event_date b <= Event.event_date a)
                 (limit lim (order_by event_recent (rev (rows (events db))))).
Proof.
  assert (StronglySorted (fun a b => Event.event_date b <= Event.event_date a)
                         (order_by event_recent (rev (rows (events db))))) as H.
  { apply Sorted_StronglySorted.
    - intros a b c. lia.
    - apply Sorted_weaken with (R := fun a b => event_recent a b = true);
        [exact event_recent_date|].
      apply order_by_sorted. exact event_recent_total. }
  unfold limit. destruct (lim <? 0); [exact H|].
  now apply StronglySorted_firstn.
Qed.

(** The earliest weighing comes first after sorting. *)
Lemma sorted_weights_head (l : list (date * Q)) d w :
  In (d, w) l ->
  (forall x, In x l -> d <= fst x) ->
  exists w0 rest, order_by (fun x y => fst x <=? fst y) l = (d, w0) :: rest.
Proof.
  intros Hin Hmin.
  assert (StronglySorted (fun x y : date * Q => fst x <= fst y)
                         (order_by (fun x y => fst x <=? fst y) l)) as Hs.
  { apply Sorted_StronglySorted.
    - intros a b c. lia.
    - apply Sorted_weaken with (R := fun x y : date * Q => (fst x <=? fst y) = true).
      + intros a b. apply Z.leb_le.
      + apply order_by_sorted. intros a b. rewrite !Z.leb_le. lia. }
  destruct (order_by (fun x y => fst x <=? fst y) l) as [|[d0 w0] rest] eqn:E.
  - exfalso. apply order_by_in with (le := fun x y => fst x <=? fst y) in Hin.
    rewrite E in Hin. destruct Hin.
  - assert (In (d0, w0) l) as H0.
    { apply order_by_in with (le := fun x y => fst x <=? fst y). rewrite E. now left. }
    assert (d <= d0) as Hge by exact (Hmin _ H0).
    assert (d0 <= d) as Hle.
    { apply order_by_in with (le := fun x y => fst x <=? fst y) in Hin.
      rewrite E in Hin. destruct Hin as [Heq|Hin]; [injection Heq; lia|].
      inversion Hs as [|? ? _ Hall]; subst. rewrite Forall_forall in Hall.
      exact (Hall _ Hin). }
    assert (d0 = d) by lia. subst. eauto.
Qed.

Lemma calculate_adg_earliest a d w dict :
  In (d, w) (dict_get a dict) ->
  (forall x, In x (dict_get a dict) -> d <= fst x) ->
  calculate_adg a d w dict = Ok None.
Proof.
  intros Hin Hmin. unfold calculate_adg.
  destruct (_ <? _)%nat; [reflexivity|].
  destruct (@sorted_weights_head _ d w Hin Hmin) as (w0 & rest & ->).
  simpl. now rewrite Z.eqb_refl.
Qed.

Lemma load_rows_no_adg mob_id : forall evs dict db,
  StronglySorted (fun a b => Event.event_date b <= Event.event_date a) evs ->
  (forall k x e, In x (dict_get k dict) -> In e evs ->
                 Event.event_date e <= fst x) ->
  exists l,
    load_rows mob_id evs dict db = (Ok l, db)
    /\ Forall (fun r => row_adg r = None) l.
Proof.
  intros evs. induction evs as [|event rest IH]; intros dict db Hs Hinv.
  - exists []. split; [reflexivity|constructor].
  - inversion Hs as [|? ? Hs' Hall]; subst. rewrite Forall_forall in Hall.
    assert (exists l, load_rows mob_id rest dict db = (Ok l, db)
                      /\ Forall (fun r => row_adg r = None) l) as Hskip.
    { apply IH; [assumption|]. intros k x e Hx He. apply (Hinv k x e Hx). now right. }
    simpl.
    destruct (Event.animal_id event) as [aid|]; [|exact Hskip].
    destruct (aid =? 0); [exact Hskip|].
    unfold bind at 1. unfold get_animal, query.
    destruct (select_id Animal.id aid (animals db)) as [animal|]; [|exact Hskip].
    destruct (match mob_id with
              | Some m => negb (m =? 0) && negb (sql_eq (Animal.mob_id animal) (Some m))
              | None => false
              end); [exact Hskip|].
    unfold bind at 1.
    assert (exists weigh,
              match Event.id event with
              | Some event_id => get_weigh_details event_id
              | None => ret None
              end db = (Ok weigh, db)) as [weigh ->].
    { destruct (Event.id event); eexists; reflexivity. }
    destruct weigh as [weigh|]; [|exact Hskip].
    destruct (Animal.id animal) as [a|]; [|exact Hskip].
    set (d := Event.event_date event). set (w := WeighEvent.weight_kg weigh).
    unfold bind at 1. unfold lift.
    rewrite calculate_adg_earliest.
    + destruct (IH (track a (d, w) dict) db Hs') as (l & Hl & Hnone).
      { intros k x e Hx He. rewrite dict_get_track in Hx.
        destruct (k =? a).
        - apply in_app_or in Hx. destruct Hx as [Hx|[<-|[]]].
          + eapply Hinv; [exact Hx|now right].
          + simpl. apply Hall. exact He.
        - eapply Hinv; [exact Hx|now right]. }
      unfold bind. rewrite Hl. eexists. split; [reflexivity|].
      constructor; [reflexivity|exact Hnone].
    + rewrite dict_get_track, Z.eqb_refl. apply in_or_app. right. now left.
    + intros x Hx. rewrite dict_get_track, Z.eqb_refl in Hx.
      apply in_app_or in Hx. destruct Hx as [Hx|[<-|[]]].
      * eapply Hinv; [exact Hx|now left].
      * simpl. lia.
Qed.

(** X21.  Whatever the store, the filter and the date range,
    [_load_weights] returns its table and no row of it carries an ADG
    value. *)
Lemma load_weights_never_shows_adg mob_filter from_date to_date db :
  exists l,
    WeightsView_load_weights mob_filter from_date to_date db = (Ok l, db)
    /\ Forall (fun r => row_adg r = None) l.
Proof.
  unfold WeightsView_load_weights, bind, get_recent_events, query.
  apply load_rows_no_adg.
  - apply StronglySorted_filter. apply recent_events_by_date.
  - intros k x e [].
Qed.

(** ** Saving and looking up *)

Lemma find_app_fresh (A : Type) (p : A -> bool) (l : list A) x :
  (forall r, In r l -> p r = false) -> p x = true -> find p (l ++ [x]) = Some x.
Proof.
  induction l as [|y l IH]; simpl; intros Hl Hx.
  - now rewrite Hx.
  - rewrite (Hl y (or_introl eq_refl)). apply IH; auto.
Qed.

Lemma find_app_other (A : Type) (p : A -> bool) (l : list A) x :
  p x = false -> find p (l ++ [x]) = find p l.
Proof.
  intros Hx. induction l as [|y l IH]; simpl; [now rewrite Hx|].
  now destruct (p y).
Qed.

Section RoundTrip.
Variable A : Type.
Variable getid : A -> option Z.
Variable created_at : A -> option datetime.
Variable saved : Z -> option datetime -> datetime -> A -> A.
Variable tbl : Database -> Table A.
Variable refs_ok : A -> Database -> Prop.
Variable save : datetime -> A -> M A.
Hypothesis statement :
save_statement getid created_at saved tbl refs_ok save.
Hypothesis saved_id : forall k c now e, getid (saved k c now e) = Some k.

Lemma insert_then_select now e db x db' :
getid e = None ->
save now e db = (Ok x, db') ->
exists k, x = saved k (Some now) now e
/\ select_id getid k (tbl db) = None
/\ select_id getid k (tbl db') = Some x
/\ forall j, j <> k ->
 select_id getid j (tbl db') = select_id getid j (tbl db).
Proof.
intros Hid Hsave. destruct (statement now e db) as [Hins _].
specialize (Hins Hid). destruct Hins as [_ Hins]. rewrite Hsave in Hins.
simpl in Hins. destruct Hins as (k & Hk & Hfresh & _ & Hx & Hrows & _).
exists k. split; [exact Hx|]. split; [now apply select_id_absent|].
unfold select_id. rewrite Hrows. split.
- apply find_app_fresh.
+ intros r Hr. destruct (has_id getid k r) eqn:E; [|reflexivity].
exfalso. apply Hfresh. apply in_ids. exists r. split; [exact Hr|].
now apply has_id_true.
+ now apply has_id_true.
- intros j Hj. apply find_app_other.
unfold has_id. rewrite Hk. apply Z.eqb_neq. congruence.
Qed.

Lemma update_then_select now e k r db x db' :
getid e = Some k ->
select_id getid k (tbl db) = Some r ->
save now e db = (Ok x, db') ->
x = saved k (created_at e) now e
/\ select_id getid k (tbl db') = Some (saved k (created_at r) now e)
/\ forall j, j <> k ->
select_id getid j (tbl db') = select_id getid j (tbl db).
Proof.
intros Hid Hsel Hsave. destruct (statement now e db) as [_ Hupd].
specialize (Hupd k Hid). destruct Hupd as (_ & _ & _ & Hupd).
rewrite Hsave in Hupd. simpl in Hupd. destruct Hupd as (Hk & Hx & Hrows).
split; [exact Hx|].
unfold select_id in *. rewrite Hrows. split.
- clear Hrows Hsave.
induction (rows (tbl db)) as [|y l IH]; simpl in *; [discriminate|].
destruct (has_id getid k y) eqn:E.
+ injection Hsel as ->.
replace (has_id getid k (saved k (created_at r) now e)) with true;
[reflexivity|].
symmetry. apply has_id_true. apply saved_id.
+ rewrite E. auto.
- intros j Hj. clear Hrows Hsave Hsel.
induction (rows (tbl db)) as [|y l IH]; simpl; [reflexivity|].
destruct (has_id getid k y) eqn:E.
+ assert (has_id getid j y = false) as Ey.
{ apply has_id_true in E. unfold has_id. rewrite E. apply Z.eqb_neq. congruence. }
rewrite Ey.
replace (has_id getid j (saved k (created_at y) now e)) with false;
[exact IH|].
symmetry. unfold has_id. rewrite saved_id.
apply Z.eqb_neq. congruence.
+ destruct (has_id getid j y); [reflexivity|exact IH].
Qed.
End RoundTrip.

Lemma get_is_select (A : Type) (getid : A -> option Z) (tbl : Database -> Table A)
    k db (o : option A) :
  query (fun db => select_id getid k (tbl db)) db = (Ok o, db) <->
  select_id getid k (tbl db) = o.
Proof.
  unfold query. split; [intros [= H]; exact H | intros ->; reflexivity].
Qed.

Section RoundTripGet.
Variable A : Type.
Variable getid : A -> option Z.
Variable created_at : A -> option datetime.
Variable saved : Z -> option datetime -> datetime -> A -> A.
Variable tbl : Database -> Table A.
Variable refs_ok : A -> Database -> Prop.
Variable save : datetime -> A -> M A.
Hypothesis statement :
save_statement getid created_at saved tbl refs_ok save.
Hypothesis saved_id : forall k c now e, getid (saved k c now e) = Some k.

Lemma insert_round_trip_by_id :
insert_round_trip getid saved save
(fun k => query (fun db => select_id getid k (tbl db))).
Proof.
intros now e x db db' Hid Hsave.
destruct (insert_then_select statement now e db Hid Hsave)
as (k & Hk & Hnone & Hsome & Hother).
exists k. split; [exact Hk|]. unfold query. rewrite Hnone, Hsome.
split; [reflexivity|]. split; [reflexivity|].
intros j Hj. simpl. now rewrite (Hother j Hj).
Qed.

Lemma update_round_trip_by_id :
update_round_trip getid created_at saved save
(fun k => query (fun db => select_id getid k (tbl db))).
Proof.
intros now e k r x db db' Hid Hget Hsave.
apply get_is_select in Hget.
destruct (update_then_select statement saved_id now e db Hid Hget Hsave)
as (Hx & Hsome & Hother).
split; [exact Hx|]. unfold query. rewrite Hsome. split; [reflexivity|].
intros j Hj. simpl. now rewrite (Hother j Hj).
Qed.
End RoundTripGet.





(** ** Deleting *)

Lemma unreferenced_true (A : Type) (col : A -> option Z) k (l : list A) :
  unreferenced col k l = true <-> ~ referenced col k l.
Proof.
  unfold unreferenced, referenced. rewrite forallb_forall. split.
  - intros H (r & Hr & Hk). specialize (H r Hr). rewrite Hk in H.
    now rewrite Z.eqb_refl in H.
  - intros H r Hr. destruct (col r) as [j|] eqn:E; [|reflexivity].
    apply negb_true_iff, Z.eqb_neq. intros ->. apply H. eauto.
Qed.

Lemma unreferenced_false (A : Type) (col : A -> option Z) k (l : list A) :
  unreferenced col k l = false <-> referenced col k l.
Proof.
  split.
  - unfold unreferenced, referenced. intros H.
    induction l as [|r l IH]; simpl in H; [discriminate|].
    apply andb_false_iff in H. destruct H as [H|H].
    + exists r. split; [now left|]. destruct (col r) as [j|]; [|discriminate].
      apply negb_false_iff, Z.eqb_eq in H. now subst.
    + destruct (IH H) as (x & Hx & Hk). exists x. split; [now right|exact Hk].
  - intros H. destruct (unreferenced col k l) eqn:E; [|reflexivity].
    apply unreferenced_true in E. contradiction.
Qed.

Lemma select_id_delete_row (A : Type) (getid : A -> option Z) k (t : Table A) :
  select_id getid k (delete_row getid k t) = None
  /\ forall j, j <> k ->
       select_id getid j (delete_row getid k t) = select_id getid j t.
Proof.
  unfold select_id, delete_row. simpl. split.
  - apply find_absent. intros r Hr. apply filter_In in Hr.
    destruct Hr as [_ Hr]. now apply negb_true_iff in Hr.
  - intros j Hj. induction (rows t) as [|y l IH]; simpl; [reflexivity|].
    destruct (has_id getid k y) eqn:E; simpl.
    + replace (has_id getid j y) with false; [exact IH|].
      symmetry. apply has_id_true in E. unfold has_id. rewrite E.
      apply Z.eqb_neq. congruence.
    + destruct (has_id getid j y); [reflexivity|exact IH].
Qed.

Section DeleteById.
Variable A : Type.
Variable getid : A -> option Z.
Variable tbl : Database -> Table A.
Variable set_tbl : (Table A -> Table A) -> Database -> Database.
Hypothesis tbl_set : forall f db, tbl (set_tbl f db) = f (tbl db).
Variable chk : Z -> Database -> bool.
Variable blocked : Z -> Database -> Prop.
Hypothesis chk_blocked :
forall k db, chk k (set_tbl (delete_row getid k) db) = false <-> blocked k db.

Lemma delete_statement_by_id :
delete_statement (fun k => sql_delete getid set_tbl k (chk k))
  (fun k => query (fun db => select_id getid k (tbl db)))
  blocked.
Proof.
intros k db. unfold sql_delete, execute.
destruct (chk k (set_tbl (delete_row getid k) db)) eqn:E.
- right. split.
+ intros Hb. apply chk_blocked in Hb. congruence.
+ eexists. split; [reflexivity|]. unfold query. cbv beta.
destruct (select_id_delete_row getid k (tbl db)) as [Hnone Hother].
rewrite !tbl_set, Hnone. split; [reflexivity|].
intros j Hj. simpl. now rewrite (Hother j Hj).
- left. split; [now apply chk_blocked|reflexivity].
Qed.
End DeleteById.

Lemma andb_false_3 a b c :
  a && b && c = false <-> a = false \/ b = false \/ c = false.
Proof. destruct a, b, c; simpl; intuition congruence. Qed.

Lemma delete_paddock_statement :
  delete_statement delete_paddock get_paddock paddock_in_use.
Proof.
  apply (@delete_statement_by_id _ Paddock.id paddocks set_paddocks (fun _ _ => eq_refl)
           (fun k db =>
              unreferenced Mob.current_paddock_id k (rows (mobs db))
              && unreferenced MovementEvent.from_paddock_id k (rows (movement_events db))
              && unreferenced MovementEvent.to_paddock_id k (rows (movement_events db)))).
  intros k db. simpl. rewrite andb_false_3, !unreferenced_false. reflexivity.
Qed.

Lemma delete_mob_statement :
  delete_statement delete_mob get_mob mob_in_use.
Proof.
  apply (@delete_statement_by_id _ Mob.id mobs set_mobs (fun _ _ => eq_refl)
           (fun k db =>
              unreferenced Animal.mob_id k (rows (animals db))
              && unreferenced Event.mob_id k (rows (events db))
              && unreferenced Task.mob_id k (rows (tasks db)))).
  intros k db. simpl. rewrite andb_false_3, !unreferenced_false. reflexivity.
Qed.

Lemma delete_product_statement :
  delete_statement delete_product get_product product_in_use.
Proof.
  apply (@delete_statement_by_id _ Product.id products set_products (fun _ _ => eq_refl)
           (fun k db =>
              unreferenced TreatmentEvent.product_id k (rows (treatment_events db)))).
  intros k db. simpl. rewrite unreferenced_false. reflexivity.
Qed.

(** Among the rows that a delete of [k] leaves, a reference to [k] is a
    reference from another row. *)
Lemma referenced_after_delete (col : Animal.t -> option Z) k l :
  referenced col k (filter (fun r => negb (has_id Animal.id k r)) l)
  <-> exists a, In a l /\ Animal.id a <> Some k /\ col a = Some k.
Proof.
  unfold referenced. split.
  - intros (r & Hr & Hk). apply filter_In in Hr. destruct Hr as [Hr Hid].
    exists r. split; [exact Hr|]. split; [|exact Hk].
    apply negb_true_iff in Hid. intros E. apply has_id_true in E. congruence.
  - intros (a & Ha & Hid & Hk). exists a. split; [|exact Hk].
    apply filter_In. split; [exact Ha|]. apply negb_true_iff.
    destruct (has_id Animal.id k a) eqn:E; [|reflexivity].
    apply has_id_true in E. contradiction.
Qed.

Lemma delete_animal_statement :
  delete_statement delete_animal get_animal animal_in_use.
Proof.
  apply (@delete_statement_by_id _ Animal.id animals set_animals (fun _ _ => eq_refl)
           (fun k db =>
              unreferenced Animal.dam_id k (rows (animals db))
              && unreferenced Animal.sire_id k (rows (animals db))
              && unreferenced Event.animal_id k (rows (events db))
              && unreferenced Task.animal_id k (rows (tasks db)))).
  intros k db. simpl. rewrite andb_false_3, andb_false_iff, !unreferenced_false.
  rewrite !referenced_after_delete. unfold animal_in_use. split.
  - intros [[(a & Ha & Hid & Hk)|(a & Ha & Hid & Hk)]|[H|H]]; eauto 10.
  - intros [(a & Ha & Hid & [Hk|Hk])|[H|H]]; eauto 10.
Qed.

(** A method that binds the id and then runs the DELETE, looked at through
    a lookup that binds the id and then runs the SELECT. *)
Lemma guarded_delete_contract (A : Type) (delete delete' : Z -> M unit)
    (get get' : Z -> M (option A)) (blocked : Z -> Database -> Prop) :
  delete_statement delete get blocked ->
  (forall k, delete' k = bind_params [Some k] (delete k)) ->
  (forall k, get' k = bind_params [Some k] (get k)) ->
  delete_contract delete' get' blocked.
Proof.
  intros Hs Hd Hg k db. destruct (int64 k) eqn:Hk.
  - rewrite Hd, (@bind_int_fit k Hk).
    destruct (Hs k db) as [H|(Hfree & db' & Hdel & Hgone & Hother)];
      [left; exact H|].
    right. split; [exact Hfree|]. exists db'. split; [exact Hdel|].
    rewrite Hg, (@bind_int_fit k Hk). split; [exact Hgone|].
    intros j Hj. rewrite !Hg. unfold bind_params.
    destruct (forallb binds [Some j]); [now apply Hother|reflexivity].
  - rewrite Hd. apply (@bind_int_overflow k Hk).
Qed.

(** X3.  For an id that SQLite can hold, [delete_paddock], [delete_mob],
    [delete_animal] and [delete_product] raise IntegrityError and change
    nothing exactly when another row still refers to the row to delete;
    otherwise they return, the id is no longer found and every other
    lookup is unchanged.  For an id outside the signed 64-bit range they
    raise OverflowError and change nothing. *)
Theorem delete_refused_iff_in_use :
  delete_contract Api.delete_paddock Api.get_paddock paddock_in_use
  /\ delete_contract Api.delete_mob Api.get_mob mob_in_use
  /\ delete_contract Api.delete_animal Api.get_animal animal_in_use
  /\ delete_contract Api.delete_product Api.get_product product_in_use.
Proof.
  split; [|split; [|split]].
  - apply guarded_delete_contract with (delete := delete_paddock) (get := get_paddock);
      [exact delete_paddock_statement | reflexivity | reflexivity].
  - apply guarded_delete_contract with (delete := delete_mob) (get := get_mob);
      [exact delete_mob_statement | reflexivity | reflexivity].
  - apply guarded_delete_contract with (delete := delete_animal) (get := get_animal);
      [exact delete_animal_statement | reflexivity | reflexivity].
  - apply guarded_delete_contract with (delete := delete_product) (get := get_product);
      [exact delete_product_statement | reflexivity | reflexivity].
Qed.

Lemma delete_refused_iff_in_use_witness :
  ((animal_in_use 1 farm_treated
    /\ Api.delete_animal 1 farm_treated = (Raise IntegrityError, farm_treated))
   \/ (~ animal_in_use 1 farm_treated
       /\ exists db',
            Api.delete_animal 1 farm_treated = (Ok tt, db')
            /\ Api.get_animal 1 db' = (Ok None, db')
            /\ forall j, j <> 1 ->
                 fst (Api.get_animal j db') = fst (Api.get_animal j farm_treated)))
  /\ Api.delete_animal (2 ^ 63) farm_treated = (Raise OverflowError, farm_treated).
Proof.
  destruct delete_refused_iff_in_use as (_ & _ & H & _).
  split; [exact (H 1 farm_treated) | exact (H (2 ^ 63) farm_treated)].
Defined.

(** The loop of [_on_delete_animal] over a selection that holds an animal
    with an event or a task. *)
Lemma delete_each_blocked a : forall l i db,
  In a l ->
  referenced Event.animal_id a (rows (events db))
  \/ referenced Task.animal_id a (rows (tasks db)) ->
  exists db',
    for_each (fun _ animal_id => delete_animal animal_id) i l db
    = (Raise IntegrityError, db')
    /\ events db' = events db
    /\ tasks db' = tasks db
    /\ forall r, In r (rows (animals db)) -> Animal.id r = Some a ->
                 In r (rows (animals db')).
Proof.
  induction l as [|x l IH]; intros i db Hin Href; [destruct Hin|].
  simpl. unfold bind at 1.
  destruct (delete_animal_statement x db) as [[_ ->]|[Hfree (db1 & Hdel & _)]].
  - exists db. auto.
  - rewrite Hdel.
    assert (db1 = set_animals (delete_row Animal.id x) db) as ->.
    { unfold delete_animal in Hdel.
      match type of Hdel with sql_delete ?g ?s ?k ?c ?d = _ =>
        destruct (sql_delete_cases g s k c d) as [E|E] end;
        rewrite E in Hdel; congruence. }
    assert (x <> a) as Hxa.
    { intros ->. apply Hfree. unfold animal_in_use. tauto. }
    destruct Hin as [Hin|Hin]; [contradiction|].
    destruct (IH (S i) (set_animals (delete_row Animal.id x) db) Hin Href)
      as (db' & Hloop & Hev & Htk & Hrows).
    exists db'. split; [exact Hloop|]. split; [exact Hev|]. split; [exact Htk|].
    intros r Hr Hid. apply Hrows; [|exact Hid]. simpl.
    apply filter_In. split; [exact Hr|]. apply negb_true_iff.
    unfold has_id. rewrite Hid. apply Z.eqb_neq. congruence.
Qed.

(** X4.  [_on_delete_animal], confirmed, on a selection that holds an
    animal with an event or a task: the flow ends in IntegrityError, and
    the animal, its events and its tasks are all still stored, although the
    confirmation announces that the associated events and records will be
    deleted too. *)
Theorem on_delete_animal_keeps_recorded_animal (ids : list Z) (a : Z) (db : Database) :
  In a ids ->
  referenced Event.animal_id a (rows (events db))
  \/ referenced Task.animal_id a (rows (tasks db)) ->
  exists db',
    AnimalsView_on_delete_animal ids true db = (Raise IntegrityError, db')
    /\ events db' = events db
    /\ tasks db' = tasks db
    /\ forall r, In r (rows (animals db)) -> Animal.id r = Some a ->
                 In r (rows (animals db')).
Proof.
  intros Hin Href. unfold AnimalsView_on_delete_animal.
  destruct ids as [|x l]; [destruct Hin|].
  now apply delete_each_blocked.
Qed.

Lemma on_delete_animal_keeps_recorded_animal_witness :
  exists db',
    AnimalsView_on_delete_animal [1] true farm_treated = (Raise IntegrityError, db')
    /\ events db' = events farm_treated
    /\ tasks db' = tasks farm_treated
    /\ forall r, In r (rows (animals farm_treated)) -> Animal.id r = Some 1 ->
                 In r (rows (animals db')).
Proof.
  apply (@on_delete_animal_keeps_recorded_animal [1] 1 farm_treated).
  - simpl. auto.
  - left. unfold referenced. vm_compute. eexists. split; [left; reflexivity|reflexivity].
Defined.

(** ** ORDER BY and WHERE *)

Section OrderFilter.
Variable A : Type.
Variable le : A -> A -> bool.
Variable q : A -> bool.
Hypothesis le_trans : forall a b c, le a b = true -> le b c = true -> le a c = true.
Hypothesis le_total : forall a b, le a b = true \/ le b a = true.

Lemma insert_sorted_first x l :
Forall (fun y => le x y = true) l -> insert_sorted le x l = x :: l.
Proof.
intros H. destruct l as [|y l]; [reflexivity|]. simpl.
inversion H as [|? ? Hy _]; subst. now rewrite Hy.
Qed.

Lemma filter_insert_sorted x l :
StronglySorted (fun a b => le a b = true) l ->
filter q (insert_sorted le x l)
= if q x then insert_sorted le x (filter q l) else filter q l.
Proof.
induction 1 as [|y l Hs IH Hall]; simpl.
- now destruct (q x).
- destruct (le x y) eqn:E.
+ simpl. destruct (q x); [|reflexivity].
symmetry. apply insert_sorted_first.
assert (Forall (fun z => le x z = true) (y :: l)) as Hx.
{ constructor; [exact E|]. rewrite Forall_forall in *.
intros z Hz. eapply le_trans; eauto. }
rewrite Forall_forall in *. intros z Hz.
change (In z (filter q (y :: l))) in Hz.
apply Hx. apply filter_In in Hz. tauto.
+ simpl. rewrite IH. destruct (q y), (q x); simpl; try rewrite E; reflexivity.
Qed.

Lemma order_by_strongly_sorted l :
StronglySorted (fun a b => le a b = true) (order_by le l).
Proof.
apply Sorted_StronglySorted.
- intros a b c. apply le_trans.
- now apply order_by_sorted.
Qed.

(** Sorting the rows that a condition keeps is keeping, of the sorted
rows, those that satisfy the condition. *)
Lemma order_by_filter l :
order_by le (filter q l) = filter q (order_by le l).
Proof.
induction l as [|x l IH]; simpl; [reflexivity|].
rewrite filter_insert_sorted by apply order_by_strongly_sorted.
destruct (q x); simpl; now rewrite IH.
Qed.
End OrderFilter.

Lemma nulls_first_le_trans a b c :
  nulls_first_le a b = true -> nulls_first_le b c = true -> nulls_first_le a c = true.
Proof.
  destruct a, b, c; simpl; try congruence. rewrite !Z.leb_le. lia.
Qed.

Lemma task_le_trans a b c :
  task_le a b = true -> task_le b c = true -> task_le a c = true.
Proof.
  unfold task_le.
  destruct (Task.due_date a) as [x|], (Task.due_date b) as [y|],
           (Task.due_date c) as [z|]; try congruence; try apply nulls_first_le_trans.
  rewrite !orb_true_iff, !andb_true_iff, !Z.ltb_lt, !Z.eqb_eq.
  intros [H1|[H1 H1']] [H2|[H2 H2']]; try (left; lia).
  right. split; [lia|]. eapply nulls_first_le_trans; eauto.
Qed.

(** ** Completing a task *)

(** X5.  For a task id that SQLite can hold, [complete_task] returns,
    whether or not a task has that id, and afterwards [get_pending_tasks]
    lists, in the same order, the tasks it listed before without the
    completed one.  For an id outside the signed 64-bit range it raises
    OverflowError and changes nothing. *)
Theorem completed_task_leaves_pending_list
    (now : datetime) (k : Z) (today days_ahead : Z) (db : Database) (l : list Task.t) :
  get_pending_tasks today days_ahead db = (Ok l, db) ->
  if int64 k
  then exists db',
         Api.complete_task now k db = (Ok tt, db')
         /\ get_pending_tasks today days_ahead db'
            = (Ok (filter (fun t => negb (has_id Task.id k t)) l), db')
  else Api.complete_task now k db = (Raise OverflowError, db).
Proof.
  unfold Api.complete_task. destruct (int64 k) eqn:Hk.
  2:{ intros _. apply (@bind_int_overflow k Hk). }
  rewrite (@bind_int_fit k Hk).
  unfold complete_task, get_pending_tasks.
  unfold sql_update, execute, no_fk, bind, lift, query.
  destruct (date_add today days_ahead) as [end_date|e]; [|discriminate].
  intros [= <-].
  match goal with |- context [forallb ?p ?rs] =>
    replace (forallb p rs) with true end.
  2:{ symmetry. apply forallb_forall. intros r _. apply orb_true_r. }
  eexists. split; [reflexivity|]. f_equal. f_equal.
  rewrite <- order_by_filter by (first [exact task_le_trans | exact task_le_total]).
  f_equal. simpl.
  induction (rows (tasks db)) as [|t rest IH]; simpl; [reflexivity|].
  destruct (has_id Task.id k t) eqn:E.
  - replace (task_pending end_date _) with false by reflexivity.
    rewrite IH. destruct (task_pending end_date t); simpl; [rewrite E|]; reflexivity.
  - rewrite IH. destruct (task_pending end_date t); simpl; [rewrite E|]; reflexivity.
Qed.

Lemma completed_task_leaves_pending_list_witness :
  (exists db',
     Api.complete_task 9 1 farm_with_task = (Ok tt, db')
     /\ get_pending_tasks 738895 7 db'
        = (Ok (filter (fun t => negb (has_id Task.id 1 t))
                      (order_by task_le
                         (filter (task_pending (738895 + 7))
                                 (rows (tasks farm_with_task))))),
           db'))
  /\ Api.complete_task 9 (- 2 ^ 63 - 1) farm_with_task
     = (Raise OverflowError, farm_with_task).
Proof.
  split.
  - apply (@completed_task_leaves_pending_list 9 1 738895 7 farm_with_task).
    reflexivity.
  - apply (@completed_task_leaves_pending_list 9 (- 2 ^ 63 - 1) 738895 7
             farm_with_task _ eq_refl).
Defined.


(** ** Counting *)

Lemma filter_length_perm (A : Type) (p : A -> bool) (l l' : list A) :
  Permutation l l' -> List.length (filter p l) = List.length (filter p l').
Proof.
  induction 1 as [|x l l' _ IH|x y l|l l' l'' _ IH1 _ IH2]; simpl.
  - reflexivity.
  - destruct (p x); simpl; now rewrite IH.
  - destruct (p x), (p y); reflexivity.
  - now rewrite IH1.
Qed.

Lemma filter_filter (A : Type) (p q : A -> bool) (l : list A) :
  filter q (filter p l) = filter (fun a => p a && q a) l.
Proof.
  induction l as [|x l IH]; simpl; [reflexivity|].
  destruct (p x); simpl; [destruct (q x)|]; now rewrite IH.
Qed.

Lemma filter_length_le (A : Type) (p : A -> bool) (l : list A) :
  (List.length (filter p l) <= List.length l)%nat.
Proof.
  induction l as [|x l IH]; simpl; [lia|]. destruct (p x); simpl; lia.
Qed.

(** X6.  For a mob id that SQLite can hold, the head count of the mob is
    the number of alive animals among those that [get_animals_by_mob]
    returns: animals of the mob that are sold, dead or missing are returned
    but not counted.  For an id outside the signed 64-bit range both calls
    raise OverflowError. *)
Theorem mob_count_is_alive_animals_of_mob (m : Z) (db : Database) :
  if int64 m
  then exists l,
         Api.get_animals_by_mob m db = (Ok l, db)
         /\ Api.get_mob_animal_count m db = (Ok (count_of is_alive l), db)
         /\ count_of is_alive l <= Z.of_nat (List.length l)
  else Api.get_animals_by_mob m db = (Raise OverflowError, db)
       /\ Api.get_mob_animal_count m db = (Raise OverflowError, db).
Proof.
  unfold Api.get_animals_by_mob, Api.get_mob_animal_count.
  destruct (int64 m) eqn:Hm.
  2:{ split; apply (@bind_int_overflow m Hm). }
  rewrite !(@bind_int_fit m Hm).
  eexists. split; [reflexivity|]. unfold get_mob_animal_count, query, count_of.
  split.
  - f_equal. f_equal. f_equal.
    rewrite (filter_length_perm is_alive
               (order_by_perm animal_le
                  (filter (fun a => sql_eq (Animal.mob_id a) (Some m))
                          (rows (animals db))))).
    now rewrite filter_filter.
  - apply inj_le, filter_length_le.
Qed.

(** ** Dashboard statistics *)

Lemma counts_sum_app (K : Type) (d1 d2 : list (K * Z)) :
  counts_sum (d1 ++ d2) = counts_sum d1 + counts_sum d2.
Proof.
  unfold counts_sum. induction d1 as [|e d1 IH]; cbn -[Z.add]; [reflexivity|].
  rewrite IH. lia.
Qed.

Lemma counts_sum_group (K A : Type) (eqb : K -> K -> bool) (col : A -> K) l keys :
  counts_sum (group_counts keys eqb col l)
  = fold_right (fun k s => count_of (fun r => eqb (col r) k) l + s) 0 keys.
Proof.
  unfold group_counts. induction keys as [|k keys IH]; simpl; [reflexivity|].
  rewrite counts_sum_app, IH. f_equal. unfold count_of.
  destruct (Z.of_nat _ =? 0) eqn:E; simpl.
  - apply Z.eqb_eq in E. unfold counts_sum. simpl. lia.
  - unfold counts_sum. simpl. lia.
Qed.

Lemma status_counts_total (l : list Animal.t) :
  count_of (fun r => AnimalStatus_eqb (Animal.status r) ALIVE) l
  + (count_of (fun r => AnimalStatus_eqb (Animal.status r) DEAD) l
     + (count_of (fun r => AnimalStatus_eqb (Animal.status r) MISSING) l
        + (count_of (fun r => AnimalStatus_eqb (Animal.status r) SOLD) l + 0)))
  = Z.of_nat (List.length l).
Proof.
  unfold count_of. induction l as [|a l IH]; simpl; [reflexivity|].
  destruct (Animal.status a); cbn -[Z.of_nat Z.add]; lia.
Qed.

Lemma species_counts_total (l : list Animal.t) :
  count_of (fun r => Species_eqb (Animal.species r) CATTLE) l
  + count_of (fun r => Species_eqb (Animal.species r) SHEEP) l
  = Z.of_nat (List.length l).
Proof.
  unfold count_of. induction l as [|a l IH]; simpl; [reflexivity|].
  destruct (Animal.species a); cbn -[Z.of_nat Z.add]; lia.
Qed.

Lemma status_counts_get (l : list Animal.t) :
  counts_get AnimalStatus_eqb ALIVE
    (group_counts [ALIVE; DEAD; MISSING; SOLD] AnimalStatus_eqb Animal.status l)
  = count_of is_alive l.
Proof.
  unfold group_counts, count_of, is_alive. simpl.
  destruct (Z.of_nat (List.length (filter _ l)) =? 0) eqn:E1; simpl; [|reflexivity].
  apply Z.eqb_eq in E1. rewrite E1.
  repeat match goal with
         | |- context [if ?c =? 0 then _ else _] => destruct (c =? 0); simpl
         end; reflexivity.
Qed.

Lemma species_counts_get (l : list Animal.t) :
  counts_get Species_eqb CATTLE
    (group_counts [CATTLE; SHEEP] Species_eqb Animal.species l)
  = count_of (fun r => Species_eqb (Animal.species r) CATTLE) l
  /\ counts_get Species_eqb SHEEP
       (group_counts [CATTLE; SHEEP] Species_eqb Animal.species l)
     = count_of (fun r => Species_eqb (Animal.species r) SHEEP) l.
Proof.
  unfold group_counts, count_of. simpl.
  destruct (Z.of_nat (List.length (filter (fun r => Species_eqb (Animal.species r) CATTLE) l))
            =? 0) eqn:E1;
    destruct (Z.of_nat (List.length (filter (fun r => Species_eqb (Animal.species r) SHEEP) l))
              =? 0) eqn:E2; simpl;
    try apply Z.eqb_eq in E1; try apply Z.eqb_eq in E2; split; congruence.
Qed.

(** X7.  The dashboard cards agree with each other: the status counts
    add up to the number of stored animals, the alive count is the number
    of alive animals and is the sum of the cattle and the sheep counts.
    The refresh returns exactly when the date seven days ahead exists;
    otherwise it ends in OverflowError. *)
Theorem refresh_stats_consistent (today : date) (db : Database) :
  (date_min <= today + 7 <= date_max ->
   exists s,
     DashboardView_refresh_stats today db = (Ok s, db)
     /\ stats_total s = Z.of_nat (List.length (rows (animals db)))
     /\ stats_alive s = count_of is_alive (rows (animals db))
     /\ stats_cattle s + stats_sheep s = stats_alive s
     /\ stats_alive s <= stats_total s)
  /\ (~ date_min <= today + 7 <= date_max ->
      DashboardView_refresh_stats today db = (Raise OverflowError, db)).
Proof.
  unfold DashboardView_refresh_stats, get_animal_counts, get_species_counts,
    get_animals_on_whp, get_pending_tasks, bind, query, lift, ret, date_add.
  split; intros Hrange.
  - replace ((date_min <=? today + 7) && (today + 7 <=? date_max)) with true.
    2:{ symmetry. apply andb_true_iff. rewrite !Z.leb_le. lia. }
    eexists. split; [reflexivity|].
    cbn [stats_total stats_alive stats_cattle stats_sheep].
    rewrite status_counts_get.
    destruct (species_counts_get (filter (fun a => AnimalStatus_eqb (Animal.status a) ALIVE)
                                         (rows (animals db)))) as [-> ->].
    rewrite species_counts_total, counts_sum_group. cbn [fold_right].
    rewrite status_counts_total. unfold count_of, is_alive.
    repeat split; try reflexivity. apply inj_le, filter_length_le.
  - replace ((date_min <=? today + 7) && (today + 7 <=? date_max)) with false;
      [reflexivity|].
    symmetry. apply andb_false_iff. rewrite !Z.leb_gt. lia.
Qed.

Lemma refresh_stats_consistent_witness :
  exists s,
    DashboardView_refresh_stats 738895 yard = (Ok s, yard)
    /\ stats_total s = Z.of_nat (List.length (rows (animals yard)))
    /\ stats_alive s = count_of is_alive (rows (animals yard))
    /\ stats_cattle s + stats_sheep s = stats_alive s
    /\ stats_alive s <= stats_total s.
Proof.
  apply (proj1 (refresh_stats_consistent 738895 yard)).
  unfold date_min, date_max. lia.
Defined.

(** ** Sale draft *)

Lemma py_eq_Some k o : py_eq (Some k) o = true <-> o = Some k.
Proof.
  destruct o as [j|]; simpl; [|split; discriminate].
  rewrite Z.eqb_eq. split; congruence.
Qed.

Lemma whp_rows_have_animal today db row :
  In row (map whp_select (order_by whp_le (filter (whp_where today) (whp_join db)))) ->
  WhpRow.animal_id row <> None.
Proof.
  intros Hin. apply in_map_iff in Hin. destruct Hin as ([[[t e] a] p] & <- & Hj).
  apply order_by_in, filter_In in Hj. destruct Hj as [Hj _].
  apply whp_join_in in Hj. destruct Hj as (_ & _ & _ & _ & Heq).
  apply sql_eq_true in Heq. destruct Heq as (x & _ & Hx). simpl. congruence.
Qed.

(** X8.  The sale-ready animals of the sale draft are exactly the stored
    animals that are alive and that the withholding-period query of the day
    does not list. *)
Theorem sale_ready_excludes_whp (today : date) (db : Database) :
  exists l,
    sale_ready today db = (Ok l, db)
    /\ forall a, In a l <->
         In a (rows (animals db))
         /\ Animal.status a = ALIVE
         /\ forall k, Animal.id a = Some k -> ~ on_whp today k db.
Proof.
  unfold sale_ready, get_animals_on_whp, get_all_animals, bind, query, ret.
  eexists. split; [reflexivity|]. intros a.
  rewrite filter_In, order_by_in, filter_In, AnimalStatus_eqb_eq, negb_true_iff.
  set (whp := map whp_select _).
  assert (existsb (py_eq (Animal.id a)) (map WhpRow.animal_id whp) = false
          <-> forall k, Animal.id a = Some k -> ~ on_whp today k db) as Hiff.
  { split.
    - intros Hnone k Hk (l & row & Hl & Hrow & Hid).
      unfold get_animals_on_whp, query in Hl. injection Hl as <-.
      assert (existsb (py_eq (Animal.id a)) (map WhpRow.animal_id whp) = true) as E.
      { apply existsb_exists. exists (Some k). split.
        - rewrite <- Hid. now apply in_map.
        - rewrite Hk. now apply py_eq_Some. }
      congruence.
    - intros Hnot. destruct (existsb _ _) eqn:E; [|reflexivity]. exfalso.
      apply existsb_exists in E. destruct E as (o & Ho & Heq).
      apply in_map_iff in Ho. destruct Ho as (row & <- & Hrow).
      destruct (Animal.id a) as [k|] eqn:Hk.
      + apply py_eq_Some in Heq. apply (Hnot k eq_refl).
        exists whp, row. split; [reflexivity|]. split; [exact Hrow|exact Heq].
      + apply (whp_rows_have_animal today db) in Hrow.
        destruct (WhpRow.animal_id row); [discriminate|congruence]. }
  rewrite Hiff. tauto.
Qed.

(** ** Quick dialogs that edit animals *)

Lemma keyed_select (A : Type) (getid : A -> option Z) (t : Table A) k x :
  keyed getid (rows t) ->
  select_id getid k t = Some x ->
  In x (rows t) /\ getid x = Some k
  /\ forall r, In r (rows t) -> getid r = Some k -> r = x.
Proof.
  intros [Hnd _] Hsel. unfold select_id in Hsel. apply find_some in Hsel.
  destruct Hsel as [Hin Hid]. apply has_id_true in Hid.
  repeat split; auto. intros r Hr Hk. eapply keyed_unique; eauto.
Qed.

Lemma select_none_has_id (A : Type) (getid : A -> option Z) (t : Table A) k r :
  select_id getid k t = None -> In r (rows t) -> has_id getid k r = false.
Proof.
  intros Hsel Hr. unfold select_id in Hsel.
  exact (find_none _ _ Hsel r Hr).
Qed.

Lemma Forall2_in_r (A B : Type) (R : A -> B -> Prop) l l' b :
  Forall2 R l l' -> In b l' -> exists a, In a l /\ R a b.
Proof.
  induction 1 as [|x y l l' Hxy _ IH]; simpl; [tauto|].
  intros [<-|Hb]; [eauto|]. destruct (IH Hb) as (a & Ha & HR). eauto.
Qed.

Lemma Forall2_in_l (A B : Type) (R : A -> B -> Prop) l l' a :
  Forall2 R l l' -> In a l -> exists b, In b l' /\ R a b.
Proof.
  induction 1 as [|x y l l' Hxy _ IH]; simpl; [tauto|].
  intros [<-|Ha]; [eauto|]. destruct (IH Ha) as (b & Hb & HR). eauto.
Qed.

Lemma listed_same_id l a b :
  Animal.id a = Animal.id b -> listed l a = listed l b.
Proof.
  intros H. unfold listed, has_id. now rewrite H.
Qed.

Section EditLoop.
Variable f : Animal.t -> Animal.t.
Hypothesis f_id : forall a, Animal.id (f a) = Animal.id a.
Hypothesis f_created : forall a, Animal.created_at (f a) = Animal.created_at a.
Hypothesis f_again : forall u a, f (stamped u (f a)) = stamped u (f a).

Lemma edit_step now x k db :
Animal.id x = Some k ->
(forall r, In r (rows (animals db)) -> Animal.id r = Some k -> r = x) ->
(save_animal now (f x) db = (Raise IntegrityError, db))
\/ (exists y,
save_animal now (f x) db
= (Ok y,
set_animals
(fun t => mkTable
           (map (fun r => if has_id Animal.id k r
                          then stamped now (f r) else r) (rows t))
           (seq t))
db)).
Proof.
intros Hid Hx. unfold save_animal. rewrite f_id, Hid. unfold bind, ret.
match goal with |- context [sql_update ?g ?tb ?s ?fk k ?u db] =>
destruct (sql_update_cases g tb s fk k u db) as [-> | ->] end; [|now left].
right. eexists. f_equal. unfold set_animals, update_row. f_equal. f_equal.
apply map_ext_in. intros r Hr.
destruct (has_id Animal.id k r) eqn:E; [|reflexivity].
apply has_id_true in E. rewrite (Hx r Hr E). unfold stamped.
now rewrite f_id, f_created.
Qed.

Lemma edit_loop (clock : nat -> datetime) : forall l i db r db1,
keyed Animal.id (rows (animals db)) ->
for_each (fun i animal_id =>
animal <- get_animal animal_id ;;
match animal with
| Some animal => save_animal (clock i) (f animal) ;;; ret tt
| None => ret tt
end) i l db = (r, db1) ->
map Animal.id (rows (animals db1)) = map Animal.id (rows (animals db))
/\ edited_in_place f l (rows (animals db)) (rows (animals db1))
/\ (r = Ok tt -> all_edited f l (rows (animals db)) (rows (animals db1))).
Proof.
unfold edited_in_place, all_edited.
induction l as [|k l IH]; intros i db r db1 Hkeyed; simpl.
- intros [= <- <-]. split; [reflexivity|].
split; [|intros _]; apply Forall2_refl_eq; auto.
- unfold bind at 1. unfold get_animal at 1, query at 1, bind at 1.
destruct (select_id Animal.id k (animals db)) as [x|] eqn:Hsel.
+ destruct (@keyed_select _ _ _ _ _ Hkeyed Hsel) as (_ & Hk & Hx).
unfold bind at 1.
destruct (edit_step (clock i) db Hk Hx) as [->|[y ->]]; simpl.
* intros [= <- <-]. split; [reflexivity|].
split; [apply Forall2_refl_eq; auto|discriminate].
* set (step := fun r0 => if has_id Animal.id k r0
                 then stamped (clock i) (f r0) else r0).
set (db0 := set_animals _ db).
intros Hrest.
assert (forall r0, Animal.id (step r0) = Animal.id r0) as Hstep_id.
{ intros r0. unfold step. destruct (has_id Animal.id k r0); [|reflexivity].
simpl. apply f_id. }
assert (map Animal.id (rows (animals db0)) = map Animal.id (rows (animals db)))
as Hids.
{ simpl. rewrite map_map. apply map_ext. exact Hstep_id. }
assert (forall r0, listed l (step r0) = listed l r0) as Hlisted.
{ intros r0. apply listed_same_id, Hstep_id. }
destruct (IH (S i) db0 r db1) as (Hm & Hany & Hok); [|exact Hrest|].
{ unfold keyed. now rewrite Hids. }
split; [now rewrite Hm|]. split.
-- eapply Forall2_trans_map; [exact Hany|]. intros a b _.
cbv beta. fold (step a). rewrite Hlisted. unfold step.
destruct (has_id Animal.id k a) eqn:E; simpl.
++ rewrite f_again.
intros [->|[_ [u ->]]]; right; (split; [reflexivity|]);
  [exists (clock i) | exists u]; reflexivity.
++ auto.
-- intros Hr. specialize (Hok Hr).
eapply Forall2_trans_map; [exact Hok|]. intros a b _.
cbv beta. fold (step a). rewrite Hlisted. unfold step.
destruct (has_id Animal.id k a) eqn:E; simpl.
++ rewrite f_again.
destruct (listed l a); [intros [u ->]; exists u|intros ->; exists (clock i)];
  reflexivity.
++ auto.
+ simpl. intros Hrest.
destruct (IH (S i) db r db1 Hkeyed Hrest) as (Hm & Hany & Hok).
split; [exact Hm|]. split.
* eapply Forall2_in_impl; [exact Hany|]. intros a b Ha.
rewrite (@select_none_has_id _ _ _ _ _ Hsel Ha). auto.
* intros Hr. eapply Forall2_in_impl; [exact (Hok Hr)|]. intros a b Ha.
cbv beta. rewrite (@select_none_has_id _ _ _ _ _ Hsel Ha). auto.
Qed.
End EditLoop.

Lemma listed_intro l k a : In k l -> Animal.id a = Some k -> listed l a = true.
Proof.
  intros Hin Hid. apply existsb_exists. exists k. split; [exact Hin|].
  now apply has_id_true.
Qed.

Lemma quick_move_frame clock l m :
  preserves other_than_animals (QuickMoveDialog_on_accept clock l m).
Proof. unfold QuickMoveDialog_on_accept. frame. Qed.

Lemma quick_status_frame clock l s :
  preserves other_than_animals (QuickStatusDialog_on_accept clock l s).
Proof. unfold QuickStatusDialog_on_accept. frame. Qed.

(** X9.  [QuickMoveDialog._on_accept] touches the animals table only and
    keeps every row in its place: a row whose id is not listed is
    untouched, and a listed row changes, if at all, in its mob, which is
    the chosen one, and in [updated_at].  When the dialog is accepted every
    listed animal that is stored is then found in the chosen mob. *)
Theorem quick_move_moves_listed_animals
    (clock : nat -> datetime) (l : list Z) (m : option Z) (db db' : Database)
    (r : result unit) :
  keyed Animal.id (rows (animals db)) ->
  QuickMoveDialog_on_accept clock l m db = (r, db') ->
  other_than_animals db' = other_than_animals db
  /\ edited_in_place (set_mob_id m) l (rows (animals db)) (rows (animals db'))
  /\ (r = Ok tt ->
      all_edited (set_mob_id m) l (rows (animals db)) (rows (animals db'))
      /\ forall k x, In k l -> get_animal k db' = (Ok (Some x), db') ->
                     Animal.mob_id x = m).
Proof.
  intros Hkeyed Hrun. split.
  { pose proof (quick_move_frame clock l m db) as H. now rewrite Hrun in H. }
  unfold QuickMoveDialog_on_accept in Hrun.
  apply edit_loop in Hrun; try reflexivity; [|exact Hkeyed].
  destruct Hrun as (_ & Hany & Hok). split; [exact Hany|].
  intros Hr. specialize (Hok Hr). split; [exact Hok|].
  intros k x Hk Hget. apply get_is_select in Hget.
  apply find_some in Hget. destruct Hget as [Hx Hid]. apply has_id_true in Hid.
  destruct (Forall2_in_r x Hok Hx) as (a & _ & Ha).
  destruct (listed l a) eqn:E.
  - destruct Ha as [u ->]. reflexivity.
  - subst x. rewrite (listed_intro l a Hk Hid) in E. discriminate.
Qed.

Lemma keyed_yard : keyed Animal.id (rows (animals yard)).
Proof.
  split.
  - simpl. repeat constructor; simpl; intuition discriminate.
  - simpl. intuition discriminate.
Qed.

Lemma quick_move_moves_listed_animals_witness :
  other_than_animals (exec (QuickMoveDialog_on_accept (fun _ => 9) [1; 7] (Some 1)) yard)
  = other_than_animals yard
  /\ all_edited (set_mob_id (Some 1)) [1; 7] (rows (animals yard))
       (rows (animals (exec (QuickMoveDialog_on_accept (fun _ => 9) [1; 7] (Some 1)) yard)))
  /\ forall k x, In k [1; 7] ->
       get_animal k (exec (QuickMoveDialog_on_accept (fun _ => 9) [1; 7] (Some 1)) yard)
       = (Ok (Some x), exec (QuickMoveDialog_on_accept (fun _ => 9) [1; 7] (Some 1)) yard) ->
       Animal.mob_id x = Some 1.
Proof.
  destruct (@quick_move_moves_listed_animals (fun _ => 9) [1; 7] (Some 1) yard
              (exec (QuickMoveDialog_on_accept (fun _ => 9) [1; 7] (Some 1)) yard)
              (Ok tt) keyed_yard eq_refl) as (Hother & _ & Hok).
  split; [exact Hother|]. exact (Hok eq_refl).
Defined.

(** X10.  [QuickStatusDialog._on_accept] touches the animals table only
    and keeps every row in its place: a row whose id is not listed is
    untouched, and a listed row changes, if at all, in its status, which is
    the chosen one, and in [updated_at].  When the dialog is accepted with
    a status other than alive, none of the listed animals is on the
    withholding-period list of any date any more. *)
Theorem quick_status_takes_animals_off_whp
    (clock : nat -> datetime) (l : list Z) (s : AnimalStatus) (db db' : Database)
    (r : result unit) :
  keyed Animal.id (rows (animals db)) ->
  QuickStatusDialog_on_accept clock l s db = (r, db') ->
  other_than_animals db' = other_than_animals db
  /\ edited_in_place (set_status s) l (rows (animals db)) (rows (animals db'))
  /\ (r = Ok tt ->
      all_edited (set_status s) l (rows (animals db)) (rows (animals db'))
      /\ (s <> ALIVE -> forall k x, In k l -> ~ on_whp x k db')).
Proof.
  intros Hkeyed Hrun. split.
  { pose proof (quick_status_frame clock l s db) as H. now rewrite Hrun in H. }
  unfold QuickStatusDialog_on_accept in Hrun.
  apply edit_loop in Hrun; try reflexivity; [|exact Hkeyed].
  destruct Hrun as (_ & Hany & Hok). split; [exact Hany|].
  intros Hr. specialize (Hok Hr). split; [exact Hok|].
  intros Hs k x Hk Hwhp. apply on_whp_iff in Hwhp.
  destruct Hwhp as (t & e & an & p & Hj & Hid & Hwhere).
  apply whp_join_in in Hj. destruct Hj as (_ & _ & _ & Han & _).
  destruct (Forall2_in_r an Hok Han) as (a & _ & Ha).
  assert (Animal.status an = s) as Hst.
  { destruct (listed l a) eqn:E.
    - destruct Ha as [u ->]. reflexivity.
    - subst an. rewrite (listed_intro l a Hk Hid) in E. discriminate. }
  unfold whp_where in Hwhere. rewrite Hst in Hwhere.
  apply andb_true_iff in Hwhere. destruct Hwhere as [Halive _].
  apply AnimalStatus_eqb_eq in Halive. contradiction.
Qed.

Lemma keyed_station_treated : keyed Animal.id (rows (animals station_treated)).
Proof.
  split.
  - simpl. repeat constructor; simpl; intuition discriminate.
  - simpl. intuition discriminate.
Qed.

Lemma quick_status_takes_animals_off_whp_witness :
  on_whp 738900 1 station_treated
  /\ forall x, ~ on_whp x 1
       (exec (QuickStatusDialog_on_accept (fun _ => 9) [1] SOLD) station_treated).
Proof.
  split.
  - apply on_whp_iff. vm_compute. do 4 eexists.
    split; [left; reflexivity|]. split; reflexivity.
  - intros x.
    destruct (@quick_status_takes_animals_off_whp (fun _ => 9) [1] SOLD station_treated
                (exec (QuickStatusDialog_on_accept (fun _ => 9) [1] SOLD) station_treated)
                (Ok tt) keyed_station_treated eq_refl) as (_ & _ & Hok).
    destruct (Hok eq_refl) as [_ Hoff].
    apply Hoff; [discriminate|simpl; auto].
Defined.


(** ** QuickWeighDialog *)

Lemma refers_Some_in k l : In k l -> refers (Some k) l = true.
Proof.
  intros H. simpl. apply existsb_exists. exists k. split; [exact H|apply Z.eqb_refl].
Qed.

Lemma refers_Some_inv k l : refers (Some k) l = true -> In k l.
Proof.
  simpl. intros H. apply existsb_exists in H. destruct H as (j & Hj & E).
  apply Z.eqb_eq in E. now subst.
Qed.

Ltac event_fields :=
  cbn [Event.id Event.animal_id Event.mob_id Event.event_type Event.event_date
       Event.notes Event.recorded_by Event.created_at set_event_type
       WeighEvent.id WeighEvent.event_id WeighEvent.weight_kg
       WeighEvent.condition_score].

Lemma fk_event_set_events e f db :
  fk_event e (set_events f db)
  = refers (Event.animal_id e) (animal_ids db) && refers (Event.mob_id e) (mob_ids db).
Proof. reflexivity. Qed.

Lemma fk_weigh_insert_fresh g k e db l :
  WeighEvent.event_id g = Some k ->
  rows (events db) = l ++ [e] -> Event.id e = Some k ->
  fk_weigh_insert g db = true.
Proof.
  intros Hg Hrows Hid. unfold fk_weigh_insert. rewrite Hg. simpl.
  apply existsb_exists. exists k. split; [|apply Z.eqb_refl].
  unfold event_ids. rewrite Hrows, ids_app. apply in_or_app. right.
  simpl. rewrite Hid. now left.
Qed.

Lemma save_weigh_event_fresh now t a w c db :
  In a (animal_ids db) ->
  exists x db1,
    save_weigh_event now (Event.mk None NOTE t (Some a) None EmptyString EmptyString None)
                     (WeighEvent.mk None None w c) db = (Ok x, db1)
    /\ animals db1 = animals db
    /\ incl (rows (events db)) (rows (events db1))
    /\ incl (rows (weigh_events db)) (rows (weigh_events db1))
    /\ List.length (rows (events db1)) = S (List.length (rows (events db)))
    /\ weighed a t w c db1.
Proof.
  intros Ha. unfold save_weigh_event, save_event, bind, sql_insert, ret.
  event_fields. rewrite fk_event_set_events. event_fields.
  rewrite (refers_Some_in _ _ Ha). cbn [refers andb].
  erewrite fk_weigh_insert_fresh; [|reflexivity|reflexivity|reflexivity].
  do 2 eexists. split; [reflexivity|]. simpl.
  split; [reflexivity|]. split; [apply incl_appl, incl_refl|].
  split; [apply incl_appl, incl_refl|].
  split; [rewrite length_app; simpl; lia|].
  do 2 eexists. split; [apply in_or_app; right; left; reflexivity|].
  split; [apply in_or_app; right; left; reflexivity|].
  simpl. rewrite Z.eqb_refl. auto 10.
Qed.

Lemma save_weigh_event_missing now e g db x db1 :
  save_weigh_event now
    (Event.mk None NOTE (Event.event_date e) (Event.animal_id e) None
              EmptyString EmptyString None) g db = (Ok x, db1) ->
  ref_ok (Event.animal_id e) (animal_ids db).
Proof.
  unfold save_weigh_event, save_event, bind, sql_insert, ret.
  event_fields. rewrite fk_event_set_events. event_fields.
  destruct (refers (Event.animal_id e) (animal_ids db)) eqn:E; [|discriminate].
  intros _. now apply refers_true.
Qed.

Lemma weighed_incl a t w c db db1 :
  incl (rows (events db)) (rows (events db1)) ->
  incl (rows (weigh_events db)) (rows (weigh_events db1)) ->
  weighed a t w c db -> weighed a t w c db1.
Proof.
  intros He Hw (g & e & H1 & H2 & H). exists g, e. auto.
Qed.

Lemma weigh_each clock t w c : forall l i db,
  (forall a, In a l -> In a (animal_ids db)) ->
  exists db1,
    for_each (fun i animal_id =>
                save_weigh_event (clock i)
                  (Event.mk None NOTE t (Some animal_id) None EmptyString EmptyString None)
                  (WeighEvent.mk None None w c) ;;;
                ret tt) i l db = (Ok tt, db1)
    /\ animals db1 = animals db
    /\ incl (rows (events db)) (rows (events db1))
    /\ incl (rows (weigh_events db)) (rows (weigh_events db1))
    /\ List.length (rows (events db1))
       = (List.length (rows (events db)) + List.length l)%nat
    /\ forall a, In a l -> weighed a t w c db1.
Proof.
  induction l as [|a0 l IH]; intros i db Hl; simpl.
  - exists db. split; [reflexivity|]. split; [reflexivity|].
    split; [apply incl_refl|]. split; [apply incl_refl|]. split; [lia|]. intros a [].
  - destruct (@save_weigh_event_fresh (clock i) t a0 w c db (Hl a0 (or_introl eq_refl)))
      as (x & db0 & E0 & Ha & He & Hw & Hlen & Hdone).
    unfold bind at 1. unfold bind at 1. rewrite E0. simpl.
    destruct (IH (S i) db0) as (db1 & E1 & Ha' & He' & Hw' & Hlen' & Hdone').
    { intros a Hin. unfold animal_ids. rewrite Ha. apply Hl. now right. }
    exists db1. split; [exact E1|]. split; [congruence|].
    split; [eapply incl_tran; eauto|]. split; [eapply incl_tran; eauto|].
    split; [lia|]. intros a [<-|Hin]; [|auto].
    eapply weighed_incl; eauto.
Qed.

Lemma weigh_each_stored clock t w c : forall l i db db1,
  for_each (fun i animal_id =>
              save_weigh_event (clock i)
                (Event.mk None NOTE t (Some animal_id) None EmptyString EmptyString None)
                (WeighEvent.mk None None w c) ;;;
              ret tt) i l db = (Ok tt, db1) ->
  forall a, In a l -> In a (animal_ids db).
Proof.
  induction l as [|a0 l IH]; intros i db db1; simpl; [intros _ a []|].
  unfold bind at 1. unfold bind at 1.
  destruct (save_weigh_event _ _ _ db) as [[x|err] db0] eqn:E0; simpl; [|discriminate].
  intros Hrest a Hin.
  pose proof (@save_weigh_event_missing (clock i)
                (Event.mk None NOTE t (Some a0) None EmptyString EmptyString None)
                (WeighEvent.mk None None w c) db x db0 E0) as Hfirst. simpl in Hfirst.
  destruct Hin as [<-|Hin]; [exact Hfirst|].
  specialize (IH _ _ _ Hrest a Hin).
  destruct (@save_weigh_event_fresh (clock i) t a0 w c db Hfirst)
    as (x' & db0' & E0' & Ha & _).
  rewrite E0 in E0'. injection E0' as _ <-.
  unfold animal_ids in *. now rewrite <- Ha.
Qed.

(** X11.  [QuickWeighDialog._on_accept] with a weight that is not positive
    stores nothing.  With a positive weight the dialog is accepted exactly
    when every listed animal is stored; then it leaves the animals as they
    were, adds one event per listed animal, and holds for each listed
    animal a WEIGH event of the chosen date with a weigh row of the entered
    weight, the condition score being stored only when it is positive. *)
Theorem quick_weigh_records_each_animal
    (clock : nat -> datetime) (l : list Z) (form : WeighForm) (db : Database) :
  (Qle_bool (weight_spin form) 0 = true ->
   QuickWeighDialog_on_accept clock l form db = (Ok false, db))
  /\ (Qle_bool (weight_spin form) 0 = false ->
      ((forall a, In a l -> In a (animal_ids db)) <->
       exists db', QuickWeighDialog_on_accept clock l form db = (Ok true, db'))
      /\ forall db',
           QuickWeighDialog_on_accept clock l form db = (Ok true, db') ->
           animals db' = animals db
           /\ List.length (rows (events db'))
              = (List.length (rows (events db)) + List.length l)%nat
           /\ forall a, In a l ->
                weighed a (weigh_date_edit form) (weight_spin form)
                        (stored_condition form) db').
Proof.
  unfold QuickWeighDialog_on_accept. split; intros Hw; rewrite Hw; [reflexivity|].
  fold (stored_condition form).
  assert (forall db',
             (for_each (fun i animal_id =>
                save_weigh_event (clock i)
                  (Event.mk None NOTE (weigh_date_edit form) (Some animal_id) None
                            EmptyString EmptyString None)
                  (WeighEvent.mk None None (weight_spin form) (stored_condition form)) ;;;
                ret tt) 0%nat l ;;; ret true) db = (Ok true, db') ->
             for_each (fun i animal_id =>
                save_weigh_event (clock i)
                  (Event.mk None NOTE (weigh_date_edit form) (Some animal_id) None
                            EmptyString EmptyString None)
                  (WeighEvent.mk None None (weight_spin form) (stored_condition form)) ;;;
                ret tt) 0%nat l db = (Ok tt, db')) as Hloop.
  { intros db'. unfold bind at 1.
    destruct (for_each _ 0%nat l db) as [[[]|err] db1]; [|discriminate].
    unfold ret. now intros [= <-]. }
  split; [split|].
  - intros Hl.
    destruct (weigh_each clock (weigh_date_edit form) (weight_spin form)
                (stored_condition form) l 0%nat db Hl) as (db1 & E & _).
    exists db1. unfold bind at 1. now rewrite E.
  - intros [db' Hrun]. apply Hloop in Hrun. eapply weigh_each_stored; eauto.
  - intros db' Hrun. apply Hloop in Hrun.
    pose proof (@weigh_each_stored _ _ _ _ _ _ _ _ Hrun) as Hl.
    destruct (weigh_each clock (weigh_date_edit form) (weight_spin form)
                (stored_condition form) l 0%nat db Hl) as (db1 & E & Ha & _ & _ & Hlen & Hall).
    rewrite Hrun in E. injection E as <-. auto.
Qed.

Lemma quick_weigh_records_each_animal_witness :
  exists db',
    QuickWeighDialog_on_accept (fun _ => 9) [1] scales farm = (Ok true, db')
    /\ weighed 1 738895 100 None db'.
Proof.
  destruct (quick_weigh_records_each_animal (fun _ => 9) [1] scales farm) as [_ H].
  destruct (H eq_refl) as [Hiff Hall].
  destruct (proj1 Hiff) as [db' Hrun].
  { intros a [<-|[]]. vm_compute. now left. }
  exists db'. split; [exact Hrun|].
  destruct (Hall db' Hrun) as (_ & _ & Hw). apply (Hw 1). now left.
Defined.

(** ** The settings form *)

(** X12.  Saving the settings form always goes through, and
    [get_property_settings] then returns what the form held; the first
    save creates the settings row and every later one rewrites that row, so
    the table never grows beyond the rows it has. *)
Theorem settings_form_is_stored_once
    (now : datetime) (form : SettingsForm) (db : Database) :
  keyed PropertySettings.id (rows (property_settings db)) ->
  exists db' s,
    SettingsView_save_property_settings now form db = (Ok true, db')
    /\ get_property_settings db' = (Ok (Some s), db')
    /\ shows s form
    /\ List.length (rows (property_settings db'))
       = Nat.max 1 (List.length (rows (property_settings db))).
Proof.
  intros [_ Hids].
  unfold SettingsView_save_property_settings, get_property_settings, bind, query.
  destruct (rows (property_settings db)) as [|s0 rest] eqn:Hrows; simpl hd_error; cbv iota.
  - unfold save_property_settings, try_except, bind, sql_insert, no_fk, ret. simpl.
    do 2 eexists. split; [reflexivity|].
    unfold set_property_settings, insert_row. cbn [property_settings rows].
    rewrite Hrows. simpl.
    split; [reflexivity|]. split; [|reflexivity]. repeat split.
  - destruct (PropertySettings.id s0) as [k|] eqn:Hk.
    2:{ exfalso. apply Hids. simpl. left. exact Hk. }
    unfold save_property_settings, try_except, bind, sql_update, execute, no_fk, ret.
    cbn [PropertySettings.id]. rewrite ?Hk.
    match goal with |- context [forallb ?p ?rs] =>
      replace (forallb p rs) with true end.
    2:{ symmetry. apply forallb_forall. intros r _. apply orb_true_r. }
    do 2 eexists. split; [reflexivity|].
    unfold set_property_settings, update_row. cbn [property_settings rows].
    rewrite Hrows. simpl.
    replace (has_id PropertySettings.id k s0) with true.
    2:{ symmetry. now apply has_id_true. }
    split; [reflexivity|]. split; [repeat split|].
    rewrite length_map. reflexivity.
Qed.

Lemma settings_form_is_stored_once_witness :
  exists db' s,
    SettingsView_save_property_settings 9 office farm = (Ok true, db')
    /\ get_property_settings db' = (Ok (Some s), db')
    /\ shows s office
    /\ List.length (rows (property_settings db'))
       = Nat.max 1 (List.length (rows (property_settings farm))).
Proof.
  apply (@settings_form_is_stored_once 9 office farm).
  split; simpl; [constructor|tauto].
Defined.


(** ** Deleting a mob: how the flow ends *)

Lemma unassign_step_ok now x k db :
  Animal.id x = Some k ->
  (forall r, In r (rows (animals db)) -> Animal.id r = Some k -> r = x) ->
  ref_ok (Animal.dam_id x) (animal_ids db) ->
  ref_ok (Animal.sire_id x) (animal_ids db) ->
  exists y,
    save_animal now (set_mob_id None x) db
    = (Ok y,
       set_animals
         (fun t => mkTable
                     (map (fun r => if has_id Animal.id k r
                                    then unassigned now r else r) (rows t))
                     (seq t))
         db).
Proof.
  intros Hid Hx Hdam Hsire.
  destruct (unassign_step now db Hid Hx) as [Hraise|Hok]; [|exact Hok].
  exfalso. revert Hraise.
  unfold save_animal. simpl. rewrite Hid. unfold bind, sql_update, execute.
  match goal with |- context [forallb ?p ?rs] =>
    replace (forallb p rs) with true end; [discriminate|].
  symmetry. apply forallb_forall. intros r' Hr'.
  simpl in Hr'. apply in_map_iff in Hr'. destruct Hr' as (r & <- & Hr).
  destruct (has_id Animal.id k r) eqn:E.
  - apply orb_true_iff. right. unfold fk_animal.
    rewrite animal_ids_update by reflexivity. simpl.
    apply andb_true_iff. split; now apply refers_true.
  - now rewrite E.
Qed.

Lemma unassign_loop_ok clock : forall l i db,
  NoDup (map Animal.id l) ->
  (forall x, In x l ->
     exists k, Animal.id x = Some k
               /\ forall r, In r (rows (animals db)) -> Animal.id r = Some k -> r = x) ->
  (forall x, In x l ->
     ref_ok (Animal.dam_id x) (animal_ids db)
     /\ ref_ok (Animal.sire_id x) (animal_ids db)) ->
  exists db1,
    for_each (fun i animal => save_animal (clock i) (set_mob_id None animal) ;;; ret tt)
             i l db = (Ok tt, db1).
Proof.
  induction l as [|x l IH]; intros i db Hnd HP Hrefs; simpl.
  - eexists. reflexivity.
  - inversion Hnd as [|? ? Hnotin Hnd']; subst.
    destruct (HP x (or_introl eq_refl)) as (k & Hk & Hx).
    destruct (Hrefs x (or_introl eq_refl)) as [Hdam Hsire].
    destruct (unassign_step_ok (clock i) db Hk Hx Hdam Hsire) as [y Hy].
    unfold bind at 1. unfold bind at 1. rewrite Hy. simpl.
    set (step := fun r0 => if has_id Animal.id k r0
                           then unassigned (clock i) r0 else r0).
    set (db0 := set_animals _ db).
    assert (forall r0, Animal.id (step r0) = Animal.id r0) as Hstep_id.
    { intros r0. unfold step. now destruct (has_id Animal.id k r0). }
    assert (animal_ids db0 = animal_ids db) as Hids.
    { unfold animal_ids, db0. simpl. unfold ids. rewrite flat_map_concat_map, map_map.
      rewrite flat_map_concat_map. f_equal. apply map_ext. intros r0.
      fold (step r0). now rewrite Hstep_id. }
    apply IH; [exact Hnd'| |].
    + intros x' Hx'. destruct (HP x' (or_intror Hx')) as (k' & Hk' & Hx'u).
      exists k'. split; [assumption|]. intros r0 Hr0 Hid0.
      simpl in Hr0. apply in_map_iff in Hr0. destruct Hr0 as (r1 & <- & Hr1).
      fold (step r1) in *. rewrite Hstep_id in Hid0.
      assert (has_id Animal.id k r1 = false) as E.
      { destruct (has_id Animal.id k r1) eqn:E; [|reflexivity].
        apply has_id_true in E. exfalso. apply Hnotin.
        rewrite Hk, <- E, Hid0, <- Hk'. now apply in_map. }
      unfold step. rewrite E. auto.
    + intros x' Hx'. rewrite Hids. apply Hrefs. now right.
Qed.

Lemma unassign_animals_frame clock m :
  preserves (fun db => (mobs db, events db, tasks db)) (unassign_animals clock m).
Proof. frame. Qed.

Lemma unassign_animals_ok clock m db :
  keyed Animal.id (rows (animals db)) ->
  parents_stored m db ->
  exists db1,
    unassign_animals clock m db = (Ok tt, db1)
    /\ (mobs db1, events db1, tasks db1) = (mobs db, events db, tasks db)
    /\ Forall2 (fun a a' => if sql_eq (Animal.mob_id a) (Some m)
                            then exists u, a' = unassigned u a else a' = a)
               (rows (animals db)) (rows (animals db1)).
Proof.
  intros Hkeyed Hparents.
  assert (exists db1, unassign_animals clock m db = (Ok tt, db1)) as [db1 Hrun].
  { destruct Hkeyed as [Hnd Hnone].
    unfold unassign_animals, get_animals_by_mob. unfold bind at 1. unfold query.
    set (in_mob := fun a => sql_eq (Animal.mob_id a) (Some m)).
    assert (forall x, In x (order_by animal_le (filter in_mob (rows (animals db))))
                      <-> In x (rows (animals db)) /\ in_mob x = true) as Hl.
    { intros x. now rewrite order_by_in, filter_In. }
    apply unassign_loop_ok.
    - apply Permutation_NoDup
        with (l := map Animal.id (filter in_mob (rows (animals db)))).
      + apply Permutation_map. symmetry. apply order_by_perm.
      + now apply NoDup_map_filter.
    - intros x Hx. apply Hl in Hx. destruct Hx as [Hx _].
      destruct (Animal.id x) as [k|] eqn:Hk.
      2:{ exfalso. apply Hnone. rewrite <- Hk. now apply in_map. }
      exists k. split; [reflexivity|]. intros r0 Hr0 Hid0.
      eapply keyed_unique; eauto.
    - intros x Hx. apply Hl in Hx. destruct Hx as [Hx Hm].
      apply Hparents; [exact Hx|]. unfold in_mob in Hm.
      apply sql_eq_true in Hm. destruct Hm as (j & Hj & [= <-]). exact Hj. }
  exists db1. split; [exact Hrun|]. split.
  - pose proof (unassign_animals_frame clock m db) as H. now rewrite Hrun in H.
  - destruct (@unassign_animals_spec clock m db (Ok tt) db1 Hkeyed Hrun) as (_ & _ & Hok).
    now apply Hok.
Qed.

Lemma not_in_mob_after m l l' :
  Forall2 (fun a a' => if sql_eq (Animal.mob_id a) (Some m)
                       then exists u, a' = unassigned u a else a' = a) l l' ->
  forall a', In a' l' -> sql_eq (Animal.mob_id a') (Some m) = false.
Proof.
  intros H a' Ha'. destruct (Forall2_in_r a' H Ha') as (a & _ & Haa).
  destruct (sql_eq (Animal.mob_id a) (Some m)) eqn:E.
  - destruct Haa as [u ->]. reflexivity.
  - now subst.
Qed.

(** X13.  How a confirmed [_on_delete_mob] ends on a stored mob whose
    animals have stored parents.  The animals of the mob are all unassigned
    and stay so.  When no event and no task is about the mob, the mob is
    then deleted; when one is, the flow ends in IntegrityError with the mob
    still stored and its animals already unassigned. *)
Theorem on_delete_mob_outcome
    (clock : nat -> datetime) (m : Z) (mob : Mob.t) (db : Database) :
  m <> 0 ->
  get_mob m db = (Ok (Some mob), db) ->
  keyed Animal.id (rows (animals db)) ->
  parents_stored m db ->
  exists db1,
    unassign_animals clock m db = (Ok tt, db1)
    /\ get_animals_by_mob m db1 = (Ok [], db1)
    /\ (mob_on_record m db ->
        MobsView_on_delete_mob clock (Some m) true db = (Raise IntegrityError, db1)
        /\ get_mob m db1 = (Ok (Some mob), db1))
    /\ (~ mob_on_record m db ->
        exists db',
          MobsView_on_delete_mob clock (Some m) true db = (Ok tt, db')
          /\ get_mob m db' = (Ok None, db')
          /\ get_animals_by_mob m db' = (Ok [], db')).
Proof.
  intros Hm Hmob Hkeyed Hparents.
  destruct (@unassign_animals_ok clock m db Hkeyed Hparents) as (db1 & Hrun & Hframe & Hall).
  injection Hframe as Hmobs Hevents Htasks.
  pose proof (@not_in_mob_after m _ _ Hall) as Hnone.
  assert (get_animals_by_mob m db1 = (Ok [], db1)) as Hempty.
  { unfold get_animals_by_mob, query. now rewrite filter_absent. }
  assert (mob_in_use m db1 <-> mob_on_record m db) as Huse.
  { unfold mob_in_use, mob_on_record. rewrite Hevents, Htasks. split; [|tauto].
    intros [(a & Ha & Hk)|H]; [|exact H]. exfalso.
    specialize (Hnone a Ha). rewrite Hk in Hnone. simpl in Hnone.
    now rewrite Z.eqb_refl in Hnone. }
  assert (forall out,
             delete_mob m db1 = out ->
             MobsView_on_delete_mob clock (Some m) true db = out) as Hflow.
  { intros out <-. unfold MobsView_on_delete_mob.
    replace (m =? 0) with false by (symmetry; now apply Z.eqb_neq).
    unfold bind at 1. rewrite Hmob. unfold bind at 1.
    unfold get_mob_animal_count at 1, query at 1.
    unfold bind at 1. now rewrite Hrun. }
  exists db1. split; [exact Hrun|]. split; [exact Hempty|].
  destruct (delete_mob_statement m db1) as [[Hb Hdel]|[Hfree (db' & Hdel & Hgone & _)]].
  - split; [|intros Hnot; exfalso; apply Hnot; now apply Huse].
    intros _. split; [now apply Hflow|].
    unfold get_mob, query in *. rewrite Hmobs. injection Hmob as ->. reflexivity.
  - split; [intros Hrec; exfalso; apply Hfree; now apply Huse|].
    intros _. exists db'. split; [now apply Hflow|]. split; [exact Hgone|].
    unfold delete_mob in Hdel.
    match type of Hdel with sql_delete ?g ?s ?k ?c ?d = _ =>
      destruct (sql_delete_cases g s k c d) as [E|E] end;
      rewrite E in Hdel; [|discriminate].
    injection Hdel as <-. unfold get_animals_by_mob, query in *.
    injection Hempty as Hempty. cbn [animals set_mobs]. now rewrite Hempty.
Qed.

Lemma on_delete_mob_outcome_witness :
  exists db1,
    unassign_animals (fun _ => 9) 1 yard_mustered = (Ok tt, db1)
    /\ get_animals_by_mob 1 db1 = (Ok [], db1)
    /\ MobsView_on_delete_mob (fun _ => 9) (Some 1) true yard_mustered
       = (Raise IntegrityError, db1)
    /\ get_mob 1 db1
       = (Ok (Some (Mob.mk (Some 1) "Weaners" CATTLE EmptyString None (Some 1) (Some 1))),
          db1).
Proof.
  destruct (@on_delete_mob_outcome (fun _ => 9) 1
              (Mob.mk (Some 1) "Weaners" CATTLE EmptyString None (Some 1) (Some 1))
              yard_mustered) as (db1 & Hrun & Hempty & Hrec & _).
  - discriminate.
  - reflexivity.
  - split; simpl; [repeat constructor; simpl; intuition discriminate
                  | intuition discriminate].
  - intros a Hin Hmob. simpl in Hin.
    destruct Hin as [<-|[<-|[]]]; simpl; tauto.
  - exists db1. split; [exact Hrun|]. split; [exact Hempty|].
    apply Hrec. left. vm_compute. eexists. split; [left; reflexivity|reflexivity].
Defined.

(** ** A treatment whose product is not stored *)

(** X14.  [save_treatment_event] is not all-or-nothing.  For a new event
    with stored references and a new treatment whose product is not stored,
    all ids being ints that SQLite can hold, the call raises IntegrityError
    after the event was committed: the events table has gained the event,
    typed TREATMENT, under a fresh id, and the treatments table is as it
    was. *)
Theorem refused_treatment_leaves_event
    (now : datetime) (e : Event.t) (t : TreatmentEvent.t) (p : Z) (db : Database) :
  Event.id e = None ->
  TreatmentEvent.id t = None ->
  event_refs_ok e db ->
  binds (Event.animal_id e) = true ->
  binds (Event.mob_id e) = true ->
  TreatmentEvent.product_id t = Some p ->
  int64 p = true ->
  ~ In p (product_ids db) ->
  exists db' k,
    save_treatment_event now e t db = (Raise IntegrityError, db')
    /\ ~ In k (event_ids db)
    /\ rows (events db')
       = rows (events db)
         ++ [Event.mk (Some k) TREATMENT (Event.event_date e) (Event.animal_id e)
                      (Event.mob_id e) (Event.notes e) (Event.recorded_by e) (Some now)]
    /\ treatment_events db' = treatment_events db.
Proof.
  intros He Ht [Ha Hm] _ _ Hp _ Hnot.
  unfold save_treatment_event, save_event, bind, sql_insert, ret.
  cbn [Event.id set_event_type]. rewrite He.
  rewrite fk_event_set_events.
  cbn [Event.id Event.animal_id Event.mob_id Event.event_type Event.event_date
       Event.notes Event.recorded_by set_event_type].
  apply refers_true in Ha, Hm. rewrite Ha, Hm. cbn [andb].
  rewrite Ht. unfold fk_treatment_insert at 1.
  cbn [TreatmentEvent.product_id TreatmentEvent.event_id]. rewrite Hp.
  replace (refers (Some p) _) with false.
  2:{ symmetry. destruct (refers (Some p) _) eqn:E; [|reflexivity].
      apply refers_Some_inv in E. contradiction. }
  rewrite andb_false_r.
  do 2 eexists. split; [reflexivity|]. split; [|split; reflexivity].
  intros Hin. apply in_ids in Hin. destruct Hin as (r & Hr & Hid).
  exact (next_rowid_fresh Event.id (events db) r Hr Hid).
Qed.

Lemma refused_treatment_leaves_event_witness :
  exists db' k,
    save_treatment_event 7
      (Event.mk None NOTE 738895 (Some 1) None EmptyString "Sam" None)
      (TreatmentEvent.mk None None (Some 99) "B1" "5ml" ORAL "Sam" None None None)
      farm = (Raise IntegrityError, db')
    /\ ~ In k (event_ids farm)
    /\ rows (events db')
       = rows (events farm)
         ++ [Event.mk (Some k) TREATMENT 738895 (Some 1) None EmptyString "Sam" (Some 7)]
    /\ treatment_events db' = treatment_events farm.
Proof.
  apply (@refused_treatment_leaves_event 7
           (Event.mk None NOTE 738895 (Some 1) None EmptyString "Sam" None)
           (TreatmentEvent.mk None None (Some 99) "B1" "5ml" ORAL "Sam" None None None)
           99 farm).
  - reflexivity.
  - reflexivity.
  - split; simpl; [now left|exact I].
  - reflexivity.
  - reflexivity.
  - reflexivity.
  - reflexivity.
  - simpl. intuition discriminate.
Defined.

(** ** Invariants of the store *)

Section Keeps.
Variable P : Database -> Prop.

Lemma keeps_ret (A : Type) (a : A) : keeps P (ret a).
Proof. intros db H. exact H. Qed.

Lemma keeps_raise (A : Type) e : keeps P (@raise A e).
Proof. intros db H. exact H. Qed.

Lemma keeps_lift (A : Type) (r : result A) : keeps P (lift r).
Proof. intros db H. exact H. Qed.

Lemma keeps_query (A : Type) (q : Database -> A) : keeps P (query q).
Proof. intros db H. exact H. Qed.

Lemma keeps_bind (A B : Type) (m : M A) (k : A -> M B) :
keeps P m -> (forall a, keeps P (k a)) -> keeps P (bind m k).
Proof.
intros Hm Hk db H. unfold bind. specialize (Hm db H).
destruct (m db) as [[a|e] db']; simpl in *; [now apply Hk|assumption].
Qed.

Lemma keeps_for_each (A : Type) (body : nat -> A -> M unit) l :
(forall i x, keeps P (body i x)) -> forall i, keeps P (for_each body i l).
Proof.
intros H. induction l as [|x l IH]; intros i; simpl.
- apply keeps_ret.
- apply keeps_bind; auto.
Qed.

Lemma keeps_execute stmt chk :
(forall db, P db -> chk (stmt db) = true -> P (stmt db)) ->
keeps P (execute stmt chk).
Proof.
intros H db HP. unfold execute. destruct (chk (stmt db)) eqn:E; simpl; auto.
Qed.

Lemma keeps_sql_insert (A : Type) (getid : A -> option Z) tbl set_tbl fk mkrow :
(forall db, P db ->
fk (mkrow (next_rowid getid (tbl db))) (set_tbl (insert_row getid mkrow) db) = true ->
P (set_tbl (insert_row getid mkrow) db)) ->
keeps P (sql_insert getid tbl set_tbl fk mkrow).
Proof.
intros H db HP. unfold sql_insert. destruct (fk _ _) eqn:E; simpl; auto.
Qed.
End Keeps.

Section KeyedTable.
Variable A : Type.
Variable getid : A -> option Z.

Lemma keyed_insert mkrow (t : Table A) :
(forall k, getid (mkrow k) = Some k) ->
keyed getid (rows t) -> keyed getid (rows (insert_row getid mkrow t)).
Proof.
intros Hmk [Hnd Hnone]. unfold keyed, insert_row. cbn [rows].
rewrite map_app. cbn [map]. rewrite Hmk. split.
- apply NoDup_app; [exact Hnd|repeat constructor; simpl; tauto|].
intros o Ho [<-|[]]. apply in_map_iff in Ho. destruct Ho as (r & Hid & Hr).
exact (next_rowid_fresh getid t r Hr Hid).
- intros Hin. apply in_app_or in Hin. destruct Hin as [Hin|[Hin|[]]];
[contradiction|discriminate].
Qed.

Lemma keyed_update k f (t : Table A) :
(forall r, getid (f r) = getid r) ->
keyed getid (rows t) -> keyed getid (rows (update_row getid k f t)).
Proof.
intros Hf H. unfold keyed, update_row. simpl. rewrite map_map.
replace (map (fun r => getid (if has_id getid k r then f r else r)) (rows t))
with (map getid (rows t)); [exact H|].
apply map_ext. intros r. destruct (has_id getid k r); [now rewrite Hf|reflexivity].
Qed.

Lemma keyed_delete k (t : Table A) :
keyed getid (rows t) -> keyed getid (rows (delete_row getid k t)).
Proof.
intros [Hnd Hnone]. unfold keyed, delete_row. cbn [rows]. split.
- now apply NoDup_map_filter.
- intros Hin. apply Hnone. apply in_map_iff in Hin.
destruct Hin as (r & Hid & Hr). apply filter_In in Hr.
rewrite <- Hid. apply in_map. tauto.
Qed.
End KeyedTable.

Ltac keyed_table :=
  unfold well_keyed in *; cbn [paddocks mobs animals products events movement_events
                          treatment_events weigh_events tasks property_settings
                          set_paddocks set_mobs set_animals set_products set_events
                          set_movement_events set_treatment_events set_weigh_events
                          set_tasks set_property_settings];
  intuition;
  first [ apply keyed_insert; [intros; reflexivity | assumption]
        | apply keyed_update; [intros; reflexivity | assumption]
        | apply keyed_delete; assumption ].

Ltac keeps_step :=
  match goal with
  | |- forall _, _ => intro
  | |- keeps _ (ret _) => apply keeps_ret
  | |- keeps _ (raise _) => apply keeps_raise
  | |- keeps _ (lift _) => apply keeps_lift
  | |- keeps _ (query _) => apply keeps_query
  | |- keeps _ (bind _ _) => apply keeps_bind
  | |- keeps _ (for_each _ _ _) => apply keeps_for_each
  | |- keeps _ (sql_insert _ _ _ _ _) => apply keeps_sql_insert
  | |- keeps _ (sql_update _ _ _ _ _ _) => apply keeps_execute
  | |- keeps _ (sql_delete _ _ _ _) => apply keeps_execute
  | |- keeps _ (match ?x with _ => _ end) => destruct x
  | |- keeps _ _ => progress autounfold with ops
  end.

Lemma run_keeps_keys o : keeps well_keyed (fun db => (Ok tt, run o db)).
Proof.
  intros db H. simpl.
  destruct o; unfold run, exec;
    match goal with
    | |- well_keyed (snd (?m db)) =>
        revert db H; change (keeps well_keyed m); repeat keeps_step; keyed_table
    end.
Qed.

Lemma store_step o w : store (step o w) = run o (store w).
Proof. destruct o; reflexivity. Qed.

(** X15.  In every store that the operations of [Database] can reach
    from the empty store, every row of every table has a rowid and no two
    rows of a table share one; each operation keeps this, whether it
    returns or raises. *)
Theorem reachable_stores_are_keyed (w : World) :
  reachable w -> well_keyed (store w).
Proof.
  induction 1 as [|o w _ IH].
  - unfold well_keyed, keyed. simpl. repeat split; try constructor; tauto.
  - rewrite store_step. exact (@run_keeps_keys o (store w) IH).
Qed.

Lemma reachable_stores_are_keyed_witness : well_keyed (store two_visits).
Proof.
  apply reachable_stores_are_keyed. exact two_visits_reachable.
Defined.


(** ** Looking up by EID *)

Lemma save_new_animal now a db x db' :
  Animal.id a = None ->
  save_animal now a db = (Ok x, db') ->
  rows (animals db') = rows (animals db) ++ [x]
  /\ Animal.eid x = Animal.eid a
  /\ Animal.visual_tag x = Animal.visual_tag a.
Proof.
  intros Hid. unfold save_animal. rewrite Hid. unfold bind, ret.
  match goal with |- context [sql_insert ?g ?tb ?s ?fk ?mk db] =>
    destruct (sql_insert_cases g tb s fk mk db) as [-> | ->] end; [|discriminate].
  intros [= <- <-]. simpl. auto.
Qed.

Lemma find_app_found (A : Type) (p : A -> bool) (l l' : list A) r :
  find p l = Some r -> find p (l ++ l') = Some r.
Proof.
  induction l as [|y l IH]; simpl; [discriminate|].
  destruct (p y); auto.
Qed.

(** X16.  EIDs are not unique.  A new animal is stored whatever its EID;
    [get_animal_by_eid] then returns it when no stored animal had that EID,
    and keeps returning the earlier animal when one had.  Lookups of other
    EIDs are unchanged. *)
Theorem eid_lookup_after_save
    (now : datetime) (a x : Animal.t) (db db' : Database) :
  Animal.id a = None ->
  save_animal now a db = (Ok x, db') ->
  (forall r, get_animal_by_eid (Animal.eid a) db = (Ok (Some r), db) ->
             get_animal_by_eid (Animal.eid a) db' = (Ok (Some r), db'))
  /\ (get_animal_by_eid (Animal.eid a) db = (Ok None, db) ->
      get_animal_by_eid (Animal.eid a) db' = (Ok (Some x), db'))
  /\ (forall e, e <> Animal.eid a ->
        fst (get_animal_by_eid e db') = fst (get_animal_by_eid e db)).
Proof.
  intros Hid Hsave.
  destruct (save_new_animal now a db Hid Hsave) as (Hrows & Heid & _).
  unfold get_animal_by_eid, query. rewrite Hrows. repeat split.
  - intros r [= Hr]. now rewrite (find_app_found _ _ _ Hr).
  - intros [= Hnone]. rewrite find_app_fresh; [reflexivity| |].
    + intros r Hr. exact (find_none _ _ Hnone r Hr).
    + rewrite Heid. apply String.eqb_refl.
  - intros e He. simpl. f_equal. apply find_app_other.
    rewrite Heid. apply String.eqb_neq. congruence.
Qed.

Lemma eid_lookup_after_save_witness :
  get_animal_by_eid "982000411" farm = (Ok (Some heifer_row), farm)
  /\ get_animal_by_eid "982000411"
       (exec (save_animal 8 (Animal.mk None "982000411" "B7" CATTLE "Angus" FEMALE None
                                       ALIVE None None None EmptyString None None)) farm)
     = (Ok (Some heifer_row),
        exec (save_animal 8 (Animal.mk None "982000411" "B7" CATTLE "Angus" FEMALE None
                                       ALIVE None None None EmptyString None None)) farm).
Proof.
  split; [reflexivity|].
  destruct (@eid_lookup_after_save 8
              (Animal.mk None "982000411" "B7" CATTLE "Angus" FEMALE None
                         ALIVE None None None EmptyString None None)
              (Animal.mk (Some 2) "982000411" "B7" CATTLE "Angus" FEMALE None
                         ALIVE None None None EmptyString (Some 8) (Some 8))
              farm
              (exec (save_animal 8 (Animal.mk None "982000411" "B7" CATTLE "Angus" FEMALE
                                              None ALIVE None None None EmptyString
                                              None None)) farm)
              eq_refl eq_refl) as (Hold & _ & _).
  apply Hold. reflexivity.
Defined.

(** ** Event histories *)

Lemma event_date_desc_trans a b c :
  event_date_desc a b = true -> event_date_desc b c = true -> event_date_desc a c = true.
Proof. unfold event_date_desc. rewrite !Z.leb_le. lia. Qed.

Lemma event_date_desc_total a b :
  event_date_desc a b = true \/ event_date_desc b a = true.
Proof. unfold event_date_desc. rewrite !Z.leb_le. lia. Qed.

Lemma history_by_type (col : Event.t -> option Z) k ty l :
  order_by event_date_desc
    (filter (fun e => sql_eq (col e) (Some k) && EventType_eqb (Event.event_type e) ty) l)
  = filter (fun e => EventType_eqb (Event.event_type e) ty)
      (order_by event_date_desc (filter (fun e => sql_eq (col e) (Some k)) l)).
Proof.
  rewrite <- order_by_filter
    by (first [exact event_date_desc_trans | exact event_date_desc_total]).
  now rewrite filter_filter.
Qed.

Lemma history_sorted (p : Event.t -> bool) l :
  StronglySorted (fun x y => Event.event_date y <= Event.event_date x)
                 (order_by event_date_desc (filter p l)).
Proof.
  apply Sorted_StronglySorted.
  - intros a b c. lia.
  - apply Sorted_weaken with (R := fun a b => event_date_desc a b = true).
    + intros a b. apply Z.leb_le.
    + apply order_by_sorted. exact event_date_desc_total.
Qed.

(** X17.  For an id that SQLite can hold, [get_events_for_animal] returns
    exactly the stored events of the animal, latest date first, and with
    an event type it returns, in the same order, those of them that have
    the type.  The same holds for [get_events_for_mob].  For an id outside
    the signed 64-bit range both raise OverflowError, with or without an
    event type. *)
Theorem histories_are_complete_and_ordered (k : Z) (ty : EventType) (db : Database) :
  if int64 k
  then (exists l,
          Api.get_events_for_animal k None db = (Ok l, db)
          /\ Api.get_events_for_animal k (Some ty) db
             = (Ok (filter (fun e => EventType_eqb (Event.event_type e) ty) l), db)
          /\ (forall e, In e l <-> In e (rows (events db)) /\ Event.animal_id e = Some k)
          /\ StronglySorted (fun x y => Event.event_date y <= Event.event_date x) l)
       /\ (exists l,
             Api.get_events_for_mob k None db = (Ok l, db)
             /\ Api.get_events_for_mob k (Some ty) db
                = (Ok (filter (fun e => EventType_eqb (Event.event_type e) ty) l), db)
             /\ (forall e, In e l <-> In e (rows (events db)) /\ Event.mob_id e = Some k)
             /\ StronglySorted (fun x y => Event.event_date y <= Event.event_date x) l)
  else (forall o, Api.get_events_for_animal k o db = (Raise OverflowError, db))
       /\ (forall o, Api.get_events_for_mob k o db = (Raise OverflowError, db)).
Proof.
  unfold Api.get_events_for_animal, Api.get_events_for_mob.
  destruct (int64 k) eqn:Hk.
  2:{ split; intros o; apply (@bind_int_overflow k Hk). }
  rewrite !(@bind_int_fit k Hk).
  split; eexists; (split; [reflexivity|]);
    unfold get_events_for_animal, get_events_for_mob, query;
    (split; [now rewrite history_by_type|]);
    (split; [|apply history_sorted]);
    intros e; rewrite order_by_in, filter_In, sql_eq_true;
    (split; intros [Hin H]; (split; [exact Hin|]));
    [ destruct H as (x & Hx & [= <-]); exact Hx | eauto
    | destruct H as (x & Hx & [= <-]); exact Hx | eauto ].
Qed.

Lemma StronglySorted_app_between (A : Type) (R : A -> A -> Prop) l1 l2 :
  StronglySorted R (l1 ++ l2) -> forall x y, In x l1 -> In y l2 -> R x y.
Proof.
  induction l1 as [|z l1 IH]; simpl; [intros _ x y []|].
  intros H x y Hx Hy. inversion H as [|? ? Hs Hall]; subst.
  destruct Hx as [<-|Hx]; [|now apply IH].
  rewrite Forall_forall in Hall. apply Hall. apply in_or_app. now right.
Qed.

(** X18.  [get_recent_events] with a limit [lim >= 0] that SQLite can
    hold returns the [lim] latest events (all of them when there are
    fewer), latest first: no event that it leaves out is dated after one
    that it returns.  With a negative limit that SQLite can hold it returns
    every event.  With a limit outside the signed 64-bit range it raises
    OverflowError. *)
Theorem recent_events_are_the_latest (lim : Z) (db : Database) :
  if int64 lim
  then exists l rest,
         Api.get_recent_events lim db = (Ok l, db)
         /\ Permutation (l ++ rest) (rows (events db))
         /\ StronglySorted (fun a b => Event.event_date b <= Event.event_date a) l
         /\ (forall e e', In e l -> In e' rest ->
                          Event.event_date e' <= Event.event_date e)
         /\ (0 <= lim ->
             List.length l = Nat.min (Z.to_nat lim) (List.length (rows (events db))))
         /\ (lim < 0 -> rest = [])
  else Api.get_recent_events lim db = (Raise OverflowError, db).
Proof.
  unfold Api.get_recent_events. destruct (int64 lim) eqn:Hlim.
  2:{ apply (@bind_int_overflow lim Hlim). }
  rewrite (@bind_int_fit lim Hlim).
  unfold get_recent_events, query, limit.
  set (sorted := order_by event_recent (rev (rows (events db)))).
  assert (StronglySorted (fun a b => Event.event_date b <= Event.event_date a) sorted)
    as Hsorted.
  { pose proof (recent_events_by_date (-1) db) as H. exact H. }
  assert (Permutation sorted (rows (events db))) as Hperm.
  { unfold sorted. rewrite order_by_perm. symmetry. apply Permutation_rev. }
  destruct (lim <? 0) eqn:E.
  - exists sorted, []. rewrite app_nil_r. apply Z.ltb_lt in E.
    repeat split; auto; [intros e e' _ []|lia].
  - exists (firstn (Z.to_nat lim) sorted), (skipn (Z.to_nat lim) sorted).
    rewrite firstn_skipn. apply Z.ltb_ge in E.
    split; [reflexivity|]. split; [exact Hperm|].
    split; [now apply StronglySorted_firstn|]. split; [|split; [|lia]].
    + apply StronglySorted_app_between. now rewrite firstn_skipn.
    + intros _. rewrite length_firstn. f_equal. now apply Permutation_length.
Qed.


(** ** Referential integrity *)

Section IdsOfTable.
Variable A : Type.
Variable getid : A -> option Z.

Lemma ref_ok_insert o mkrow (t : Table A) :
ref_ok o (ids getid (rows t)) ->
ref_ok o (ids getid (rows (insert_row getid mkrow t))).
Proof.
intros H. eapply ref_ok_incl; [exact H|].
unfold insert_row. cbn [rows]. rewrite ids_app. apply incl_appl, incl_refl.
Qed.

Lemma ref_ok_update o k f (t : Table A) :
(forall r, getid (f r) = getid r) ->
ref_ok o (ids getid (rows t)) ->
ref_ok o (ids getid (rows (update_row getid k f t))).
Proof.
intros Hf H. unfold update_row. cbn [rows]. now rewrite ids_update.
Qed.

Lemma ref_ok_delete o k (t : Table A) :
o <> Some k ->
ref_ok o (ids getid (rows t)) ->
ref_ok o (ids getid (rows (delete_row getid k t))).
Proof.
intros Hk H. destruct o as [j|]; [|exact I]. simpl in *.
apply in_ids in H. destruct H as (r & Hr & Hid).
apply in_ids. exists r. split; [|exact Hid].
apply filter_In. split; [exact Hr|]. apply negb_true_iff.
unfold has_id. rewrite Hid. apply Z.eqb_neq. congruence.
Qed.

Lemma ref_ok_new mkrow (t : Table A) k :
getid (mkrow (next_rowid getid t)) = Some k ->
ref_ok (Some k) (ids getid (rows (insert_row getid mkrow t))).
Proof.
intros H. simpl. unfold insert_row. cbn [rows]. rewrite ids_app.
apply in_or_app. right. simpl. rewrite H. now left.
Qed.
End IdsOfTable.

Lemma unreferenced_col (A : Type) (col : A -> option Z) k (l : list A) r :
  unreferenced col k l = true -> In r l -> col r <> Some k.
Proof.
  intros H Hr Hk. apply unreferenced_true in H. apply H. exists r. auto.
Qed.

Lemma in_update_row (A : Type) (getid : A -> option Z) k f (t : Table A) r' :
  In r' (rows (update_row getid k f t)) ->
  (In r' (rows t) /\ has_id getid k r' = false)
  \/ (exists r, In r (rows t) /\ has_id getid k r = true /\ r' = f r).
Proof.
  unfold update_row. cbn [rows]. intros H. apply in_map_iff in H.
  destruct H as (r & <- & Hr). destruct (has_id getid k r) eqn:E; eauto.
Qed.

Lemma in_insert_row (A : Type) (getid : A -> option Z) mkrow (t : Table A) r :
  In r (rows (insert_row getid mkrow t)) ->
  In r (rows t) \/ r = mkrow (next_rowid getid t).
Proof.
  unfold insert_row. cbn [rows]. intros H. apply in_app_or in H.
  destruct H as [H|[<-|[]]]; auto.
Qed.

Lemma in_delete_row (A : Type) (getid : A -> option Z) k (t : Table A) r :
  In r (rows (delete_row getid k t)) -> In r (rows t) /\ has_id getid k r = false.
Proof.
  unfold delete_row. cbn [rows]. intros H. apply filter_In in H.
  destruct H as [H E]. now apply negb_true_iff in E.
Qed.

Lemma update_check (A : Type) (getid : A -> option Z) (fk : A -> bool) k (l : list A) r :
  forallb (fun r => negb (has_id getid k r) || fk r) l = true ->
  In r l -> has_id getid k r = true -> fk r = true.
Proof.
  intros H Hr E. rewrite forallb_forall in H. specialize (H r Hr).
  now rewrite E in H.
Qed.

Ltac open_refs :=
  unfold refs_intact, mob_refs_ok, animal_refs_ok, event_refs_ok, movement_refs_ok,
    treatment_refs_ok, weigh_refs_ok, task_refs_ok,
    fk_mob, fk_animal, fk_event, fk_movement_insert, fk_movement_update,
    fk_treatment_insert, fk_treatment_update, fk_weigh_insert, fk_task, no_fk,
    paddock_ids, mob_ids, animal_ids, product_ids, event_ids in *;
  cbn [paddocks mobs animals products events movement_events treatment_events
       weigh_events tasks property_settings
       set_paddocks set_mobs set_animals set_products set_events
       set_movement_events set_treatment_events set_weigh_events
       set_tasks set_property_settings] in *.

Ltac fields :=
  cbn [Paddock.id Mob.id Mob.current_paddock_id
       Animal.id Animal.mob_id Animal.dam_id Animal.sire_id Product.id
       Event.id Event.animal_id Event.mob_id
       MovementEvent.id MovementEvent.event_id MovementEvent.from_paddock_id
       MovementEvent.to_paddock_id
       TreatmentEvent.id TreatmentEvent.event_id TreatmentEvent.product_id
       WeighEvent.id WeighEvent.event_id
       Task.id Task.source_event_id Task.animal_id Task.mob_id
       PropertySettings.id set_event_type] in *.

(** One reference, from what held before the statement or from the check
    of the statement. *)
Ltac one_ref :=
  first
    [ assumption
    | exact I
    | apply ref_ok_insert; assumption
    | apply ref_ok_update; [intro; reflexivity | assumption]
    | apply ref_ok_delete; [|assumption];
      match goal with
      | Hc : unreferenced ?col ?k ?l = true |- ?o <> Some ?k =>
          eapply (@unreferenced_col _ col k l); [exact Hc | eassumption]
      end
    | eapply ref_ok_new; fields; reflexivity ].

(** What held before for a row of the store. *)
Ltac old_refs r :=
  repeat match goal with
         | Hx : (forall x, In x (rows (?T ?db)) -> _), Hr : In r (rows (?T ?db)) |- _ =>
             let Hold := fresh "Hold" in
             pose proof (Hx r Hr) as Hold; clear Hx
         end.

Ltac split_all :=
  repeat match goal with
         | H : _ /\ _ |- _ => destruct H
         | H : _ && _ = true |- _ => apply andb_true_iff in H
         | H : refers _ _ = true |- _ => apply refers_true in H
         | |- _ /\ _ => split
         end.

Ltac component :=
  let r := fresh "r" in
  let Hr := fresh "Hr" in
  intros r Hr;
  first
    [ (* the table of an UPDATE *)
      let Hr' := fresh "Hr" in
      let r0 := fresh "r" in
      let Hr0 := fresh "Hr" in
      let Hyes := fresh "Hyes" in
      let Hno := fresh "Hno" in
      let Heq := fresh "Heq" in
      pose proof Hr as Hr';
      apply in_update_row in Hr;
      destruct Hr as [[Hr Hno]|(r0 & Hr0 & Hyes & Heq)];
      [ old_refs r
      | try match goal with
            | Hc : forallb _ _ = true |- _ =>
                let Hchk := fresh "Hchk" in
                pose proof (update_check _ _ _ _ _ Hc Hr') as Hchk;
                rewrite Heq in Hchk; specialize (Hchk Hyes)
            end;
        subst r; old_refs r0 ]
    | (* the table of an INSERT *)
      apply in_insert_row in Hr; destruct Hr as [Hr|Hr]; [old_refs r | subst r]
    | (* the table of a DELETE *)
      let Hr' := fresh "Hr" in
      let Hno := fresh "Hno" in
      pose proof Hr as Hr';
      apply in_delete_row in Hr; destruct Hr as [Hr Hno]; old_refs r
    | old_refs r ];
  fields; split_all; fields.

Ltac keep_refs :=
  repeat keeps_step; open_refs; split_all; try component; try one_ref.

Lemma run_keeps_refs o : keeps refs_intact (fun db => (Ok tt, run o db)).
Proof.
  intros db H. simpl.
  destruct o; unfold run, exec;
    match goal with
    | |- refs_intact (snd (?m db)) =>
        revert db H; change (keeps refs_intact m)
    end.
  all: keep_refs.
Qed.

(** X19.  In every store that the operations of [Database] can reach
    from the empty store, every reference of every row (a mob's paddock; an
    animal's mob, dam and sire; an event's animal and mob; a detail row's
    event, paddocks and product; a task's event, animal and mob) is NULL or
    the id of a stored row; each operation keeps this, whether it returns
    or raises. *)
Theorem reachable_stores_have_intact_refs (w : World) :
  reachable w -> refs_intact (store w).
Proof.
  induction 1 as [|o w _ IH].
  - unfold refs_intact. simpl. repeat (split; [intros r []|]). intros r [].
  - rewrite store_step. exact (@run_keeps_refs o (store w) IH).
Qed.

Lemma reachable_stores_have_intact_refs_witness : refs_intact (store two_visits).
Proof.
  apply reachable_stores_have_intact_refs. exact two_visits_reachable.
Defined.



(** ** Deleting a paddock: how the flow ends *)

Lemma vacate_step now x k db :
  Mob.id x = Some k ->
  (forall r, In r (rows (mobs db)) -> Mob.id r = Some k -> r = x) ->
  exists y,
    save_mob now (set_current_paddock_id None x) db
    = (Ok y,
       set_mobs
         (fun t => mkTable
                     (map (fun r => if has_id Mob.id k r then vacated now r else r)
                          (rows t))
                     (seq t))
         db).
Proof.
  intros Hid Hx. unfold save_mob. simpl. rewrite Hid.
  unfold bind, ret, sql_update, execute.
  match goal with |- context [forallb ?p ?rs] =>
    replace (forallb p rs) with true end.
  - eexists. f_equal. unfold set_mobs, update_row. f_equal. f_equal.
    apply map_ext_in. intros r Hr.
    destruct (has_id Mob.id k r) eqn:E; [|reflexivity].
    apply has_id_true in E. rewrite (Hx r Hr E). unfold vacated. now rewrite Hid.
  - symmetry. apply forallb_forall. intros r' Hr'.
    simpl in Hr'. apply in_map_iff in Hr'. destruct Hr' as (r & <- & Hr).
    destruct (has_id Mob.id k r) eqn:E.
    + apply orb_true_iff. right. reflexivity.
    + now rewrite E.
Qed.

Lemma mob_among_false l a k :
  Mob.id a = Some k -> ~ In (Some k) (map Mob.id l) -> mob_among l a = false.
Proof.
  intros Ha Hnot. unfold mob_among.
  destruct (existsb _ l) eqn:E; [|reflexivity].
  apply existsb_exists in E. destruct E as (x & Hx & Heq).
  apply sql_eq_true in Heq. destruct Heq as (j & Hj & Hj').
  exfalso. apply Hnot. rewrite Ha in Hj'. injection Hj' as ->.
  rewrite <- Hj. now apply in_map.
Qed.

Lemma mob_has_id_sql_eq k (x a : Mob.t) :
  Mob.id x = Some k -> sql_eq (Mob.id x) (Mob.id a) = has_id Mob.id k a.
Proof.
  intros ->. unfold has_id. destruct (Mob.id a); simpl; [apply Z.eqb_sym|reflexivity].
Qed.

Lemma vacate_loop clock p : forall l i db,
  NoDup (map Mob.id l) ->
  (forall x, In x l ->
     exists k, Mob.id x = Some k
               /\ forall r, In r (rows (mobs db)) -> Mob.id r = Some k -> r = x) ->
  exists db1,
    for_each (fun i mob =>
                if py_eq (Mob.current_paddock_id mob) (Some p)
                then save_mob (clock i) (set_current_paddock_id None mob) ;;; ret tt
                else ret tt) i l db = (Ok tt, db1)
    /\ Forall2 (fun a a' => if in_paddock p a && mob_among l a
                            then exists u, a' = vacated u a else a' = a)
               (rows (mobs db)) (rows (mobs db1)).
Proof.
  induction l as [|x l IH]; intros i db Hnd HP; simpl.
  - exists db. split; [reflexivity|]. apply Forall2_refl_eq.
    intros a. now rewrite andb_false_r.
  - inversion Hnd as [|? ? Hnotin Hnd']; subst.
    destruct (HP x (or_introl eq_refl)) as (k & Hk & Hx).
    assert (forall a, In a (rows (mobs db)) -> has_id Mob.id k a = true -> a = x) as Hx'.
    { intros a Ha E. apply Hx; [exact Ha|now apply has_id_true]. }
    unfold bind at 1.
    destruct (py_eq (Mob.current_paddock_id x) (Some p)) eqn:Ep.
    + unfold bind at 1.
      destruct (vacate_step (clock i) db Hk Hx) as [y ->]. simpl.
      set (step := fun r0 => if has_id Mob.id k r0 then vacated (clock i) r0 else r0).
      set (db0 := set_mobs _ db).
      assert (forall r0, Mob.id (step r0) = Mob.id r0) as Hstep_id.
      { intros r0. unfold step. now destruct (has_id Mob.id k r0). }
      destruct (IH (S i) db0 Hnd') as (db1 & Hrun & Hall).
      { intros x' Hx'0. destruct (HP x' (or_intror Hx'0)) as (k' & Hk' & Hx'u).
        exists k'. split; [assumption|]. intros r0 Hr0 Hid0.
        simpl in Hr0. apply in_map_iff in Hr0. destruct Hr0 as (r1 & <- & Hr1).
        fold (step r1) in *. rewrite Hstep_id in Hid0.
        assert (has_id Mob.id k r1 = false) as E.
        { destruct (has_id Mob.id k r1) eqn:E; [|reflexivity].
          apply has_id_true in E. exfalso. apply Hnotin.
          rewrite Hk, <- E, Hid0, <- Hk'. now apply in_map. }
        unfold step. rewrite E. auto. }
      exists db1. split; [exact Hrun|].
      eapply Forall2_trans_map; [exact Hall|]. intros a b Ha.
      cbv beta. fold (step a). rewrite (@mob_has_id_sql_eq k x a Hk).
      destruct (has_id Mob.id k a) eqn:E.
      * assert (mob_among l (step a) = false) as Hdone.
        { apply has_id_true in E. apply mob_among_false with (k := k).
          - now rewrite Hstep_id.
          - now rewrite <- Hk. }
        rewrite Hdone, andb_false_r. unfold step. rewrite E.
        rewrite (Hx' a Ha E). unfold in_paddock. rewrite Ep. simpl.
        intros ->. eauto.
      * unfold step. rewrite E. simpl. auto.
    + simpl. destruct (IH (S i) db Hnd') as (db1 & Hrun & Hall).
      { intros x' Hx'0. exact (HP x' (or_intror Hx'0)). }
      exists db1. split; [exact Hrun|].
      eapply Forall2_in_impl; [exact Hall|]. intros a b Ha.
      cbv beta. rewrite (@mob_has_id_sql_eq k x a Hk).
      destruct (has_id Mob.id k a) eqn:E; [|simpl; auto].
      rewrite (Hx' a Ha E). unfold in_paddock at 2. rewrite Ep. simpl.
      unfold in_paddock. rewrite Ep. simpl. auto.
Qed.

Lemma unassign_mobs_frame clock p :
  preserves (fun db => (paddocks db, movement_events db)) (unassign_mobs clock p).
Proof. unfold unassign_mobs, get_all_mobs. frame. Qed.

Lemma not_in_paddock_after p l l' :
  Forall2 (fun a a' => if in_paddock p a then exists u, a' = vacated u a else a' = a)
          l l' ->
  ~ referenced Mob.current_paddock_id p l'.
Proof.
  intros H (a' & Ha' & Hk). destruct (Forall2_in_r a' H Ha') as (a & _ & Haa).
  destruct (in_paddock p a) eqn:E.
  - destruct Haa as [u ->]. discriminate.
  - subst a'. unfold in_paddock in E. rewrite Hk in E. simpl in E.
    now rewrite Z.eqb_refl in E.
Qed.

(** The loop of [_on_delete_paddock] goes through on mobs with unique
    ids: every mob of the paddock is taken out of it, every other mob is
    untouched. *)
Lemma unassign_mobs_ok clock p db :
  keyed Mob.id (rows (mobs db)) ->
  exists db1,
    unassign_mobs clock p db = (Ok tt, db1)
    /\ Forall2 (fun a a' => if in_paddock p a then exists u, a' = vacated u a else a' = a)
               (rows (mobs db)) (rows (mobs db1)).
Proof.
  intros [Hnd Hnone].
  unfold unassign_mobs, get_all_mobs. unfold bind at 1. unfold query.
    set (l := order_by _ (rows (mobs db))).
    assert (forall x, In x l <-> In x (rows (mobs db))) as Hl.
    { intros x. apply order_by_in. }
    destruct (vacate_loop clock p l 0%nat db) as (db1 & Hrun & Hall).
    - apply Permutation_NoDup with (l := map Mob.id (rows (mobs db))); [|exact Hnd].
      apply Permutation_map. symmetry. apply order_by_perm.
    - intros x Hx. apply Hl in Hx.
      destruct (Mob.id x) as [k|] eqn:Hk.
      2:{ exfalso. apply Hnone. rewrite <- Hk. now apply in_map. }
      exists k. split; [reflexivity|]. intros r0 Hr0 Hid0.
      eapply keyed_unique; eauto.
    - exists db1. split; [exact Hrun|].
      eapply Forall2_in_impl; [exact Hall|]. intros a b Ha. cbv beta.
      replace (mob_among l a) with true; [now rewrite andb_true_r|].
      symmetry. apply existsb_exists. exists a. split; [now apply Hl|].
      destruct (Mob.id a) as [k|] eqn:Hk; [simpl; apply Z.eqb_refl|].
      exfalso. apply Hnone. rewrite <- Hk. now apply in_map.
Qed.

(** X22.  How a confirmed [_on_delete_paddock] ends on a stored paddock,
    mobs having unique ids.  Every mob in the paddock is taken out of it
    (its paddock reference cleared, [updated_at] set) and every other mob
    is untouched.  When no movement event names the paddock, the paddock is
    then deleted; when one does, the flow ends in IntegrityError with the
    paddock still stored and its mobs already taken out. *)
Theorem on_delete_paddock_outcome
    (clock : nat -> datetime) (p : Z) (paddock : Paddock.t) (db : Database) :
  p <> 0 ->
  get_paddock p db = (Ok (Some paddock), db) ->
  keyed Mob.id (rows (mobs db)) ->
  exists db1,
    unassign_mobs clock p db = (Ok tt, db1)
    /\ Forall2 (fun a a' => if in_paddock p a then exists u, a' = vacated u a else a' = a)
               (rows (mobs db)) (rows (mobs db1))
    /\ (paddock_on_record p db ->
        PaddocksView_on_delete_paddock clock (Some p) true db
        = (Raise IntegrityError, db1)
        /\ get_paddock p db1 = (Ok (Some paddock), db1))
    /\ (~ paddock_on_record p db ->
        exists db',
          PaddocksView_on_delete_paddock clock (Some p) true db = (Ok tt, db')
          /\ get_paddock p db' = (Ok None, db')
          /\ mobs db' = mobs db1).
Proof.
  intros Hp Hpad Hkeyed.
  destruct (@unassign_mobs_ok clock p db Hkeyed) as (db1 & Hrun & Hall).
  pose proof (unassign_mobs_frame clock p db) as Hframe.
  rewrite Hrun in Hframe. simpl in Hframe. injection Hframe as Hpaddocks Hmoves.
  assert (paddock_in_use p db1 <-> paddock_on_record p db) as Huse.
  { unfold paddock_in_use, paddock_on_record. rewrite Hmoves. split; [|tauto].
    intros [H|H]; [|exact H]. exfalso. exact (not_in_paddock_after Hall H). }
  assert (forall out,
             delete_paddock p db1 = out ->
             PaddocksView_on_delete_paddock clock (Some p) true db = out) as Hflow.
  { intros out <-. unfold PaddocksView_on_delete_paddock.
    replace (p =? 0) with false by (symmetry; now apply Z.eqb_neq).
    unfold bind at 1. rewrite Hpad. unfold bind at 1. now rewrite Hrun. }
  exists db1. split; [exact Hrun|]. split; [exact Hall|].
  destruct (delete_paddock_statement p db1)
    as [[Hb Hdel]|[Hfree (db' & Hdel & Hgone & _)]].
  - split; [|intros Hnot; exfalso; apply Hnot; now apply Huse].
    intros _. split; [now apply Hflow|].
    unfold get_paddock, query in *. rewrite Hpaddocks. injection Hpad as ->. reflexivity.
  - split; [intros Hrec; exfalso; apply Hfree; now apply Huse|].
    intros _. exists db'. split; [now apply Hflow|]. split; [exact Hgone|].
    unfold delete_paddock in Hdel.
    match type of Hdel with sql_delete ?g ?s ?k ?c ?d = _ =>
      destruct (sql_delete_cases g s k c d) as [E|E] end;
      rewrite E in Hdel; [|discriminate].
    injection Hdel as <-. reflexivity.
Qed.

Lemma on_delete_paddock_outcome_witness :
  exists db1,
    unassign_mobs (fun _ => 9) 1 yard_moved = (Ok tt, db1)
    /\ rows (mobs db1)
       = [Mob.mk (Some 1) "Weaners" CATTLE EmptyString None (Some 1) (Some 9)]
    /\ PaddocksView_on_delete_paddock (fun _ => 9) (Some 1) true yard_moved
       = (Raise IntegrityError, db1).
Proof.
  destruct (@on_delete_paddock_outcome (fun _ => 9) 1
              (Paddock.mk (Some 1) "River" None EmptyString EmptyString (Some 4) (Some 4))
              yard_moved) as (db1 & Hrun & _ & Hrec & _).
  - discriminate.
  - reflexivity.
  - split; simpl; [repeat constructor; simpl; intuition discriminate
                  | intuition discriminate].
  - exists db1. split; [exact Hrun|]. split.
    + injection Hrun as <-. reflexivity.
    + apply Hrec. right. vm_compute. eexists. split; [left; reflexivity|reflexivity].
Defined.


(** ** The user interface keeps the invariants of the store *)

Lemma keeps_try_except (P : Database -> Prop) (A : Type) (m : M A) :
  keeps P m -> keeps P (try_except m).
Proof.
  intros Hm db H. unfold try_except. specialize (Hm db H).
  destruct (m db) as [[a|e] db']; exact Hm.
Qed.

Ltac unfold_flows :=
  unfold PaddocksView_on_add_paddock, PaddocksView_on_edit_paddock,
    PaddocksView_on_delete_paddock, MobsView_on_add_mob, MobsView_on_edit_mob,
    MobsView_on_move_mob, MobsView_on_delete_mob, AnimalsView_on_add_animal,
    AnimalsView_on_edit_animal, AnimalsView_on_delete_animal,
    QuickMoveDialog_on_accept, QuickTreatmentDialog_on_accept,
    QuickWeighDialog_on_accept, QuickStatusDialog_on_accept,
    TreatmentsView_on_add_product, TreatmentsView_on_edit_product,
    TreatmentsView_on_delete_product, DashboardView_complete_task,
    SettingsView_save_property_settings,
    on_edit, PaddockDialog_on_save, MobDialog_on_save, AnimalDialog_on_save,
    ProductDialog_on_save, unassign_mobs, unassign_animals,
    DashboardView_refresh_stats, get_pending_tasks, get_animals_on_whp,
    get_animal_counts, get_species_counts, get_all_mobs, get_all_paddocks,
    get_property_settings;
  cbv zeta.

Ltac keeps_flow_step :=
  match goal with
  | |- keeps _ (try_except _) => apply keeps_try_except
  | |- keeps _ (let '(_, _) := ?x in _) => destruct x
  | _ => keeps_step
  end.

Lemma perform_keeps_keys a : keeps well_keyed (fun db => (Ok tt, perform a db)).
Proof.
  intros db H. simpl.
  destruct a; unfold perform, exec;
    match goal with
    | |- well_keyed (snd (?m db)) =>
        revert db H; change (keeps well_keyed m)
    end; unfold_flows; repeat keeps_flow_step; keyed_table.
Qed.

Lemma perform_keeps_refs a : keeps refs_intact (fun db => (Ok tt, perform a db)).
Proof.
  intros db H. simpl.
  destruct a; unfold perform, exec;
    match goal with
    | |- refs_intact (snd (?m db)) =>
        revert db H; change (keeps refs_intact m)
    end; unfold_flows; repeat keeps_flow_step;
    open_refs; split_all; try component; try one_ref.
Qed.

Ltac open_entered :=
  unfold as_entered, animal_as_entered, event_as_entered in *;
  cbn [paddocks mobs animals products events movement_events treatment_events
       weigh_events tasks property_settings
       set_paddocks set_mobs set_animals set_products set_events
       set_movement_events set_treatment_events set_weigh_events
       set_tasks set_property_settings] in *.

Ltac entered_fields :=
  cbn [Paddock.name Mob.name Product.name
       Animal.visual_tag Animal.eid Animal.date_of_birth Animal.dam_id Animal.sire_id
       Event.event_type Event.animal_id Event.mob_id set_event_type
       set_mob_id set_status set_current_paddock_id] in *.

Ltac entered_component :=
  let r := fresh "r" in
  let Hr := fresh "Hr" in
  intros r Hr;
  first
    [ let r0 := fresh "r" in
      let Hr0 := fresh "Hr" in
      let Hyes := fresh "Hyes" in
      let Hno := fresh "Hno" in
      let Heq := fresh "Heq" in
      apply in_update_row in Hr;
      destruct Hr as [[Hr Hno]|(r0 & Hr0 & Hyes & Heq)];
      [ old_refs r | subst r; old_refs r0 ]
    | apply in_insert_row in Hr; destruct Hr as [Hr|Hr]; [old_refs r | subst r]
    | let Hno := fresh "Hno" in
      apply in_delete_row in Hr; destruct Hr as [Hr Hno]; old_refs r
    | old_refs r ];
  entered_fields;
  repeat match goal with
         | H : _ /\ _ |- _ => destruct H
         | |- _ /\ _ => split
         end;
  entered_fields.

Ltac keep_entered :=
  repeat keeps_step; open_entered;
  repeat match goal with
         | H : _ /\ _ |- _ => destruct H
         | |- _ /\ _ => split
         end;
  try assumption;
  try entered_component;
  try solve [assumption | tauto | discriminate | congruence
            | unfold update_row; cbn [rows];
              match goal with H : rows _ = [] |- _ => rewrite H end; reflexivity ].

Lemma entered_save_animal now a :
  animal_as_entered a -> keeps as_entered (save_animal now a).
Proof. intros Ha. keep_entered. Qed.

Lemma entered_save_paddock now p :
  Paddock.name p <> EmptyString -> keeps as_entered (save_paddock now p).
Proof. intros Hp. keep_entered. Qed.

Lemma entered_save_mob now m :
  Mob.name m <> EmptyString -> keeps as_entered (save_mob now m).
Proof. intros Hm. keep_entered. Qed.

Lemma entered_save_product now p :
  Product.name p <> EmptyString -> keeps as_entered (save_product now p).
Proof. intros Hp. keep_entered. Qed.

Lemma entered_delete_paddock k : keeps as_entered (delete_paddock k).
Proof. keep_entered. Qed.

Lemma entered_delete_mob k : keeps as_entered (delete_mob k).
Proof. keep_entered. Qed.

Lemma entered_delete_animal k : keeps as_entered (delete_animal k).
Proof. keep_entered. Qed.

Lemma entered_delete_product k : keeps as_entered (delete_product k).
Proof. keep_entered. Qed.

Lemma entered_complete_task now k : keeps as_entered (complete_task now k).
Proof. keep_entered. Qed.

Lemma entered_save_property_settings now s :
  keeps as_entered (save_property_settings now s).
Proof. keep_entered. Qed.

Lemma entered_save_treatment_event now e t :
  Event.animal_id e <> None -> Event.mob_id e = None ->
  keeps as_entered (save_treatment_event now e t).
Proof. intros Ha Hm. keep_entered. Qed.

Lemma entered_save_weigh_event now e w :
  Event.animal_id e <> None -> Event.mob_id e = None ->
  keeps as_entered (save_weigh_event now e w).
Proof. intros Ha Hm. keep_entered. Qed.

Lemma keeps_query_fact (P : Database -> Prop) (A B : Type) (Q : A -> Prop)
    (q : Database -> A) (k : A -> M B) :
  (forall db, P db -> Q (q db)) ->
  (forall a, Q a -> keeps P (k a)) ->
  keeps P (bind (query q) k).
Proof.
  intros Hq Hk db H. unfold bind, query. exact (Hk (q db) (Hq db H) db H).
Qed.

Lemma keeps_for_each_fact (P : Database -> Prop) (A : Type) (Q : A -> Prop)
    (body : nat -> A -> M unit) l :
  (forall x, In x l -> Q x) ->
  (forall i x, Q x -> keeps P (body i x)) ->
  forall i, keeps P (for_each body i l).
Proof.
  intros Hl Hbody. induction l as [|x l IH]; intros i; simpl.
  - apply keeps_ret.
  - apply keeps_bind.
    + apply Hbody, Hl. now left.
    + intros _. apply IH. intros y Hy. apply Hl. now right.
Qed.

Lemma is_empty_false s : is_empty s = false -> s <> EmptyString.
Proof. destruct s; [discriminate|]. intros _. discriminate. Qed.

Lemma stored_animal_as_entered k db x :
  as_entered db -> select_id Animal.id k (animals db) = Some x -> animal_as_entered x.
Proof.
  intros (_ & _ & _ & Ha & _) Hsel. apply Ha.
  unfold select_id in Hsel. now apply find_some in Hsel.
Qed.

Lemma stored_mob_named k db x :
  as_entered db -> select_id Mob.id k (mobs db) = Some x -> Mob.name x <> EmptyString.
Proof.
  intros (_ & _ & _ & _ & _ & Hm & _) Hsel. apply Hm.
  unfold select_id in Hsel. now apply find_some in Hsel.
Qed.

(** The rules of the flows: what is read from a store that is as entered
    is as entered. *)
Ltac entered_step :=
  match goal with
  | |- forall _, _ => intro
  | |- keeps _ (save_paddock _ _) => apply entered_save_paddock
  | |- keeps _ (save_mob _ _) => apply entered_save_mob
  | |- keeps _ (save_animal _ _) => apply entered_save_animal
  | |- keeps _ (save_product _ _) => apply entered_save_product
  | |- keeps _ (delete_paddock _) => apply entered_delete_paddock
  | |- keeps _ (delete_mob _) => apply entered_delete_mob
  | |- keeps _ (delete_animal _) => apply entered_delete_animal
  | |- keeps _ (delete_product _) => apply entered_delete_product
  | |- keeps _ (complete_task _ _) => apply entered_complete_task
  | |- keeps _ (save_property_settings _ _) => apply entered_save_property_settings
  | |- keeps _ (save_treatment_event _ _ _) => apply entered_save_treatment_event
  | |- keeps _ (save_weigh_event _ _ _) => apply entered_save_weigh_event
  | |- keeps _ (bind (get_animal ?k) _) =>
      unfold get_animal at 1;
      apply keeps_query_fact with (Q := fun o => forall x, o = Some x -> animal_as_entered x);
      [ intros ? ? ? ?; eapply stored_animal_as_entered; eassumption | ]
  | |- keeps _ (bind (get_mob ?k) _) =>
      unfold get_mob at 1;
      apply keeps_query_fact
        with (Q := fun o => forall x, o = Some x -> Mob.name x <> EmptyString);
      [ intros ? ? ? ?; eapply stored_mob_named; eassumption | ]
  | |- keeps _ (bind (get_animals_by_mob ?m) _) =>
      unfold get_animals_by_mob at 1;
      apply keeps_query_fact with (Q := fun l => forall x, In x l -> animal_as_entered x);
      [ intros ? (_ & _ & _ & ? & _) ? ?Hin; apply order_by_in, filter_In in Hin;
        destruct Hin; auto | ]
  | |- keeps _ (bind (get_all_mobs) _) =>
      unfold get_all_mobs at 1;
      apply keeps_query_fact
        with (Q := fun l => forall x, In x l -> Mob.name x <> EmptyString);
      [ intros ? (_ & _ & _ & _ & _ & ? & _) ? ?Hin; apply order_by_in in Hin; auto | ]
  | H : (forall x, In x ?l -> _) |- keeps _ (for_each _ _ ?l) =>
      apply keeps_for_each_fact with (1 := H)
  | |- keeps _ (if ?b then _ else _) => destruct b eqn:?
  | |- keeps _ (match ?x with _ => _ end) => destruct x eqn:?
  | |- keeps _ (try_except _) => apply keeps_try_except
  | |- keeps _ (ret _) => apply keeps_ret
  | |- keeps _ (raise _) => apply keeps_raise
  | |- keeps _ (lift _) => apply keeps_lift
  | |- keeps _ (query _) => apply keeps_query
  | |- keeps _ (bind _ _) => apply keeps_bind
  | |- keeps _ (for_each _ _ _) => apply keeps_for_each
  end.

Ltac entered_side :=
  unfold animal_as_entered, new_animal in *; entered_fields;
  repeat match goal with
         | H : forall x, Some ?a = Some x -> _ |- _ => specialize (H a eq_refl)
         | H : is_empty _ = false |- _ => apply is_empty_false in H
         | H : _ && _ = false |- _ => apply andb_false_iff in H; destruct H
         | H : _ /\ _ |- _ => destruct H
         end;
  try solve [intuition (try discriminate; auto)].

Lemma perform_keeps_entered a : keeps as_entered (fun db => (Ok tt, perform a db)).
Proof.
  intros db H. simpl.
  destruct a; unfold perform, exec;
    match goal with
    | |- as_entered (snd (?m db)) =>
        revert db H; change (keeps as_entered m)
    end.
  all: unfold PaddocksView_on_add_paddock, PaddocksView_on_edit_paddock,
    PaddocksView_on_delete_paddock, MobsView_on_add_mob, MobsView_on_edit_mob,
    MobsView_on_move_mob, MobsView_on_delete_mob, AnimalsView_on_add_animal,
    AnimalsView_on_edit_animal, AnimalsView_on_delete_animal,
    QuickMoveDialog_on_accept, QuickTreatmentDialog_on_accept,
    QuickWeighDialog_on_accept, QuickStatusDialog_on_accept,
    TreatmentsView_on_add_product, TreatmentsView_on_edit_product,
    TreatmentsView_on_delete_product, DashboardView_complete_task,
    SettingsView_save_property_settings,
    on_edit, PaddockDialog_on_save, MobDialog_on_save, AnimalDialog_on_save,
    ProductDialog_on_save, unassign_mobs, unassign_animals,
    DashboardView_refresh_stats, get_pending_tasks, get_animals_on_whp,
    get_animal_counts, get_species_counts, get_all_paddocks,
    get_property_settings, get_mob_animal_count, get_paddock, get_product;
    cbv zeta.
  all: repeat entered_step.
  all: entered_side.
Qed.

Lemma ui_reachable_keeps (P : Database -> Prop) :
  P empty_db ->
  (forall a, keeps P (fun db => (Ok tt, perform a db))) ->
  forall db, ui_reachable db -> P db.
Proof.
  intros H0 Hstep db. induction 1 as [|a db _ IH]; [exact H0|].
  exact (Hstep a db IH).
Qed.

Lemma perform_all_reachable l : forall db,
  ui_reachable db -> ui_reachable (perform_all l db).
Proof.
  induction l as [|a l IH]; intros db H; simpl; [exact H|].
  apply IH. now constructor.
Qed.

Lemma homestead_reachable : ui_reachable homestead.
Proof. apply perform_all_reachable. constructor. Qed.

Lemma as_entered_empty : as_entered empty_db.
Proof.
  unfold as_entered. simpl. split; [reflexivity|]. split; [reflexivity|].
  repeat (split; [intros r []|]). intros r [].
Qed.

(** X23.  What the user interface never stores.  In every store that
    its flows reach from a fresh database there is no task and no movement
    event; every event is a treatment or a weighing of an animal and names
    no mob; every animal has a visual tag or an EID, has a date of birth
    and has neither dam nor sire; every paddock, mob and product has a
    name. *)
Theorem ui_stores_are_as_entered (db : Database) :
  ui_reachable db -> as_entered db.
Proof.
  apply ui_reachable_keeps.
  - exact as_entered_empty.
  - exact perform_keeps_entered.
Qed.

Lemma ui_stores_are_as_entered_witness : as_entered homestead.
Proof.
  apply ui_stores_are_as_entered. exact homestead_reachable.
Defined.

(** X24.  Every store that the flows of the user interface reach from a
    fresh database has unique row ids in every table and intact
    references, also after a flow that ended in an exception. *)
Theorem ui_stores_are_consistent (db : Database) :
  ui_reachable db -> well_keyed db /\ refs_intact db.
Proof.
  intros H. split; revert db H; apply ui_reachable_keeps.
  - unfold well_keyed, keyed. simpl. repeat split; try constructor; tauto.
  - exact perform_keeps_keys.
  - unfold refs_intact. simpl. repeat (split; [intros r []|]). intros r [].
  - exact perform_keeps_refs.
Qed.

Lemma ui_stores_are_consistent_witness : well_keyed homestead /\ refs_intact homestead.
Proof.
  apply ui_stores_are_consistent. exact homestead_reachable.
Defined.


(** ** Deleting through the user interface *)

Lemma well_keyed_empty : well_keyed empty_db.
Proof. unfold well_keyed, keyed. simpl. repeat split; try constructor; tauto. Qed.

Lemma delete_row_result (A : Type) (getid : A -> option Z)
    (set_tbl : (Table A -> Table A) -> Database -> Database) k chk db db' :
  sql_delete getid set_tbl k chk db = (Ok tt, db') ->
  db' = set_tbl (delete_row getid k) db.
Proof.
  intros H. destruct (sql_delete_cases getid set_tbl k chk db) as [E|E];
    rewrite E in H; congruence.
Qed.

(** X25.  In a store that the flows of the user interface have reached,
    a confirmed delete of a stored mob or of a stored paddock always goes
    through: nothing that those flows store can block it.  The animals of
    the mob, and the mobs of the paddock, all stay.  A confirmed delete of
    one animal is refused exactly when a treatment or a weighing of the
    animal is on record.  The list of pending tasks is always empty. *)
Theorem ui_deletes_go_through (clock : nat -> datetime) (k : Z) (db : Database) :
  ui_reachable db ->
  k <> 0 ->
  (forall mob,
     get_mob k db = (Ok (Some mob), db) ->
     exists db',
       MobsView_on_delete_mob clock (Some k) true db = (Ok tt, db')
       /\ get_mob k db' = (Ok None, db')
       /\ get_animals_by_mob k db' = (Ok [], db')
       /\ List.length (rows (animals db')) = List.length (rows (animals db)))
  /\ (forall paddock,
        get_paddock k db = (Ok (Some paddock), db) ->
        exists db',
          PaddocksView_on_delete_paddock clock (Some k) true db = (Ok tt, db')
          /\ get_paddock k db' = (Ok None, db')
          /\ List.length (rows (mobs db')) = List.length (rows (mobs db)))
  /\ (referenced Event.animal_id k (rows (events db)) ->
      AnimalsView_on_delete_animal [k] true db = (Raise IntegrityError, db))
  /\ (~ referenced Event.animal_id k (rows (events db)) ->
      exists db',
        AnimalsView_on_delete_animal [k] true db = (Ok tt, db')
        /\ get_animal k db' = (Ok None, db'))
  /\ (forall today days_ahead l,
        get_pending_tasks today days_ahead db = (Ok l, db) -> l = []).
Proof.
  intros Hreach Hk.
  pose proof (ui_reachable_keeps as_entered_empty perform_keeps_entered Hreach)
    as (Htasks & Hmoves & Hevents & Hanimals & _).
  pose proof (ui_reachable_keeps well_keyed_empty perform_keeps_keys Hreach)
    as (_ & Hkm & Hka & _).
  split; [|split; [|split; [|split]]].
  - intros mob Hmob.
    assert (parents_stored k db) as Hparents.
    { intros a Ha _. destruct (Hanimals a Ha) as (_ & _ & -> & ->). split; exact I. }
    destruct (@unassign_animals_ok clock k db Hka Hparents) as (db1 & Hrun & Hframe & Hall).
    injection Hframe as Hmobs Hev Htk.
    pose proof (@not_in_mob_after k _ _ Hall) as Hnone.
    assert (~ mob_in_use k db1) as Hfree.
    { unfold mob_in_use. rewrite Hev, Htk, Htasks.
      intros [(a & Ha & Hm)|[(e & He & Hm)|(t & [] & _)]].
      - specialize (Hnone a Ha). rewrite Hm in Hnone. simpl in Hnone.
        now rewrite Z.eqb_refl in Hnone.
      - destruct (Hevents e He) as (_ & _ & Hnomob). congruence. }
    destruct (delete_mob_statement k db1) as [[Hb _]|[_ (db' & Hdel & Hgone & _)]];
      [contradiction|].
    exists db'. split.
    { unfold MobsView_on_delete_mob.
      replace (k =? 0) with false by (symmetry; now apply Z.eqb_neq).
      unfold bind at 1. rewrite Hmob. unfold bind at 1.
      unfold get_mob_animal_count at 1, query at 1.
      unfold bind at 1. now rewrite Hrun. }
    split; [exact Hgone|].
    unfold delete_mob in Hdel. apply delete_row_result in Hdel. subst db'.
    cbn [animals set_mobs]. split.
    + unfold get_animals_by_mob, query. cbn [animals set_mobs].
      now rewrite filter_absent.
    + symmetry. exact (Forall2_length Hall).
  - intros paddock Hpad.
    destruct (@unassign_mobs_ok clock k db Hkm) as (db1 & Hrun & Hall).
    pose proof (unassign_mobs_frame clock k db) as Hframe.
    rewrite Hrun in Hframe. simpl in Hframe. injection Hframe as Hpaddocks Hmv.
    assert (~ paddock_in_use k db1) as Hfree.
    { unfold paddock_in_use. rewrite Hmv, Hmoves.
      intros [H|[(m & [] & _)|(m & [] & _)]]. exact (not_in_paddock_after Hall H). }
    destruct (delete_paddock_statement k db1)
      as [[Hb _]|[_ (db' & Hdel & Hgone & _)]]; [contradiction|].
    exists db'. split.
    { unfold PaddocksView_on_delete_paddock.
      replace (k =? 0) with false by (symmetry; now apply Z.eqb_neq).
      unfold bind at 1. rewrite Hpad. unfold bind at 1. now rewrite Hrun. }
    split; [exact Hgone|].
    unfold delete_paddock in Hdel. apply delete_row_result in Hdel. subst db'.
    cbn [mobs set_paddocks].
    symmetry. exact (Forall2_length Hall).
  - intros Href. unfold AnimalsView_on_delete_animal. cbn [for_each].
    unfold bind.
    destruct (delete_animal_statement k db) as [[_ ->]|[Hfree _]]; [reflexivity|].
    exfalso. apply Hfree. unfold animal_in_use. tauto.
  - intros Href. unfold AnimalsView_on_delete_animal. cbn [for_each].
    unfold bind.
    destruct (delete_animal_statement k db)
      as [[Hb _]|[_ (db' & -> & Hgone & _)]].
    + exfalso. destruct Hb as [(a & Ha & _ & Hp)|[H|(t & Ht & _)]].
      * destruct (Hanimals a Ha) as (_ & _ & Hdam & Hsire).
        destruct Hp; congruence.
      * contradiction.
      * rewrite Htasks in Ht. destruct Ht.
    + exists db'. split; [reflexivity|exact Hgone].
  - intros today days_ahead l. unfold get_pending_tasks, bind, lift, query.
    destruct (date_add today days_ahead); [|discriminate].
    rewrite Htasks. simpl. now intros [= <-].
Qed.

Lemma ui_deletes_go_through_witness :
  (exists db',
     MobsView_on_delete_mob (fun _ => 9) (Some 1) true homestead = (Ok tt, db')
     /\ get_mob 1 db' = (Ok None, db')
     /\ get_animals_by_mob 1 db' = (Ok [], db')
     /\ List.length (rows (animals db')) = List.length (rows (animals homestead)))
  /\ AnimalsView_on_delete_animal [1] true homestead
     = (Raise IntegrityError, homestead).
Proof.
  destruct (@ui_deletes_go_through (fun _ => 9) 1 homestead homestead_reachable)
    as (Hmob & _ & Hrefused & _).
  - discriminate.
  - split.
    + eapply Hmob. reflexivity.
    + apply Hrefused. eexists. split; [left; reflexivity|reflexivity].
Defined.
